(** * BungholeAudio driver: ring buffer, realtime IO, volume, framing, clock

    A shallow embedding of [driver/BungholeAudio/BungholeAudioDriver.c].
    Unsigned 64-bit quantities are integers in [Z] with the wrap-around of
    the C arithmetic written out; arrays of [float] are lists; a C operation
    whose behaviour is undefined (a copy outside of an array, a conversion
    of a NaN to an integer, a division by zero) returns [None]. *)

From Stdlib Require Import ZArith Lia Bool QArith Qround.
From Stdlib Require Import Floats.SpecFloat Strings.Byte.
From stdpp Require Import base option list.

Local Open Scope Z_scope.

(** ** Compile-time constants *)

Definition SAMPLE_RATE : Z := 48000.
Definition NUM_CHANNELS : Z := 2.
Definition BITS_PER_CHANNEL : Z := 32.
Definition BYTES_PER_FRAME : Z := NUM_CHANNELS * (BITS_PER_CHANNEL / 8).
Definition RING_CAPACITY : Z := 8192.
Definition OPUS_FRAME_SIZE : Z := 960.
Definition OPUS_MAX_PACKET : Z := 1500.
Definition IO_BUFFER_FRAMES : Z := 512.
Definition CLOCK_PERIOD_FRAMES : Z := 480.

(** [sizeof(float)] *)
Definition sizeof_float : Z := 4.

(** ** Object IDs *)

Definition kObjectID_Plugin : Z := 1.
Definition kObjectID_OutputDevice : Z := 2.
Definition kObjectID_InputDevice : Z := 3.
Definition kObjectID_OutputStream : Z := 4.
Definition kObjectID_InputStream : Z := 5.
Definition kObjectID_OutputVolume : Z := 6.
Definition kObjectID_InputVolume : Z := 7.

(** ** Unsigned 64-bit arithmetic *)

(** [uint64_t] values are the integers below [u64_modulus]. *)
Definition u64_modulus : Z := 2 ^ 64.
Definition wrap64 (z : Z) : Z := z mod u64_modulus.
Definition u64_add (a b : Z) : Z := wrap64 (a + b).
Definition u64_sub (a b : Z) : Z := wrap64 (a - b).
Definition u64_mul (a b : Z) : Z := wrap64 (a * b).

(** ** Memory copies on arrays of samples

    [memcpy dst doff src soff nbytes] is [memcpy(dst + doff, src + soff, nbytes)]
    on arrays of 4-byte samples; it is undefined when either range leaves
    its array. *)

Definition memcpy {A : Type} (dst : list A) (doff : Z) (src : list A) (soff nbytes : Z)
  : option (list A) :=
  let n := nbytes / sizeof_float in
  if (doff + n <=? Z.of_nat (length dst)) && (soff + n <=? Z.of_nat (length src))
  then Some (take (Z.to_nat doff) dst
             ++ take (Z.to_nat n) (drop (Z.to_nat soff) src)
             ++ drop (Z.to_nat (doff + n)) dst)
  else None.

(** [memset0 zero dst doff nbytes] is [memset(dst + doff, 0, nbytes)], where
    [zero] is the sample whose bytes are all zero. *)
Definition memset0 {A : Type} (zero : A) (dst : list A) (doff nbytes : Z) : option (list A) :=
  let n := nbytes / sizeof_float in
  if doff + n <=? Z.of_nat (length dst)
  then Some (take (Z.to_nat doff) dst
             ++ replicate (Z.to_nat n) zero
             ++ drop (Z.to_nat (doff + n)) dst)
  else None.

(** ** Lock-free SPSC ring buffer *)

Record RingBuffer (A : Type) : Type := mkRing {
  samples : list A;   (* float samples[RING_CAPACITY * NUM_CHANNELS] *)
  head : Z;           (* producer write position (in frames) *)
  tail : Z            (* consumer read position (in frames) *)
}.
Arguments mkRing {A} _ _ _.
Arguments samples {A} _.
Arguments head {A} _.
Arguments tail {A} _.

Definition ring_init {A : Type} (zero : A) : RingBuffer A :=
  {| samples := replicate (Z.to_nat (RING_CAPACITY * NUM_CHANNELS)) zero;
     head := 0;
     tail := 0 |}.

Definition ring_available {A : Type} (rb : RingBuffer A) : Z :=
  let h := head rb in
  let t := tail rb in
  u64_sub h t.

(** Write up to [count] frames. Returns the new ring and the frames
    actually written. *)
Definition ring_write {A : Type} (rb : RingBuffer A) (src : list A) (count : Z)
  : option (RingBuffer A * Z) :=
  let h := head rb in
  let t := tail rb in
  let free := u64_sub RING_CAPACITY (u64_sub h t) in
  let count := if count >? free then free else count in
  if count =? 0 then Some (rb, 0) else
  let idx := h mod RING_CAPACITY in
  let first := u64_sub RING_CAPACITY idx in
  let first := if first >? count then count else first in
  s1 ← memcpy (samples rb) (u64_mul idx NUM_CHANNELS) src 0
              (u64_mul first BYTES_PER_FRAME);
  s2 ← (if count >? first
        then memcpy s1 0 src (u64_mul first NUM_CHANNELS)
                    (u64_mul (u64_sub count first) BYTES_PER_FRAME)
        else Some s1);
  Some ({| samples := s2; head := u64_add h count; tail := t |}, count).

(** Read up to [count] frames into [dst]. Returns the new ring, the
    destination buffer after the copy and the frames actually read. *)
Definition ring_read {A : Type} (rb : RingBuffer A) (dst : list A) (count : Z)
  : option (RingBuffer A * list A * Z) :=
  let h := head rb in
  let t := tail rb in
  let avail := u64_sub h t in
  let count := if count >? avail then avail else count in
  if count =? 0 then Some (rb, dst, 0) else
  let idx := t mod RING_CAPACITY in
  let first := u64_sub RING_CAPACITY idx in
  let first := if first >? count then count else first in
  d1 ← memcpy dst 0 (samples rb) (u64_mul idx NUM_CHANNELS)
              (u64_mul first BYTES_PER_FRAME);
  d2 ← (if count >? first
        then memcpy d1 (u64_mul first NUM_CHANNELS) (samples rb) 0
                    (u64_mul (u64_sub count first) BYTES_PER_FRAME)
        else Some d1);
  Some ({| samples := samples rb; head := h; tail := u64_add t count |}, d2, count).

(** ** Ring invariant and the queue a ring represents *)

(** The C type of a ring fixes the size of its storage and the range of its
    indices; the last conjunct says that the ring holds at most
    [RING_CAPACITY] frames, the difference being taken as the code takes
    it, in unsigned 64-bit arithmetic. *)
Definition ring_wf {A : Type} (rb : RingBuffer A) : Prop :=
  Z.of_nat (length (samples rb)) = RING_CAPACITY * NUM_CHANNELS
  /\ 0 <= head rb < u64_modulus
  /\ 0 <= tail rb < u64_modulus
  /\ u64_sub (head rb) (tail rb) <= RING_CAPACITY.

(** The samples a ring holds, oldest first: [ring_available] frames read
    from [tail mod RING_CAPACITY] on, wrapping at the end of the storage. *)
Definition contents {A : Type} (rb : RingBuffer A) : list A :=
  let i0 := Z.to_nat ((tail rb mod RING_CAPACITY) * NUM_CHANNELS) in
  take (Z.to_nat (ring_available rb * NUM_CHANNELS))
       (drop i0 (samples rb) ++ take i0 (samples rb)).

(** ** Single-precision floats

    A [float] is an IEEE-754 binary32 value, modelled by [spec_float] with
    a 24-bit significand and [emax = 128]; arithmetic rounds to nearest,
    ties to even. NaN payloads are not distinguished. *)

Definition float32 : Type := spec_float.
Definition f32_prec : Z := 24.
Definition f32_emax : Z := 128.

Definition f32_mul (x y : float32) : float32 := SFmul f32_prec f32_emax x y.
Definition f32_div (x y : float32) : float32 := SFdiv f32_prec f32_emax x y.
(** [x < y], [x <= y]: false as soon as an operand is a NaN *)
Definition f32_lt (x y : float32) : bool := SFltb x y.
Definition f32_le (x y : float32) : bool := SFleb x y.
(** the float an integer literal or an integer value converts to *)
Definition f32_of_Z (z : Z) : float32 := binary_normalize f32_prec f32_emax z 0 false.
Definition f32_valid (x : float32) : bool := valid_binary f32_prec f32_emax x.

Definition f32_zero : float32 := S754_zero false.  (* 0.0f, all bits zero *)
Definition f32_one : float32 := Eval cbv in f32_of_Z 1.
Definition f32_10 : float32 := Eval cbv in f32_of_Z 10.
Definition f32_20 : float32 := Eval cbv in f32_of_Z 20.
Definition f32_32767 : float32 := Eval cbv in f32_of_Z 32767.
Definition f32_m32768 : float32 := Eval cbv in f32_of_Z (-32768).
Definition f32_32768 : float32 := Eval cbv in f32_of_Z 32768.

(** Volume dB range *)
Definition VOLUME_MIN_DB : float32 := Eval cbv in f32_of_Z (-96).
Definition VOLUME_MAX_DB : float32 := f32_zero.

(** [(int16_t)s]: the value of [s] truncated toward zero; undefined for a
    NaN, an infinity, and a truncated value outside of the range of
    [int16_t]. *)
Definition f32_to_int16 (s : float32) : option Z :=
  match s with
  | S754_zero _ => Some 0
  | S754_finite sg m e =>
      let mag := Z.shiftl (Zpos m) e in
      let v := if sg then - mag else mag in
      if (-32768 <=? v) && (v <=? 32767) then Some v else None
  | S754_infinity _ | S754_nan => None
  end.

(** Double-precision floats, for the sample time of the clock. *)
Definition float64 : Type := spec_float.
Definition f64_of_Z (z : Z) : float64 := binary_normalize 53 1024 z 0 false.

(** ** Driver state *)

(** The fields of [DriverState] that the modelled functions read or write;
    the interface pointer, reference count, thread handles, codec handles
    and logger are left out. *)
Record DriverState : Type := mkDriver {
  outputRing : RingBuffer float32;  (* IO writes (output device) -> transport reads *)
  inputRing : RingBuffer float32;   (* transport writes -> IO reads (input device) *)
  outputVolume : float32;           (* 0.0 - 1.0 scalar *)
  outputMute : Z;
  inputVolume : float32;
  inputMute : Z;
  outputIORunning : Z;
  inputIORunning : Z;
  outputHostTicksAtZero : Z;
  inputHostTicksAtZero : Z;
  outputSampleTime : Z;
  inputSampleTime : Z;
  running : Z;
  timebase_numer : Z;               (* mach_timebase_info_data_t timebase *)
  timebase_denom : Z
}.

Definition set_outputRing (drv : DriverState) (rb : RingBuffer float32) : DriverState :=
  mkDriver rb (inputRing drv) (outputVolume drv) (outputMute drv) (inputVolume drv)
    (inputMute drv) (outputIORunning drv) (inputIORunning drv)
    (outputHostTicksAtZero drv) (inputHostTicksAtZero drv) (outputSampleTime drv)
    (inputSampleTime drv) (running drv) (timebase_numer drv) (timebase_denom drv).

Definition set_inputRing (drv : DriverState) (rb : RingBuffer float32) : DriverState :=
  mkDriver (outputRing drv) rb (outputVolume drv) (outputMute drv) (inputVolume drv)
    (inputMute drv) (outputIORunning drv) (inputIORunning drv)
    (outputHostTicksAtZero drv) (inputHostTicksAtZero drv) (outputSampleTime drv)
    (inputSampleTime drv) (running drv) (timebase_numer drv) (timebase_denom drv).

Definition set_outputVolume (drv : DriverState) (v : float32) : DriverState :=
  mkDriver (outputRing drv) (inputRing drv) v (outputMute drv) (inputVolume drv)
    (inputMute drv) (outputIORunning drv) (inputIORunning drv)
    (outputHostTicksAtZero drv) (inputHostTicksAtZero drv) (outputSampleTime drv)
    (inputSampleTime drv) (running drv) (timebase_numer drv) (timebase_denom drv).

Definition set_inputVolume (drv : DriverState) (v : float32) : DriverState :=
  mkDriver (outputRing drv) (inputRing drv) (outputVolume drv) (outputMute drv) v
    (inputMute drv) (outputIORunning drv) (inputIORunning drv)
    (outputHostTicksAtZero drv) (inputHostTicksAtZero drv) (outputSampleTime drv)
    (inputSampleTime drv) (running drv) (timebase_numer drv) (timebase_denom drv).

(** The status codes of CoreAudio that the modelled functions return. *)
Inductive OSStatus : Type :=
  | kAudioHardwareNoError
  | kAudioHardwareUnspecifiedError
  | kAudioHardwareUnknownPropertyError
  | kAudioHardwareBadPropertySizeError
  | kAudioHardwareUnsupportedOperationError.

(** IO operation codes of [AudioServerPlugIn.h] (four-character codes
    ['read'] and ['rite']; the header is not part of the repository). *)
Definition kAudioServerPlugInIOOperationReadInput : Z := 0x72656164.
Definition kAudioServerPlugInIOOperationWriteMix : Z := 0x72697465.

Definition is_output_device (id : Z) : bool := id =? kObjectID_OutputDevice.
Definition is_input_device (id : Z) : bool := id =? kObjectID_InputDevice.
Definition is_device (id : Z) : bool := is_output_device id || is_input_device id.
Definition is_volume (id : Z) : bool :=
  (id =? kObjectID_OutputVolume) || (id =? kObjectID_InputVolume).

(** ** Utility: volume scalar <-> dB conversion

    [log10f] and [powf] are the functions of the C library, which the
    repository does not define; they are parameters. *)

Definition scalar_to_db (log10f : float32 -> float32) (scalar : float32) : float32 :=
  if f32_le scalar f32_zero then VOLUME_MIN_DB else
  let db := f32_mul f32_20 (log10f scalar) in
  let db := if f32_lt db VOLUME_MIN_DB then VOLUME_MIN_DB else db in
  db.

Definition db_to_scalar (powf : float32 -> float32 -> float32) (db : float32) : float32 :=
  if f32_le db VOLUME_MIN_DB then f32_zero else
  powf f32_10 (f32_div db f32_20).

(** ** Realtime IO *)

(** [driver_DoIOOperation gDriver id opID ioSize ioMainBuffer] returns the
    status, the driver state and the main buffer after the call. [gDriver]
    is [None] when the global pointer is NULL. *)
Definition driver_DoIOOperation (gDriver : option DriverState) (id opID ioSize : Z)
    (ioMainBuffer : list float32)
  : option (OSStatus * option DriverState * list float32) :=
  match gDriver with
  | None => Some (kAudioHardwareUnspecifiedError, None, ioMainBuffer)
  | Some drv =>
    if is_output_device id && (opID =? kAudioServerPlugInIOOperationWriteMix) then
      (* Apps have mixed audio into ioMainBuffer - copy to output ring *)
      let buf := ioMainBuffer in
      '(rb', _) ← ring_write (outputRing drv) buf ioSize;
      Some (kAudioHardwareNoError, Some (set_outputRing drv rb'), buf)
    else if is_input_device id && (opID =? kAudioServerPlugInIOOperationReadInput) then
      (* Read from input ring into ioMainBuffer; pad with silence on underflow *)
      let buf := ioMainBuffer in
      '(rb', buf, got) ← ring_read (inputRing drv) buf ioSize;
      buf ← (if got <? ioSize
             then memset0 f32_zero buf (u64_mul got NUM_CHANNELS)
                          (u64_mul (u64_sub ioSize got) BYTES_PER_FRAME)
             else Some buf);
      Some (kAudioHardwareNoError, Some (set_inputRing drv rb'), buf)
    else
      Some (kAudioHardwareNoError, Some drv, ioMainBuffer)
  end.

Definition driver_WillDoIOOperation (id opID : Z) : OSStatus * bool * bool :=
  let outWill := false in
  let outIsInput := false in
  let '(outWill, outIsInput) :=
    if is_output_device id then
      if opID =? kAudioServerPlugInIOOperationWriteMix then (true, false)
      else (outWill, outIsInput)
    else if is_input_device id then
      if opID =? kAudioServerPlugInIOOperationReadInput then (true, true)
      else (outWill, outIsInput)
    else (outWill, outIsInput) in
  (kAudioHardwareNoError, outWill, outIsInput).

(** ** Volume properties *)

(** The selectors of a level control that carry a [Float32]. *)
Inductive LevelSelector : Type :=
  | kAudioLevelControlPropertyScalarValue
  | kAudioLevelControlPropertyDecibelValue
  | kAudioLevelControlPropertyConvertScalarToDecibels
  | kAudioLevelControlPropertyConvertDecibelsToScalar.

(** A property selector: one of the above, or any other selector. *)
Inductive AudioObjectPropertySelector : Type :=
  | LevelProperty (s : LevelSelector)
  | OtherProperty (code : Z).

(** [sizeof(Float32)] *)
Definition sizeof_Float32 : Z := 4.

(** [driver_SetPropertyData]: [inData] is the [Float32] that [inData]
    points to. The result is [None] when the function dereferences a NULL
    [gDriver]. *)
Definition driver_SetPropertyData (powf : float32 -> float32 -> float32)
    (gDriver : option DriverState) (id : Z) (mSelector : AudioObjectPropertySelector)
    (inSize : Z) (inData : float32)
  : option (OSStatus * option DriverState) :=
  if is_volume id then
    drv ← gDriver;
    let isOutputVol := id =? kObjectID_OutputVolume in
    let store v := if isOutputVol then set_outputVolume drv v else set_inputVolume drv v in
    match mSelector with
    | LevelProperty kAudioLevelControlPropertyScalarValue =>
        if inSize <? sizeof_Float32 then Some (kAudioHardwareBadPropertySizeError, gDriver)
        else
          let v := inData in
          let v := if f32_lt v f32_zero then f32_zero else v in
          let v := if f32_lt f32_one v then f32_one else v in
          Some (kAudioHardwareNoError, Some (store v))
    | LevelProperty kAudioLevelControlPropertyDecibelValue =>
        if inSize <? sizeof_Float32 then Some (kAudioHardwareBadPropertySizeError, gDriver)
        else
          let db := inData in
          let db := if f32_lt db VOLUME_MIN_DB then VOLUME_MIN_DB else db in
          let db := if f32_lt VOLUME_MAX_DB db then VOLUME_MAX_DB else db in
          Some (kAudioHardwareNoError, Some (store (db_to_scalar powf db)))
    | _ => Some (kAudioHardwareUnsupportedOperationError, gDriver)
    end
  else Some (kAudioHardwareUnsupportedOperationError, gDriver).

(** The part of [driver_GetPropertyData] that answers the [Float32]
    selectors of a volume control: the status and, on success, the value
    written to [outData]. [ioData] is the [Float32] found in [outData] on
    entry, which the two conversion selectors read. The branches for the
    other objects and selectors (class ids, names, ranges) are not
    modelled: the result is [None] for an object that is not a volume
    control, and when [gDriver] is NULL. *)
Definition driver_GetPropertyData (log10f : float32 -> float32)
    (powf : float32 -> float32 -> float32)
    (gDriver : option DriverState) (id : Z) (mSelector : LevelSelector)
    (inSize : Z) (ioData : float32)
  : option (OSStatus * option float32) :=
  if is_volume id then
    drv ← gDriver;
    let isOutputVol := id =? kObjectID_OutputVolume in
    let vol := if isOutputVol then outputVolume drv else inputVolume drv in
    if inSize <? sizeof_Float32 then Some (kAudioHardwareBadPropertySizeError, None)
    else
      match mSelector with
      | kAudioLevelControlPropertyScalarValue =>
          let v := vol in
          Some (kAudioHardwareNoError, Some v)
      | kAudioLevelControlPropertyDecibelValue =>
          let v := vol in
          Some (kAudioHardwareNoError, Some (scalar_to_db log10f v))
      | kAudioLevelControlPropertyConvertScalarToDecibels =>
          Some (kAudioHardwareNoError, Some (scalar_to_db log10f ioData))
      | kAudioLevelControlPropertyConvertDecibelsToScalar =>
          Some (kAudioHardwareNoError, Some (db_to_scalar powf ioData))
      end
  else None.

(** ** Transport: output thread, the codec step

    The part of the inner loop of [output_transport_thread] that runs once
    the accumulator holds a codec frame: volume snapshot and conversion
    Float32 -> Int16. *)

(** [mute ? 0.0f : vol] *)
Definition output_gain (vol : float32) (mute : Z) : float32 :=
  if negb (mute =? 0) then f32_zero else vol.

(** The body of the conversion loop for one sample [pcm[i]]. *)
Definition output_convert_sample (x gain : float32) : option Z :=
  let s := f32_mul (f32_mul x gain) f32_32767 in
  let s := if f32_lt f32_32767 s then f32_32767 else s in
  let s := if f32_lt s f32_m32768 then f32_m32768 else s in
  f32_to_int16 s.

(** The conversion loop over the [OPUS_FRAME_SIZE * NUM_CHANNELS] samples
    of the accumulator [pcm], giving [pcm16]. *)
Definition output_convert (drv : DriverState) (pcm : list float32) : option (list Z) :=
  let vol := outputVolume drv in
  let mute := outputMute drv in
  let gain := output_gain vol mute in
  mapM (fun x => output_convert_sample x gain)
       (take (Z.to_nat (OPUS_FRAME_SIZE * NUM_CHANNELS)) pcm).

(** ** The value of a float, and the conversion the specification states *)

Definition pow2Q (e : Z) : Q :=
  match e with
  | Z0 => 1%Q
  | Zpos p => inject_Z (2 ^ Zpos p)
  | Zneg p => (1 # (2 ^ p))%Q
  end.

(** The rational a finite float denotes. *)
Definition f32_to_Q (x : float32) : option Q :=
  match x with
  | S754_zero _ => Some 0%Q
  | S754_finite sg m e =>
      Some (inject_Z (if sg then Zneg m else Zpos m) * pow2Q e)%Q
  | S754_infinity _ | S754_nan => None
  end.

Definition clamp (lo hi v : Z) : Z := Z.max lo (Z.min hi v).

(** Rounding to the nearest integer (a half rounds upward). *)
Definition round_nearest (q : Q) : Z := Qfloor (q + (1 # 2))%Q.

(** Truncation toward zero. *)
Definition truncate (q : Q) : Z := Z.quot (Qnum q) (Zpos (Qden q)).

(** The sample as the specification words it:
    [clamp(round(x * g * 32767), -32768, 32767)], [g = mute ? 0 : gain],
    on exact values. *)
Definition codec_sample_spec (x gain : Q) (mute : bool) : Z :=
  let g := if mute then 0%Q else gain in
  clamp (-32768) 32767 (round_nearest (x * g * inject_Z 32767)%Q).

(** The sample as the code computes it, on the single-precision product
    [s]: the value of [s] truncated toward zero, then clamped; an infinite
    product clamps to the bound of its sign. *)
Definition truncated_sample (s : float32) : option Z :=
  match s with
  | S754_infinity sg => Some (if sg then -32768 else 32767)
  | S754_nan => None
  | _ => q ← f32_to_Q s; Some (clamp (-32768) 32767 (truncate q))
  end.

(** ** Utility: framed read (2-byte BE length prefix) *)

(** What a socket will deliver: chunks of bytes in the order of arrival,
    until the connection fails; the end of the list is the peer closing
    the stream. *)
Inductive fd_event : Type :=
  | Data (bs : list byte)
  | Failure.

Definition fd_state : Type := list fd_event.

(** [read(fd, buf, n)]: the number returned, the bytes stored and the
    state of the descriptor after the call. A read takes at most one
    chunk and at most [n] bytes of it; at the end of the stream it returns
    0, on a failure -1. *)
Definition sys_read (fd : fd_state) (n : Z) : Z * list byte * fd_state :=
  match fd with
  | [] => (0, [], [])
  | Failure :: fd' => (-1, [], fd')
  | Data bs :: fd' =>
      if n <? Z.of_nat (length bs)
      then (n, take (Z.to_nat n) bs, Data (drop (Z.to_nat n) bs) :: fd')
      else (Z.of_nat (length bs), bs, fd')
  end.

(** The loop [while (n < total) { r = read(fd, buf + n, total - n);
    if (r <= 0) return -1; n += r; }]. [buf] is the part of the buffer
    filled so far. The result is [inl] for the early return and [inr] with
    the filled buffer when the loop ends; [None] when [fuel] iterations
    were not enough. *)
Fixpoint read_loop (fuel : nat) (fd : fd_state) (buf : list byte) (n total : Z)
  : option ((unit + list byte) * fd_state) :=
  if n <? total then
    match fuel with
    | O => None
    | S fuel' =>
        let '(r, bs, fd') := sys_read fd (total - n) in
        if r <=? 0 then Some (inl tt, fd')
        else read_loop fuel' fd' (buf ++ bs) (n + r) total
    end
  else Some (inr buf, fd).

Definition byte_val (b : byte) : Z := Z.of_N (Byte.to_N b).

(** [framed_read fd bufsize]: [inl tt] is the return value -1, [inr (len,
    payload)] the return value 0 with [*out_len = len] and the first [len]
    bytes of [buf]. Every iteration of a loop reads at least one byte, so
    the number of bytes a loop asks for is enough fuel for it. *)
Definition framed_read (fd : fd_state) (bufsize : Z)
  : option ((unit + (Z * list byte)) * fd_state) :=
  '(r, fd) ← read_loop 2 fd [] 0 2;
  match r with
  | inl _ => Some (inl tt, fd)
  | inr hdr =>
      match hdr with
      | [h0; h1] =>
          let len := Z.lor (Z.shiftl (byte_val h0) 8) (byte_val h1) mod 2 ^ 16 in
          if (len =? 0) || (len >? bufsize) then Some (inl tt, fd)
          else
            '(r, fd) ← read_loop (Z.to_nat len) fd [] 0 len;
            match r with
            | inl _ => Some (inl tt, fd)
            | inr buf => Some (inr (len, buf), fd)
            end
      | _ => None
      end
  end.

(** The bytes a descriptor delivers before its first failure (an empty
    chunk is a read that returns 0, which the loops treat as a failure). *)
Fixpoint deliverable (fd : fd_state) : list byte :=
  match fd with
  | [] => []
  | Failure :: _ => []
  | Data [] :: _ => []
  | Data bs :: fd' => bs ++ deliverable fd'
  end.

(** The length a two-byte big-endian header announces. *)
Definition wire_length (h0 h1 : byte) : Z := 256 * byte_val h0 + byte_val h1.

(** ** Transport: input thread, one pass of the inner loop *)

Inductive loop_exit : Type := LoopNext | LoopBreak.

(** [(float)pcm16[i] / 32768.0f) * gain] *)
Definition input_convert_sample (s : Z) (gain : float32) : float32 :=
  f32_mul (f32_div (f32_of_Z s) f32_32768) gain.

(** One pass of the inner loop of [input_transport_thread]. The decoder is
    a parameter: from its state and a packet it gives its next state, the
    number of samples per channel (negative on error) and the contents of
    [pcm16]. A decoder that reported more than [OPUS_FRAME_SIZE] samples
    would make the conversion loop leave its arrays. *)
Definition input_transport_step {D : Type}
    (opus_decode : D -> list byte -> Z -> D * Z * list Z)
    (dec : D) (fd : fd_state) (drv : DriverState)
  : option (loop_exit * D * fd_state * DriverState) :=
  '(r, fd) ← framed_read fd OPUS_MAX_PACKET;
  match r with
  | inl _ => Some (LoopBreak, dec, fd, drv)
  | inr (pkt_len, opus_buf) =>
      let '(dec, nsamples, pcm16) := opus_decode dec opus_buf pkt_len in
      if nsamples <? 0 then Some (LoopNext, dec, fd, drv)
      else
        let vol := inputVolume drv in
        let mute := inputMute drv in
        let gain := if negb (mute =? 0) then f32_zero else vol in
        if OPUS_FRAME_SIZE <? nsamples then None
        else
          let pcm := map (fun s => input_convert_sample s gain)
                         (take (Z.to_nat (nsamples * NUM_CHANNELS)) pcm16) in
          '(rb', _) ← ring_write (inputRing drv) pcm (wrap64 nsamples);
          Some (LoopNext, dec, fd, set_inputRing drv rb')
  end.

(** ** Sample clock *)

(** [driver_GetZeroTimeStamp gDriver id now], where [now] is the value
    [mach_absolute_time()] returns during the call: the status and, on
    success, [*outSampleTime], [*outHostTime] and [*outSeed]. The result
    is [None] when a division by zero makes the behaviour undefined. *)
Definition zero_timestamp_elapsed_ns (drv : DriverState) (ticksAtZero now : Z) : Z :=
  let elapsed := u64_sub now ticksAtZero in
  u64_mul elapsed (timebase_numer drv) / timebase_denom drv.

Definition ns_per_period : Z :=
  u64_mul CLOCK_PERIOD_FRAMES 1000000000 / SAMPLE_RATE.

Definition driver_GetZeroTimeStamp (gDriver : option DriverState) (id : Z) (now : Z)
  : option (OSStatus * option (float64 * Z * Z)) :=
  match gDriver with
  | None => Some (kAudioHardwareUnspecifiedError, None)
  | Some drv =>
    let ticksAtZero :=
      if is_output_device id then outputHostTicksAtZero drv
      else inputHostTicksAtZero drv in
    if (timebase_denom drv =? 0) || (timebase_numer drv =? 0) then None
    else
      (* Convert ticks to nanoseconds *)
      let elapsed_ns := zero_timestamp_elapsed_ns drv ticksAtZero now in
      (* How many full clock periods have elapsed *)
      let periods := elapsed_ns / ns_per_period in
      (* The zero timestamp for the most recent period boundary *)
      let outSampleTime := f64_of_Z (u64_mul periods CLOCK_PERIOD_FRAMES) in
      let outHostTime :=
        u64_add ticksAtZero
          (u64_mul (u64_mul periods ns_per_period) (timebase_denom drv)
           / timebase_numer drv) in
      let outSeed := 1 in
      Some (kAudioHardwareNoError, Some (outSampleTime, outHostTime, outSeed))
  end.

(** The tick a device's clock counts from. *)
Definition clock_anchor (drv : DriverState) (id : Z) : Z :=
  if is_output_device id then outputHostTicksAtZero drv else inputHostTicksAtZero drv.

(** [driver_StartIO gDriver id now] *)
Definition driver_StartIO (gDriver : option DriverState) (id : Z) (now : Z)
  : OSStatus * option DriverState :=
  match gDriver with
  | None => (kAudioHardwareUnspecifiedError, None)
  | Some drv =>
    let drv :=
      if is_output_device id then
        mkDriver (outputRing drv) (inputRing drv) (outputVolume drv) (outputMute drv)
          (inputVolume drv) (inputMute drv) 1 (inputIORunning drv)
          now (inputHostTicksAtZero drv) 0
          (inputSampleTime drv) (running drv) (timebase_numer drv) (timebase_denom drv)
      else if is_input_device id then
        mkDriver (outputRing drv) (inputRing drv) (outputVolume drv) (outputMute drv)
          (inputVolume drv) (inputMute drv) (outputIORunning drv) 1
          (outputHostTicksAtZero drv) now (outputSampleTime drv)
          0 (running drv) (timebase_numer drv) (timebase_denom drv)
      else drv in
    (kAudioHardwareNoError, Some drv)
  end.

(** ** Histories of ring operations *)

(** A call of the producer or of the consumer, with the buffer the caller
    passes. *)
Inductive ring_op (A : Type) : Type :=
  | OpWrite (src : list A) (count : Z)
  | OpRead (dst : list A) (count : Z).
Arguments OpWrite {A} _ _.
Arguments OpRead {A} _ _.

(** The caller's side of the contract of an operation: a count that fits
    [uint64_t] and a buffer of at least [count] frames. *)
Definition op_ok {A : Type} (op : ring_op A) : Prop :=
  match op with
  | OpWrite buf count | OpRead buf count =>
      0 <= count < u64_modulus /\ count * NUM_CHANNELS <= Z.of_nat (length buf)
  end.

(** Runs a history from [rb]; [accepted] collects the frames the writes
    took (the first [written] frames of each source buffer), [delivered]
    the frames the reads returned (the first [got] frames of each
    destination buffer after the call), both in the order of the calls. *)
Fixpoint run_ops {A : Type} (rb : RingBuffer A) (ops : list (ring_op A))
    (accepted delivered : list A) : option (RingBuffer A * list A * list A) :=
  match ops with
  | [] => Some (rb, accepted, delivered)
  | OpWrite src count :: ops' =>
      '(rb', written) ← ring_write rb src count;
      run_ops rb' ops' (accepted ++ take (Z.to_nat (written * NUM_CHANNELS)) src) delivered
  | OpRead dst count :: ops' =>
      '(rb', dst', got) ← ring_read rb dst count;
      run_ops rb' ops' accepted (delivered ++ take (Z.to_nat (got * NUM_CHANNELS)) dst')
  end.

(** The bounded queue of the specification, run on the same history. The
    queue is the list of the samples it holds, oldest first. A write
    appends the first [min(count, free)] frames of its source, [free]
    being the capacity less the frames held; a read removes and returns
    the oldest [min(count, held)] frames. [accepted] and [delivered]
    collect them as [run_ops] does. Nothing here refers to [ring_write]
    or [ring_read]. *)
Fixpoint fifo_spec {A : Type} (q : list A) (ops : list (ring_op A))
    (accepted delivered : list A) : list A * list A * list A :=
  match ops with
  | [] => (q, accepted, delivered)
  | OpWrite src count :: ops' =>
      let held := Z.of_nat (length q) / NUM_CHANNELS in
      let taken := Z.min count (RING_CAPACITY - held) in
      let frames := take (Z.to_nat (taken * NUM_CHANNELS)) src in
      fifo_spec (q ++ frames) ops' (accepted ++ frames) delivered
  | OpRead _ count :: ops' =>
      let held := Z.of_nat (length q) / NUM_CHANNELS in
      let given := Z.min count held in
      let frames := take (Z.to_nat (given * NUM_CHANNELS)) q in
      fifo_spec (drop (Z.to_nat (given * NUM_CHANNELS)) q) ops'
        accepted (delivered ++ frames)
  end.

(** The frames the writes of a history offer: the first [count] frames of
    each source buffer, in the order of the calls. *)
Fixpoint offered {A : Type} (ops : list (ring_op A)) : list A :=
  match ops with
  | [] => []
  | OpWrite src count :: ops' => take (Z.to_nat (count * NUM_CHANNELS)) src ++ offered ops'
  | OpRead _ _ :: ops' => offered ops'
  end.

(** The invariant as the specification writes it, on the indices as
    integers. *)
Definition ring_inv {A : Type} (rb : RingBuffer A) : Prop :=
  tail rb <= head rb <= tail rb + RING_CAPACITY.

(** ** Utility: framed write (2-byte BE length prefix) *)

(** How a socket takes writes: each event bounds the bytes the next
    [write] call takes, or makes it fail; after the last event every
    write is taken whole. [wire] collects the bytes written. *)
Inductive wfd_event : Type :=
  | Accept (n : Z)
  | WFailure.

Record wfd_state : Type := mkWfd {
  pending : list wfd_event;
  wire : list byte
}.

(** [write(fd, bs, count)] for the [count] bytes [bs]: the number returned
    and the state of the descriptor after the call. *)
Definition sys_write (fd : wfd_state) (bs : list byte) : Z * wfd_state :=
  match pending fd with
  | [] => (Z.of_nat (length bs), mkWfd [] (wire fd ++ bs))
  | WFailure :: p => (-1, mkWfd p (wire fd))
  | Accept n :: p =>
      let w := Z.max 0 (Z.min n (Z.of_nat (length bs))) in
      (w, mkWfd p (wire fd ++ take (Z.to_nat w) bs))
  end.

(** The loop [while (n < total) { w = write(fd, data + n, total - n);
    if (w <= 0) return -1; n += w; }]; [inl] is the early return. *)
Fixpoint write_loop (fuel : nat) (fd : wfd_state) (data : list byte) (n total : Z)
  : option ((unit + unit) * wfd_state) :=
  if n <? total then
    match fuel with
    | O => None
    | S fuel' =>
        let '(w, fd') :=
          sys_write fd (take (Z.to_nat (total - n)) (drop (Z.to_nat n) data)) in
        if w <=? 0 then Some (inl tt, fd')
        else write_loop fuel' fd' data (n + w) total
    end
  else Some (inr tt, fd).

(** [(unsigned char)z] *)
Definition byte_of_Z (z : Z) : byte :=
  match Byte.of_N (Z.to_N (z mod 256)) with
  | Some b => b
  | None => "000"%byte
  end.

(** [framed_write fd data len] for a [uint16_t len]: [inl tt] is the
    return value -1, [inr tt] the return value 0. Reading [len] bytes
    from a shorter [data] is undefined. *)
Definition framed_write (fd : wfd_state) (data : list byte) (len : Z)
  : option ((unit + unit) * wfd_state) :=
  let hdr := [byte_of_Z (Z.shiftr len 8); byte_of_Z (Z.land len 255)] in
  (* Write header *)
  '(r, fd) ← write_loop 2 fd hdr 0 2;
  match r with
  | inl _ => Some (inl tt, fd)
  | inr _ =>
      (* Write payload *)
      if Z.of_nat (length data) <? len then None
      else write_loop (Z.to_nat len) fd data 0 len
  end.

(** The bytes of a wire frame. *)
Definition frame_bytes (data : list byte) (len : Z) : list byte :=
  [byte_of_Z (Z.shiftr len 8); byte_of_Z (Z.land len 255)]
  ++ take (Z.to_nat len) data.

(** ** Transport: output thread, one pass of the inner loop *)

(** The locals of [output_transport_thread] that live across passes: the
    accumulation buffer [pcm] and the number [acc] of frames in it. *)
Record output_locals : Type := mkOut {
  out_pcm : list float32;   (* float pcm[OPUS_FRAME_SIZE * NUM_CHANNELS] *)
  out_acc : Z
}.

Inductive output_exit : Type :=
  | OutSleep          (* not enough data yet: usleep, continue *)
  | OutEncodeError    (* opus_encode failed: acc = 0, continue *)
  | OutSent           (* packet written: acc = 0 *)
  | OutBreak.         (* write failed: break, to reconnect *)

(** One pass of the inner loop of [output_transport_thread]. The encoder
    is a parameter: from its state and the 16-bit samples it gives its
    next state, the number of bytes (negative on error) and the contents
    of [opus_buf]. *)
Definition output_transport_step {E : Type}
    (opus_encode : E -> list Z -> E * Z * list byte)
    (enc : E) (fd : wfd_state) (loc : output_locals) (drv : DriverState)
  : option (output_exit * E * wfd_state * output_locals * DriverState) :=
  let pcm := out_pcm loc in
  let acc := out_acc loc in
  (* Drain ring buffer into accumulation buffer *)
  let need := u64_sub OPUS_FRAME_SIZE acc in
  let off := Z.to_nat (u64_mul acc NUM_CHANNELS) in
  if Z.of_nat (length pcm) <? u64_mul acc NUM_CHANNELS then None
  else
    '(rb', dst', got) ← ring_read (outputRing drv) (drop off pcm) need;
    let pcm := take off pcm ++ dst' in
    let acc := u64_add acc got in
    let drv := set_outputRing drv rb' in
    if acc <? OPUS_FRAME_SIZE then
      Some (OutSleep, enc, fd, mkOut pcm acc, drv)
    else
      pcm16 ← output_convert drv pcm;
      let '(enc, nbytes, opus_buf) := opus_encode enc pcm16 in
      if nbytes <? 0 then
        Some (OutEncodeError, enc, fd, mkOut pcm 0, drv)
      else
        '(r, fd) ← framed_write fd opus_buf (nbytes mod 2 ^ 16);
        match r with
        | inl _ => Some (OutBreak, enc, fd, mkOut pcm acc, drv)
        | inr _ => Some (OutSent, enc, fd, mkOut pcm 0, drv)
        end.

(** ** IO state *)

Definition driver_StopIO (gDriver : option DriverState) (id : Z)
  : OSStatus * option DriverState :=
  match gDriver with
  | None => (kAudioHardwareUnspecifiedError, None)
  | Some drv =>
    let drv :=
      if is_output_device id then
        mkDriver (outputRing drv) (inputRing drv) (outputVolume drv) (outputMute drv)
          (inputVolume drv) (inputMute drv) 0 (inputIORunning drv)
          (outputHostTicksAtZero drv) (inputHostTicksAtZero drv) (outputSampleTime drv)
          (inputSampleTime drv) (running drv) (timebase_numer drv) (timebase_denom drv)
      else if is_input_device id then
        mkDriver (outputRing drv) (inputRing drv) (outputVolume drv) (outputMute drv)
          (inputVolume drv) (inputMute drv) (outputIORunning drv) 0
          (outputHostTicksAtZero drv) (inputHostTicksAtZero drv) (outputSampleTime drv)
          (inputSampleTime drv) (running drv) (timebase_numer drv) (timebase_denom drv)
      else drv in
    (kAudioHardwareNoError, Some drv)
  end.

(** ** Property tables *)

Definition is_stream (id : Z) : bool :=
  (id =? kObjectID_OutputStream) || (id =? kObjectID_InputStream).

(** [driver_IsPropertySettable]: the status and [*out]. *)
Definition driver_IsPropertySettable (id : Z) (mSelector : AudioObjectPropertySelector)
  : OSStatus * bool :=
  let out := false in
  let out :=
    if is_volume id then
      match mSelector with
      | LevelProperty kAudioLevelControlPropertyScalarValue
      | LevelProperty kAudioLevelControlPropertyDecibelValue => true
      | _ => out
      end
    else out in
  (kAudioHardwareNoError, out).

(** ** Reference counting

    [driver_AddRef] and [driver_Release] touch only the [UInt32 refCount]
    of the driver state; they are modelled on that field, [None] standing
    for a NULL [gDriver]. The result is the value returned and the field
    after the call. *)

Definition driver_AddRef (refCount : option Z) : Z * option Z :=
  match refCount with
  | Some rc => let rc := (rc + 1) mod 2 ^ 32 in (rc, Some rc)
  | None => (1, None)
  end.

Definition driver_Release (refCount : option Z) : Z * option Z :=
  match refCount with
  | Some rc =>
      if rc >? 0 then let rc := (rc - 1) mod 2 ^ 32 in (rc, Some rc)
      else (0, Some rc)
  | None => (0, None)
  end.

(** ** Checking a predicate on a range of integers *)

(** [all_from n lo P]: [P] holds of the [n] integers from [lo] on. *)
Fixpoint all_from (n : nat) (lo : Z) (P : Z -> bool) : bool :=
  match n with
  | O => true
  | S n' => P lo && all_from n' (lo + 1) P
  end.

(** The check made on each 16-bit sample [z]: its conversion by the
    input thread at unity gain is a well-formed float of value
    [z / 32768], its conversion at zero gain is a zero, and converting
    the former back as the output thread does, at unity gain, gives
    [z - sgn z]. *)
Definition int16_conversions_check (z : Z) : bool :=
  let x := input_convert_sample z f32_one in
  f32_valid x
  && match f32_to_Q x with
     | Some q => Qeq_bool q (z # 32768)
     | None => false
     end
  && match input_convert_sample z f32_zero with
     | S754_zero _ => true
     | _ => false
     end
  && match output_convert_sample x f32_one with
     | Some r => r =? z - Z.sgn z
     | None => false
     end.

(** A float that is a number: a zero or a finite value. *)
Definition f32_is_finite (x : float32) : bool :=
  match x with
  | S754_zero _ | S754_finite _ _ _ => true
  | S754_infinity _ | S754_nan => false
  end.

(** ** The output thread between passes *)

(** The accumulation buffer after the drain of a pass: the [acc] frames
    it held, then the frames taken from the front of the ring, then what
    was there before. *)
Definition drained_pcm (loc : output_locals) (drv : DriverState) : list float32 :=
  let got := Z.min (OPUS_FRAME_SIZE - out_acc loc) (ring_available (outputRing drv)) in
  take (Z.to_nat (out_acc loc * NUM_CHANNELS)) (out_pcm loc)
  ++ take (Z.to_nat (got * NUM_CHANNELS)) (contents (outputRing drv))
  ++ drop (Z.to_nat ((out_acc loc + got) * NUM_CHANNELS)) (out_pcm loc).

(** The state a pass of the output thread starts from: a well-formed
    ring, the accumulation buffer of [OPUS_FRAME_SIZE] frames holding
    [acc] of them, and finite audio and volume. *)
Definition output_pass_ready (loc : output_locals) (drv : DriverState) : Prop :=
  ring_wf (outputRing drv)
  /\ Z.of_nat (length (out_pcm loc)) = OPUS_FRAME_SIZE * NUM_CHANNELS
  /\ 0 <= out_acc loc <= OPUS_FRAME_SIZE
  /\ f32_valid (outputVolume drv) = true /\ f32_is_finite (outputVolume drv) = true
  /\ Forall (fun x => f32_valid x = true /\ f32_is_finite x = true) (out_pcm loc)
  /\ Forall (fun x => f32_valid x = true /\ f32_is_finite x = true)
            (samples (outputRing drv)).

(** ** Example inputs *)

(** A driver state as [driver_Initialize] leaves it, on a machine whose
    timebase is 125/3 (a 24 MHz tick). *)
Definition initialized_driver : DriverState :=
  {| outputRing := ring_init f32_zero;
     inputRing := ring_init f32_zero;
     outputVolume := f32_one;
     outputMute := 0;
     inputVolume := f32_one;
     inputMute := 0;
     outputIORunning := 0;
     inputIORunning := 0;
     outputHostTicksAtZero := 0;
     inputHostTicksAtZero := 0;
     outputSampleTime := 0;
     inputSampleTime := 0;
     running := 1;
     timebase_numer := 125;
     timebase_denom := 3 |}.

(** That driver after [driver_StartIO] on the output device at tick 1000. *)
Definition started_driver : DriverState :=
  mkDriver (ring_init f32_zero) (ring_init f32_zero) f32_one 0 f32_one 0
    1 0 1000 0 0 0 1 125 3.

(** 0.25f, 0.5f and 1.5f *)
Definition f32_quarter : float32 := Eval cbv in binary_normalize f32_prec f32_emax 1 (-2) false.
Definition f32_half : float32 := Eval cbv in binary_normalize f32_prec f32_emax 1 (-1) false.
Definition f32_1_5 : float32 := Eval cbv in binary_normalize f32_prec f32_emax 3 (-1) false.

(** A ring whose indices are one step from the end of the 64-bit range. *)
Definition ring_at_wrap : RingBuffer bool :=
  {| samples := replicate (Z.to_nat (RING_CAPACITY * NUM_CHANNELS)) false;
     head := u64_modulus - 1;
     tail := u64_modulus - 1 |}.

(** A driver whose output ring holds 960 frames of the sample 0.25, and
    the accumulation buffer of the output thread when it starts. *)
Definition driver_with_audio : DriverState :=
  set_outputRing initialized_driver
    {| samples := replicate (Z.to_nat (RING_CAPACITY * NUM_CHANNELS)) f32_quarter;
       head := 960;
       tail := 0 |}.

Definition empty_accumulator : output_locals :=
  mkOut (replicate (Z.to_nat (OPUS_FRAME_SIZE * NUM_CHANNELS)) f32_zero) 0.

(** * Properties *)

Ltac zmod := Z.div_mod_to_equations; lia.

Section MemoryCopies.
Context {A : Type}.
Implicit Types dst src r : list A.

Lemma memcpy_Some dst doff src soff nbytes :
  doff + nbytes / sizeof_float <= Z.of_nat (length dst) ->
  soff + nbytes / sizeof_float <= Z.of_nat (length src) ->
  exists r, memcpy dst doff src soff nbytes = Some r.
Proof.
  intros Hd Hs. unfold memcpy.
  destruct (Z.leb_spec (doff + nbytes / sizeof_float) (Z.of_nat (length dst))); [|lia].
  destruct (Z.leb_spec (soff + nbytes / sizeof_float) (Z.of_nat (length src))); [|lia].
  simpl. eauto.
Qed.

Lemma memcpy_inv dst doff src soff nbytes r :
  memcpy dst doff src soff nbytes = Some r ->
  doff + nbytes / sizeof_float <= Z.of_nat (length dst)
  /\ soff + nbytes / sizeof_float <= Z.of_nat (length src)
  /\ r = take (Z.to_nat doff) dst
         ++ take (Z.to_nat (nbytes / sizeof_float)) (drop (Z.to_nat soff) src)
         ++ drop (Z.to_nat (doff + nbytes / sizeof_float)) dst.
Proof.
  unfold memcpy. intros H.
  destruct (Z.leb_spec (doff + nbytes / sizeof_float) (Z.of_nat (length dst)));
    simpl in H; [|discriminate].
  destruct (Z.leb_spec (soff + nbytes / sizeof_float) (Z.of_nat (length src)));
    simpl in H; [|discriminate].
  inversion H. auto.
Qed.

Lemma memcpy_length dst doff src soff nbytes r :
  0 <= doff -> 0 <= soff -> 0 <= nbytes ->
  memcpy dst doff src soff nbytes = Some r -> length r = length dst.
Proof.
  intros Hd Hs Hn H. apply memcpy_inv in H. destruct H as (H1 & H2 & ->).
  assert (0 <= nbytes / sizeof_float) by (unfold sizeof_float; zmod).
  rewrite !length_app, !length_take, !length_drop. lia.
Qed.

Lemma memcpy_lookup dst doff src soff nbytes r (p : nat) :
  0 <= doff -> 0 <= soff -> 0 <= nbytes ->
  memcpy dst doff src soff nbytes = Some r ->
  r !! p = if decide (doff <= Z.of_nat p < doff + nbytes / sizeof_float)
           then src !! Z.to_nat (soff + Z.of_nat p - doff)
           else dst !! p.
Proof.
  intros Hd Hs Hn H. apply memcpy_inv in H. destruct H as (H1 & H2 & ->).
  assert (0 <= nbytes / sizeof_float) by (unfold sizeof_float; zmod).
  set (n := nbytes / sizeof_float) in *.
  destruct (decide (doff <= Z.of_nat p < doff + n)) as [Hin|Hout].
  - rewrite lookup_app_r by (rewrite length_take; lia).
    rewrite length_take, lookup_app_l
      by (rewrite length_take, length_drop; lia).
    rewrite lookup_take_lt by lia. rewrite lookup_drop. f_equal. lia.
  - destruct (decide (Z.of_nat p < doff)).
    + rewrite lookup_app_l by (rewrite length_take; lia).
      rewrite lookup_take_lt by lia. reflexivity.
    + rewrite lookup_app_r by (rewrite length_take; lia).
      rewrite lookup_app_r by (rewrite !length_take, length_drop; lia).
      rewrite lookup_drop, !length_take, length_drop. f_equal. lia.
Qed.

Lemma memset0_lookup (zero : A) dst doff nbytes r (p : nat) :
  0 <= doff -> 0 <= nbytes ->
  memset0 zero dst doff nbytes = Some r ->
  length r = length dst
  /\ r !! p = if decide (doff <= Z.of_nat p < doff + nbytes / sizeof_float)
              then Some zero else dst !! p.
Proof.
  intros Hd Hn. unfold memset0.
  assert (0 <= nbytes / sizeof_float) by (unfold sizeof_float; zmod).
  set (n := nbytes / sizeof_float) in *.
  destruct (Z.leb_spec (doff + n) (Z.of_nat (length dst))); [|discriminate].
  intros [= <-]. split.
  - rewrite !length_app, length_take, length_replicate, length_drop. lia.
  - destruct (decide (doff <= Z.of_nat p < doff + n)) as [Hin|Hout].
    + rewrite lookup_app_r by (rewrite length_take; lia).
      rewrite length_take, lookup_app_l by (rewrite length_replicate; lia).
      apply lookup_replicate_2. lia.
    + destruct (decide (Z.of_nat p < doff)).
      * rewrite lookup_app_l by (rewrite length_take; lia).
        rewrite lookup_take_lt by lia. reflexivity.
      * rewrite lookup_app_r by (rewrite length_take; lia).
        rewrite lookup_app_r by (rewrite length_take, length_replicate; lia).
        rewrite lookup_drop, length_take, length_replicate. f_equal. lia.
Qed.
End MemoryCopies.

Lemma Zmod_witness (a b : Z) :
  0 < b -> exists c, a = b * c + a mod b /\ 0 <= a mod b < b.
Proof.
  intros Hb. exists (a / b). split; [apply Z.div_mod; lia | apply Z.mod_pos_bound; lia].
Qed.

(** Case analysis on where a storage position lies relative to the slots
    an operation touches: the position [p] is related to the frame index
    [h] through the quotient and remainder of [p - 2 h] by the storage
    size, after which the goals are linear. *)
Ltac ring_slot_cases h idx p :=
  let q := fresh "q" in
  let c := fresh "c" in
  let c' := fresh "c" in
  let Hq := fresh "Hq" in
  let Hc := fresh "Hc" in
  let Hi := fresh "Hi" in
  let Hj := fresh "Hj" in
  destruct (Zmod_witness h 8192 ltac:(lia)) as (c' & Hi & Hj);
  change (h mod 8192) with idx in Hi, Hj;
  destruct (Zmod_witness (Z.of_nat p - h * 2) (8192 * 2) ltac:(lia)) as (c & Hq & Hc);
  set (q := (Z.of_nat p - h * 2) mod (8192 * 2)) in *;
  clearbody q idx;
  repeat destruct (decide _); try reflexivity; try (f_equal; lia);
  try (exfalso; lia).

(** The same for a position [p] counted from the frame index [t]. *)
Ltac ring_index_cases t idx p :=
  let q := fresh "q" in
  let c := fresh "c" in
  let c' := fresh "c" in
  let Hq := fresh "Hq" in
  let Hc := fresh "Hc" in
  let Hi := fresh "Hi" in
  let Hj := fresh "Hj" in
  destruct (Zmod_witness t 8192 ltac:(lia)) as (c' & Hi & Hj);
  change (t mod 8192) with idx in Hi, Hj;
  destruct (Zmod_witness (t * 2 + Z.of_nat p) (8192 * 2) ltac:(lia)) as (c & Hq & Hc);
  set (q := (t * 2 + Z.of_nat p) mod (8192 * 2)) in *;
  clearbody q idx;
  repeat destruct (decide _); try reflexivity; try (f_equal; lia);
  try (exfalso; lia).

Section RingOperations.
Context {A : Type}.
Implicit Types (rb : RingBuffer A) (src dst : list A).

Lemma ring_wf_init (zero : A) : ring_wf (ring_init zero).
Proof.
  unfold ring_wf, ring_init; cbn [samples head tail].
  rewrite length_replicate, Z2Nat.id by (unfold RING_CAPACITY, NUM_CHANNELS; lia).
  unfold u64_sub, wrap64, u64_modulus, RING_CAPACITY.
  repeat split; try lia. rewrite Z.mod_0_l; lia.
Qed.

Lemma ring_available_range rb :
  ring_wf rb -> 0 <= ring_available rb <= RING_CAPACITY.
Proof.
  intros (_ & _ & _ & Hc). unfold ring_available.
  split; [|exact Hc]. unfold u64_sub, wrap64, u64_modulus. zmod.
Qed.

(** What [ring_write] does to the ring: it accepts [w = min k free]
    frames, stores them in the [w] frame slots that start at
    [head mod RING_CAPACITY] (wrapping), and advances [head] by [w]. *)
Lemma ring_write_spec rb src k :
  ring_wf rb -> 0 <= k < u64_modulus ->
  Z.min k (RING_CAPACITY - ring_available rb) * NUM_CHANNELS <= Z.of_nat (length src) ->
  exists s',
    ring_write rb src k
    = Some (mkRing s' (u64_add (head rb) (Z.min k (RING_CAPACITY - ring_available rb)))
                   (tail rb),
            Z.min k (RING_CAPACITY - ring_available rb))
    /\ length s' = length (samples rb)
    /\ forall p : nat,
        s' !! p =
        if decide (Z.of_nat p < RING_CAPACITY * NUM_CHANNELS
                   /\ (Z.of_nat p - head rb * NUM_CHANNELS) mod (RING_CAPACITY * NUM_CHANNELS)
                      < Z.min k (RING_CAPACITY - ring_available rb) * NUM_CHANNELS)
        then src !! Z.to_nat ((Z.of_nat p - head rb * NUM_CHANNELS)
                              mod (RING_CAPACITY * NUM_CHANNELS))
        else samples rb !! p.
Proof.
  intros Hwf Hk Hsrc. pose proof (ring_available_range rb Hwf) as Hav.
  destruct Hwf as (Hlen & Hh & Ht & Hc).
  destruct rb as [S h t]; unfold ring_available in *; simpl in *.
  unfold ring_write; simpl.
  set (avail := u64_sub h t) in *.
  assert (Hfree : u64_sub RING_CAPACITY avail = RING_CAPACITY - avail).
  { unfold u64_sub, wrap64, u64_modulus, RING_CAPACITY in *. apply Z.mod_small. lia. }
  rewrite Hfree.
  set (w := Z.min k (RING_CAPACITY - avail)) in *.
  assert (Hw : (if k >? RING_CAPACITY - avail then RING_CAPACITY - avail else k) = w).
  { unfold w. destruct (Z.gtb_spec k (RING_CAPACITY - avail)); lia. }
  rewrite Hw.
  destruct (Z.eqb_spec w 0) as [Hw0|Hw0].
  { exists S. rewrite Hw0. unfold u64_add, wrap64. rewrite Z.add_0_r, Z.mod_small by lia.
    split; [reflexivity|]. split; [reflexivity|].
    intros p. destruct (decide _) as [[_ Hlt]|]; [|reflexivity].
    exfalso. unfold RING_CAPACITY, NUM_CHANNELS in Hlt. zmod. }
  assert (Hwr : 0 < w <= RING_CAPACITY) by lia.
  set (idx := h mod RING_CAPACITY).
  assert (Hidx : 0 <= idx < RING_CAPACITY) by (unfold idx, RING_CAPACITY; zmod).
  assert (Hf1 : u64_sub RING_CAPACITY idx = RING_CAPACITY - idx).
  { unfold u64_sub, wrap64, u64_modulus, RING_CAPACITY in *. apply Z.mod_small. lia. }
  rewrite Hf1.
  set (first := if RING_CAPACITY - idx >? w then w else RING_CAPACITY - idx).
  assert (Hfirst : first = Z.min w (RING_CAPACITY - idx)).
  { unfold first. destruct (Z.gtb_spec (RING_CAPACITY - idx) w); lia. }
  assert (Hm1 : u64_mul idx NUM_CHANNELS = idx * 2).
  { unfold u64_mul, wrap64, u64_modulus, NUM_CHANNELS, RING_CAPACITY in *.
    apply Z.mod_small. lia. }
  assert (Hm2 : u64_mul first BYTES_PER_FRAME = first * 2 * 4).
  { unfold u64_mul, wrap64, u64_modulus, BYTES_PER_FRAME, NUM_CHANNELS, BITS_PER_CHANNEL,
      RING_CAPACITY in *. change (32 / 8) with 4. rewrite Z.mod_small; lia. }
  assert (Hm3 : u64_mul first NUM_CHANNELS = first * 2).
  { unfold u64_mul, wrap64, u64_modulus, NUM_CHANNELS, RING_CAPACITY in *.
    apply Z.mod_small. lia. }
  assert (Hm4 : u64_mul (u64_sub w first) BYTES_PER_FRAME = (w - first) * 2 * 4).
  { unfold u64_mul, u64_sub, wrap64, u64_modulus, BYTES_PER_FRAME, NUM_CHANNELS,
      BITS_PER_CHANNEL, RING_CAPACITY in *. change (32 / 8) with 4.
    rewrite (Z.mod_small (w - first)) by lia. rewrite Z.mod_small; lia. }
  rewrite Hm1, Hm2, Hm3, Hm4.
  assert (Hd1 : first * 2 * 4 / sizeof_float = first * 2)
    by (unfold sizeof_float; zmod).
  assert (Hd2 : (w - first) * 2 * 4 / sizeof_float = (w - first) * 2)
    by (unfold sizeof_float; zmod).
  unfold RING_CAPACITY, NUM_CHANNELS in Hlen, Hsrc, Hidx, Hfirst, Hwr.
  destruct (memcpy_Some S (idx * 2) src 0 (first * 2 * 4)) as [s1 Hs1];
    [rewrite Hd1; lia | rewrite Hd1; lia |].
  rewrite Hs1; simpl.
  pose proof (memcpy_length S (idx * 2) src 0 (first * 2 * 4) s1
                ltac:(lia) ltac:(lia) ltac:(lia) Hs1) as Hl1.
  pose proof (fun p => memcpy_lookup S (idx * 2) src 0 (first * 2 * 4) s1 p
                ltac:(lia) ltac:(lia) ltac:(lia) Hs1) as Hlk1.
  rewrite Hd1 in Hlk1.
  destruct (Z.gtb_spec w first) as [Hgt|Hle].
  - destruct (memcpy_Some s1 0 src (first * 2) ((w - first) * 2 * 4)) as [s2 Hs2];
      [rewrite Hd2; lia | rewrite Hd2; lia |].
    rewrite Hs2; simpl.
    pose proof (memcpy_length s1 0 src (first * 2) ((w - first) * 2 * 4) s2
                  ltac:(lia) ltac:(lia) ltac:(lia) Hs2) as Hl2.
    pose proof (fun p => memcpy_lookup s1 0 src (first * 2) ((w - first) * 2 * 4) s2 p
                  ltac:(lia) ltac:(lia) ltac:(lia) Hs2) as Hlk2.
    rewrite Hd2 in Hlk2.
    exists s2. split; [reflexivity|]. split; [congruence|].
    intros p. rewrite Hlk2, Hlk1. unfold RING_CAPACITY, NUM_CHANNELS.
    ring_slot_cases h idx p.
  - exists s1. split; [reflexivity|]. split; [congruence|].
    intros p. rewrite Hlk1. unfold RING_CAPACITY, NUM_CHANNELS.
    ring_slot_cases h idx p.
Qed.

(** What [ring_read] does: it delivers [g = min k available] frames, the
    ones stored from [tail mod RING_CAPACITY] on (wrapping), into the
    first [g] frames of [dst], and advances [tail] by [g]. *)
Lemma ring_read_spec rb dst k :
  ring_wf rb -> 0 <= k < u64_modulus ->
  Z.min k (ring_available rb) * NUM_CHANNELS <= Z.of_nat (length dst) ->
  exists d',
    ring_read rb dst k
    = Some (mkRing (samples rb) (head rb)
                   (u64_add (tail rb) (Z.min k (ring_available rb))),
            d', Z.min k (ring_available rb))
    /\ length d' = length dst
    /\ forall p : nat,
        d' !! p =
        if decide (Z.of_nat p < Z.min k (ring_available rb) * NUM_CHANNELS)
        then samples rb !! Z.to_nat ((tail rb * NUM_CHANNELS + Z.of_nat p)
                                     mod (RING_CAPACITY * NUM_CHANNELS))
        else dst !! p.
Proof.
  intros Hwf Hk Hdst. pose proof (ring_available_range rb Hwf) as Hav.
  destruct Hwf as (Hlen & Hh & Ht & Hc).
  destruct rb as [S h t]; unfold ring_available in *; simpl in *.
  unfold ring_read; simpl.
  set (avail := u64_sub h t) in *.
  set (g := Z.min k avail) in *.
  assert (Hg : (if k >? avail then avail else k) = g).
  { unfold g. destruct (Z.gtb_spec k avail); lia. }
  rewrite Hg.
  destruct (Z.eqb_spec g 0) as [Hg0|Hg0].
  { exists dst. rewrite Hg0. unfold u64_add, wrap64. rewrite Z.add_0_r, Z.mod_small by lia.
    split; [reflexivity|]. split; [reflexivity|].
    intros p. destruct (decide _) as [Hlt|]; [|reflexivity].
    exfalso. unfold NUM_CHANNELS in Hlt. lia. }
  assert (Hgr : 0 < g <= RING_CAPACITY) by lia.
  set (idx := t mod RING_CAPACITY).
  assert (Hidx : 0 <= idx < RING_CAPACITY) by (unfold idx, RING_CAPACITY; zmod).
  assert (Hf1 : u64_sub RING_CAPACITY idx = RING_CAPACITY - idx).
  { unfold u64_sub, wrap64, u64_modulus, RING_CAPACITY in *. apply Z.mod_small. lia. }
  rewrite Hf1.
  set (first := if RING_CAPACITY - idx >? g then g else RING_CAPACITY - idx).
  assert (Hfirst : first = Z.min g (RING_CAPACITY - idx)).
  { unfold first. destruct (Z.gtb_spec (RING_CAPACITY - idx) g); lia. }
  assert (Hm1 : u64_mul idx NUM_CHANNELS = idx * 2).
  { unfold u64_mul, wrap64, u64_modulus, NUM_CHANNELS, RING_CAPACITY in *.
    apply Z.mod_small. lia. }
  assert (Hm2 : u64_mul first BYTES_PER_FRAME = first * 2 * 4).
  { unfold u64_mul, wrap64, u64_modulus, BYTES_PER_FRAME, NUM_CHANNELS, BITS_PER_CHANNEL,
      RING_CAPACITY in *. change (32 / 8) with 4. rewrite Z.mod_small; lia. }
  assert (Hm3 : u64_mul first NUM_CHANNELS = first * 2).
  { unfold u64_mul, wrap64, u64_modulus, NUM_CHANNELS, RING_CAPACITY in *.
    apply Z.mod_small. lia. }
  assert (Hm4 : u64_mul (u64_sub g first) BYTES_PER_FRAME = (g - first) * 2 * 4).
  { unfold u64_mul, u64_sub, wrap64, u64_modulus, BYTES_PER_FRAME, NUM_CHANNELS,
      BITS_PER_CHANNEL, RING_CAPACITY in *. change (32 / 8) with 4.
    rewrite (Z.mod_small (g - first)) by lia. rewrite Z.mod_small; lia. }
  rewrite Hm1, Hm2, Hm3, Hm4.
  assert (Hd1 : first * 2 * 4 / sizeof_float = first * 2)
    by (unfold sizeof_float; zmod).
  assert (Hd2 : (g - first) * 2 * 4 / sizeof_float = (g - first) * 2)
    by (unfold sizeof_float; zmod).
  unfold RING_CAPACITY, NUM_CHANNELS in Hlen, Hdst, Hidx, Hfirst, Hgr.
  destruct (memcpy_Some dst 0 S (idx * 2) (first * 2 * 4)) as [d1 Hd1'];
    [rewrite Hd1; lia | rewrite Hd1; lia |].
  rewrite Hd1'; simpl.
  pose proof (memcpy_length dst 0 S (idx * 2) (first * 2 * 4) d1
                ltac:(lia) ltac:(lia) ltac:(lia) Hd1') as Hl1.
  pose proof (fun p => memcpy_lookup dst 0 S (idx * 2) (first * 2 * 4) d1 p
                ltac:(lia) ltac:(lia) ltac:(lia) Hd1') as Hlk1.
  rewrite Hd1 in Hlk1.
  destruct (Z.gtb_spec g first) as [Hgt|Hle].
  - destruct (memcpy_Some d1 (first * 2) S 0 ((g - first) * 2 * 4)) as [d2 Hd2'];
      [rewrite Hd2; lia | rewrite Hd2; lia |].
    rewrite Hd2'; simpl.
    pose proof (memcpy_length d1 (first * 2) S 0 ((g - first) * 2 * 4) d2
                  ltac:(lia) ltac:(lia) ltac:(lia) Hd2') as Hl2.
    pose proof (fun p => memcpy_lookup d1 (first * 2) S 0 ((g - first) * 2 * 4) d2 p
                  ltac:(lia) ltac:(lia) ltac:(lia) Hd2') as Hlk2.
    rewrite Hd2 in Hlk2.
    exists d2. split; [reflexivity|]. split; [congruence|].
    intros p. rewrite Hlk2, Hlk1. unfold RING_CAPACITY, NUM_CHANNELS.
    ring_index_cases t idx p.
  - exists d1. split; [reflexivity|]. split; [congruence|].
    intros p. rewrite Hlk1. unfold RING_CAPACITY, NUM_CHANNELS.
    ring_index_cases t idx p.
Qed.

Lemma contents_length rb :
  ring_wf rb ->
  Z.of_nat (length (contents rb)) = ring_available rb * NUM_CHANNELS.
Proof.
  intros Hwf. pose proof (ring_available_range rb Hwf) as Hav.
  destruct Hwf as (Hlen & _). unfold contents.
  rewrite length_take, length_app, length_drop, length_take.
  unfold RING_CAPACITY, NUM_CHANNELS in *. lia.
Qed.

Lemma contents_lookup rb (j : nat) :
  ring_wf rb ->
  contents rb !! j =
  if decide (Z.of_nat j < ring_available rb * NUM_CHANNELS)
  then samples rb !! Z.to_nat ((tail rb * NUM_CHANNELS + Z.of_nat j)
                               mod (RING_CAPACITY * NUM_CHANNELS))
  else None.
Proof.
  intros Hwf. pose proof (ring_available_range rb Hwf) as Hav.
  destruct Hwf as (Hlen & _ & Ht & _). unfold contents.
  set (avail := ring_available rb) in *. clearbody avail.
  destruct rb as [S h t]; simpl in *.
  unfold RING_CAPACITY, NUM_CHANNELS in *.
  destruct (Zmod_witness t 8192 ltac:(lia)) as (c' & Hi & Hj).
  destruct (Zmod_witness (t * 2 + Z.of_nat j) (8192 * 2) ltac:(lia)) as (c & Hq & Hc).
  set (idx := t mod 8192) in *.
  set (q := (t * 2 + Z.of_nat j) mod (8192 * 2)) in *.
  clearbody q idx.
  destruct (decide (Z.of_nat j < avail * 2)) as [Hlt|Hge].
  - rewrite lookup_take_lt by lia.
    destruct (decide (Z.of_nat j < 8192 * 2 - idx * 2)).
    + rewrite lookup_app_l by (rewrite length_drop; lia).
      rewrite lookup_drop. f_equal. lia.
    + rewrite lookup_app_r by (rewrite length_drop; lia).
      rewrite length_drop, lookup_take_lt by lia. f_equal. lia.
  - apply lookup_take_ge. lia.
Qed.

(** A write appends the accepted frames to the queue the ring holds. *)
Lemma ring_write_contents rb src k rb' w :
  ring_wf rb -> 0 <= k < u64_modulus ->
  k * NUM_CHANNELS <= Z.of_nat (length src) ->
  ring_write rb src k = Some (rb', w) ->
  ring_wf rb'
  /\ w = Z.min k (RING_CAPACITY - ring_available rb)
  /\ ring_available rb' = ring_available rb + w
  /\ contents rb' = contents rb ++ take (Z.to_nat (w * NUM_CHANNELS)) src.
Proof.
  intros Hwf Hk Hsrc Hrw. pose proof (ring_available_range rb Hwf) as Hav.
  destruct (ring_write_spec rb src k Hwf Hk) as (s' & Heq & Hlen' & Hlk).
  { unfold NUM_CHANNELS in *. lia. }
  rewrite Heq in Hrw. injection Hrw as <- <-.
  set (w := Z.min k (RING_CAPACITY - ring_available rb)) in *.
  assert (Hav' : ring_available (mkRing s' (u64_add (head rb) w) (tail rb))
                 = ring_available rb + w).
  { destruct Hwf as (_ & Hh & Ht & _).
    unfold ring_available, u64_sub, u64_add, wrap64, u64_modulus in *; simpl.
    unfold RING_CAPACITY in *.
    assert (0 <= w <= 8192) by lia. clearbody w.
    destruct (Zmod_witness (head rb - tail rb) (2 ^ 64) ltac:(lia)) as (c1 & E1 & B1).
    destruct (Zmod_witness (head rb + w) (2 ^ 64) ltac:(lia)) as (c2 & E2 & B2).
    set (a := (head rb - tail rb) mod 2 ^ 64) in *.
    set (b := (head rb + w) mod 2 ^ 64) in *. clearbody a b.
    destruct (Zmod_witness (b - tail rb) (2 ^ 64) ltac:(lia)) as (c3 & E3 & B3).
    set (d := (b - tail rb) mod 2 ^ 64) in *. clearbody d.
    change (2 ^ 64) with 18446744073709551616 in *. lia. }
  assert (Hwf' : ring_wf (mkRing s' (u64_add (head rb) w) (tail rb))).
  { destruct Hwf as (Hl & Hh & Ht & Hc). unfold ring_wf; simpl.
    split; [congruence|]. split; [|split; [exact Ht|]].
    - unfold u64_add, wrap64, u64_modulus. apply Z.mod_pos_bound. lia.
    - change (ring_available (mkRing s' (u64_add (head rb) w) (tail rb))
              <= RING_CAPACITY).
      rewrite Hav'. unfold w. lia. }
  split; [exact Hwf'|]. split; [reflexivity|]. split; [exact Hav'|].
  apply list_eq. intros j.
  rewrite (contents_lookup _ j Hwf'); simpl. rewrite Hav', Hlk.
  pose proof (contents_length rb Hwf) as Hcl.
  destruct (decide (Z.of_nat j < ring_available rb * NUM_CHANNELS)) as [Hold|Hnew].
  - rewrite lookup_app_l by lia. rewrite (contents_lookup _ j Hwf).
    destruct (decide (Z.of_nat j < ring_available rb * NUM_CHANNELS)); [|lia].
    destruct Hwf as (_ & Hh & Ht & _).
    assert (Hw : 0 <= w /\ w + ring_available rb <= RING_CAPACITY) by (unfold w; lia).
    clearbody w.
    unfold ring_available, u64_sub, wrap64, u64_modulus, RING_CAPACITY, NUM_CHANNELS in *.
    destruct (Zmod_witness (head rb - tail rb) (2 ^ 64) ltac:(lia)) as (c1 & E1 & B1).
    set (a := (head rb - tail rb) mod 2 ^ 64) in *. clearbody a.
    destruct (Zmod_witness (tail rb * 2 + Z.of_nat j) (8192 * 2) ltac:(lia))
      as (c2 & E2 & B2).
    set (q := (tail rb * 2 + Z.of_nat j) mod (8192 * 2)) in *. clearbody q.
    rewrite Z2Nat.id by lia.
    destruct (Zmod_witness (q - head rb * 2) (8192 * 2) ltac:(lia)) as (c3 & E3 & B3).
    set (r := (q - head rb * 2) mod (8192 * 2)) in *. clearbody r.
    change (2 ^ 64) with (8192 * 2 * 1125899906842624) in *.
    repeat case_decide; first [reflexivity | exfalso; lia].
  - rewrite lookup_app_r by lia.
    destruct Hwf as (_ & Hh & Ht & _).
    assert (Hw : 0 <= w /\ w + ring_available rb <= RING_CAPACITY) by (unfold w; lia).
    clearbody w.
    unfold ring_available, u64_sub, wrap64, u64_modulus, RING_CAPACITY, NUM_CHANNELS in *.
    destruct (Zmod_witness (head rb - tail rb) (2 ^ 64) ltac:(lia)) as (c1 & E1 & B1).
    set (a := (head rb - tail rb) mod 2 ^ 64) in *. clearbody a.
    destruct (Zmod_witness (tail rb * 2 + Z.of_nat j) (8192 * 2) ltac:(lia))
      as (c2 & E2 & B2).
    set (q := (tail rb * 2 + Z.of_nat j) mod (8192 * 2)) in *. clearbody q.
    rewrite Z2Nat.id by lia.
    destruct (Zmod_witness (q - head rb * 2) (8192 * 2) ltac:(lia)) as (c3 & E3 & B3).
    set (r := (q - head rb * 2) mod (8192 * 2)) in *. clearbody r.
    change (2 ^ 64) with (8192 * 2 * 1125899906842624) in *.
    destruct (decide (Z.of_nat j < (a + w) * 2)) as [Hin|Hout].
    + rewrite lookup_take_lt by lia.
      case_decide; [f_equal; lia | exfalso; lia].
    + symmetry. apply lookup_take_ge. lia.
Qed.

(** A read removes the delivered frames from the front of the queue and
    puts them, in order, at the front of the destination buffer. *)
Lemma ring_read_contents rb dst k rb' d' g :
  ring_wf rb -> 0 <= k < u64_modulus ->
  k * NUM_CHANNELS <= Z.of_nat (length dst) ->
  ring_read rb dst k = Some (rb', d', g) ->
  ring_wf rb'
  /\ g = Z.min k (ring_available rb)
  /\ ring_available rb' = ring_available rb - g
  /\ samples rb' = samples rb /\ head rb' = head rb
  /\ d' = take (Z.to_nat (g * NUM_CHANNELS)) (contents rb)
          ++ drop (Z.to_nat (g * NUM_CHANNELS)) dst
  /\ contents rb' = drop (Z.to_nat (g * NUM_CHANNELS)) (contents rb).
Proof.
  intros Hwf Hk Hdst Hrr. pose proof (ring_available_range rb Hwf) as Hav.
  destruct (ring_read_spec rb dst k Hwf Hk) as (d & Heq & Hlen' & Hlk).
  { unfold NUM_CHANNELS in *. lia. }
  rewrite Heq in Hrr. injection Hrr as <- <- <-.
  set (g := Z.min k (ring_available rb)) in *.
  assert (Hg : 0 <= g /\ g <= ring_available rb /\ g <= k) by (unfold g; lia).
  clearbody g.
  assert (Hav' : ring_available (mkRing (samples rb) (head rb) (u64_add (tail rb) g))
                 = ring_available rb - g).
  { destruct Hwf as (_ & Hh & Ht & _).
    unfold ring_available, u64_sub, u64_add, wrap64, u64_modulus in *; simpl.
    unfold RING_CAPACITY in *.
    destruct (Zmod_witness (head rb - tail rb) (2 ^ 64) ltac:(lia)) as (c1 & E1 & B1).
    destruct (Zmod_witness (tail rb + g) (2 ^ 64) ltac:(lia)) as (c2 & E2 & B2).
    set (a := (head rb - tail rb) mod 2 ^ 64) in *.
    set (b := (tail rb + g) mod 2 ^ 64) in *. clearbody a b.
    destruct (Zmod_witness (head rb - b) (2 ^ 64) ltac:(lia)) as (c3 & E3 & B3).
    set (d0 := (head rb - b) mod 2 ^ 64) in *. clearbody d0.
    change (2 ^ 64) with 18446744073709551616 in *. lia. }
  assert (Hwf' : ring_wf (mkRing (samples rb) (head rb) (u64_add (tail rb) g))).
  { destruct Hwf as (Hl & Hh & Ht & Hc). unfold ring_wf; simpl.
    split; [exact Hl|]. split; [exact Hh|]. split.
    - unfold u64_add, wrap64, u64_modulus. apply Z.mod_pos_bound. lia.
    - change (ring_available (mkRing (samples rb) (head rb) (u64_add (tail rb) g))
              <= RING_CAPACITY).
      rewrite Hav'. lia. }
  pose proof (contents_length rb Hwf) as Hcl.
  split; [exact Hwf'|]. split; [reflexivity|]. split; [exact Hav'|].
  split; [reflexivity|]. split; [reflexivity|]. split.
  - apply list_eq. intros j. rewrite Hlk.
    unfold NUM_CHANNELS in *.
    destruct (decide (Z.of_nat j < g * 2)) as [Hin|Hout].
    + rewrite lookup_app_l by (rewrite length_take; lia).
      rewrite lookup_take_lt by lia.
      rewrite (contents_lookup _ j Hwf). unfold NUM_CHANNELS.
      case_decide; [reflexivity | exfalso; lia].
    + rewrite lookup_app_r by (rewrite length_take; lia).
      rewrite length_take, lookup_drop. f_equal. lia.
  - apply list_eq. intros j.
    rewrite (contents_lookup _ j Hwf'), lookup_drop, (contents_lookup _ _ Hwf).
    simpl. rewrite Hav'.
    destruct Hwf as (_ & Hh & Ht & _).
    unfold ring_available, u64_sub, u64_add, wrap64, u64_modulus, RING_CAPACITY,
      NUM_CHANNELS in *.
    destruct (Zmod_witness (head rb - tail rb) (2 ^ 64) ltac:(lia)) as (c1 & E1 & B1).
    set (a := (head rb - tail rb) mod 2 ^ 64) in *. clearbody a.
    destruct (Zmod_witness (tail rb + g) (2 ^ 64) ltac:(lia)) as (c2 & E2 & B2).
    set (b := (tail rb + g) mod 2 ^ 64) in *. clearbody b.
    destruct (Zmod_witness (b * 2 + Z.of_nat j) (8192 * 2) ltac:(lia))
      as (c3 & E3 & B3).
    set (q := (b * 2 + Z.of_nat j) mod (8192 * 2)) in *. clearbody q.
    destruct (Zmod_witness (tail rb * 2 + Z.of_nat (Z.to_nat (g * 2) + j)) (8192 * 2)
                ltac:(lia)) as (c4 & E4 & B4).
    set (r := (tail rb * 2 + Z.of_nat (Z.to_nat (g * 2) + j)) mod (8192 * 2)) in *.
    clearbody r.
    change (2 ^ 64) with (8192 * 2 * 1125899906842624) in *.
    repeat case_decide; first [reflexivity | exfalso; lia | f_equal; lia].
Qed.

Lemma contents_empty rb : ring_available rb = 0 -> contents rb = [].
Proof. intros H. unfold contents. rewrite H. reflexivity. Qed.

Lemma ring_inv_wf rb :
  Z.of_nat (length (samples rb)) = RING_CAPACITY * NUM_CHANNELS ->
  0 <= head rb < u64_modulus -> 0 <= tail rb < u64_modulus ->
  ring_inv rb -> ring_wf rb /\ ring_available rb = head rb - tail rb.
Proof.
  intros Hl Hh Ht Hi. unfold ring_inv in Hi.
  assert (E : u64_sub (head rb) (tail rb) = head rb - tail rb).
  { unfold u64_sub, wrap64, u64_modulus, RING_CAPACITY in *. apply Z.mod_small. lia. }
  unfold ring_wf, ring_available. rewrite E. repeat split; try lia.
Qed.

Lemma ring_write_total rb src k :
  ring_wf rb -> 0 <= k < u64_modulus ->
  k * NUM_CHANNELS <= Z.of_nat (length src) ->
  exists rb',
    ring_write rb src k = Some (rb', Z.min k (RING_CAPACITY - ring_available rb))
    /\ ring_wf rb'
    /\ head rb' = u64_add (head rb) (Z.min k (RING_CAPACITY - ring_available rb))
    /\ tail rb' = tail rb
    /\ ring_available rb'
       = ring_available rb + Z.min k (RING_CAPACITY - ring_available rb).
Proof.
  intros Hwf Hk Hsrc. pose proof (ring_available_range rb Hwf) as Hav.
  destruct (ring_write_spec rb src k Hwf Hk) as (s' & Heq & Hlen' & Hlk).
  { unfold NUM_CHANNELS in *. lia. }
  destruct (ring_write_contents rb src k _ _ Hwf Hk Hsrc Heq) as (Hwf' & _ & Hav' & _).
  eexists. split; [exact Heq|]. split; [exact Hwf'|].
  split; [reflexivity|]. split; [reflexivity|]. exact Hav'.
Qed.

(** C1. For every ring holding at most [RING_CAPACITY] frames and every
    request of [k] frames, [ring_write] returns exactly [min k free],
    where [free = RING_CAPACITY - (head - tail)]; it advances [head] by
    that number, leaves [tail] alone, and changes no sample outside of
    the [min k free] frame slots that follow [head]. With [k = 0] it
    returns 0 and the ring is unchanged; the frames it stores are the
    first [min k free] frames of [src], appended to the queue the ring
    holds. Writing 8193 frames into an
    empty ring returns 8192 and leaves [head - tail = 8192]; a following
    write of one frame returns 0. *)
Theorem ring_write_returns_min rb src k :
  ring_wf rb -> 0 <= k < u64_modulus ->
  k * NUM_CHANNELS <= Z.of_nat (length src) ->
  exists rb',
    ring_write rb src k = Some (rb', Z.min k (RING_CAPACITY - ring_available rb))
    /\ ring_wf rb'
    /\ head rb' = u64_add (head rb) (Z.min k (RING_CAPACITY - ring_available rb))
    /\ tail rb' = tail rb
    /\ ring_available rb'
       = ring_available rb + Z.min k (RING_CAPACITY - ring_available rb)
    /\ (forall p : nat,
          Z.min k (RING_CAPACITY - ring_available rb) * NUM_CHANNELS
          <= (Z.of_nat p - head rb * NUM_CHANNELS) mod (RING_CAPACITY * NUM_CHANNELS) ->
          samples rb' !! p = samples rb !! p)
    /\ contents rb'
       = contents rb
         ++ take (Z.to_nat (Z.min k (RING_CAPACITY - ring_available rb) * NUM_CHANNELS))
              src
    /\ (k = 0 -> rb' = rb)
    /\ (ring_available rb = 0 -> k = 8193 ->
        Z.min k (RING_CAPACITY - ring_available rb) = 8192
        /\ u64_sub (head rb') (tail rb') = 8192
        /\ forall src2 : list A,
            1 * NUM_CHANNELS <= Z.of_nat (length src2) ->
            exists rb'', ring_write rb' src2 1 = Some (rb'', 0)).
Proof.
  intros Hwf Hk Hsrc. pose proof (ring_available_range rb Hwf) as Hav.
  destruct (ring_write_spec rb src k Hwf Hk) as (s' & Heq & Hlen' & Hlk).
  { unfold NUM_CHANNELS in *. lia. }
  destruct (ring_write_contents rb src k _ _ Hwf Hk Hsrc Heq)
    as (Hwf' & _ & Hav' & Hct).
  eexists. split; [exact Heq|]. split; [exact Hwf'|].
  split; [reflexivity|]. split; [reflexivity|]. split; [exact Hav'|].
  split; [|split; [exact Hct|split]].
  - intros p Hp. simpl. rewrite Hlk. case_decide; [exfalso; lia | reflexivity].
  - intros ->. destruct Hwf as (_ & Hh & _).
    assert (Hz : Z.min 0 (RING_CAPACITY - ring_available rb) = 0) by lia.
    rewrite Hz in *. unfold ring_write in Heq.
    replace (if 0 >? u64_sub RING_CAPACITY (u64_sub (head rb) (tail rb))
             then u64_sub RING_CAPACITY (u64_sub (head rb) (tail rb)) else 0)
      with 0 in Heq.
    + simpl in Heq. congruence.
    + destruct (Z.gtb_spec 0 (u64_sub RING_CAPACITY (u64_sub (head rb) (tail rb))));
        [|reflexivity].
      unfold u64_sub at 1 in H. unfold wrap64, u64_modulus in H.
      exfalso. zmod.
  - intros Hempty ->. rewrite Hempty in *.
    assert (Hm : Z.min 8193 (RING_CAPACITY - 0) = 8192) by (unfold RING_CAPACITY; lia).
    rewrite Hm in *. split; [reflexivity|]. split; [exact Hav'|].
    intros src2 Hsrc2.
    destruct (ring_write_spec _ src2 1 Hwf' ltac:(unfold u64_modulus; lia))
      as (s'' & Heq2 & _).
    { rewrite Hav'. unfold RING_CAPACITY, NUM_CHANNELS. simpl. lia. }
    rewrite Hav' in Heq2.
    replace (Z.min 1 (RING_CAPACITY - (0 + 8192))) with 0 in Heq2
      by (unfold RING_CAPACITY; lia).
    eexists. exact Heq2.
Qed.

Lemma ring_inv_init (zero : A) : ring_inv (ring_init zero).
Proof. unfold ring_inv, ring_init, RING_CAPACITY; simpl. lia. Qed.

(** C2, as amended. The bound [(head - tail) mod 2^64 <= RING_CAPACITY]
    of [ring_wf] holds after [ring_init] and every [ring_write] and
    [ring_read] keeps it. The invariant on the indices themselves,
    [tail <= head <= tail + RING_CAPACITY], holds after [ring_init]; a
    [ring_read] keeps it, and so does a [ring_write] whose new head
    index [head + written] stays below [2^64]; [head] and [tail] then do
    not decrease. *)
Theorem ring_invariant_preserved (zero : A) rb buf k :
  ring_wf rb -> 0 <= k < u64_modulus ->
  k * NUM_CHANNELS <= Z.of_nat (length buf) ->
  (ring_wf (ring_init zero) /\ ring_inv (ring_init zero))
  /\ (exists rb' w,
        ring_write rb buf k = Some (rb', w)
        /\ ring_wf rb'
        /\ (ring_inv rb -> head rb + w < u64_modulus ->
            ring_inv rb' /\ head rb <= head rb' /\ tail rb' = tail rb))
  /\ (exists rb' d g,
        ring_read rb buf k = Some (rb', d, g)
        /\ ring_wf rb'
        /\ (ring_inv rb ->
            ring_inv rb' /\ head rb' = head rb /\ tail rb <= tail rb')).
Proof.
  intros Hwf Hk Hbuf. pose proof (ring_available_range rb Hwf) as Hav.
  split; [split; [apply ring_wf_init | apply ring_inv_init]|].
  split.
  - destruct (ring_write_total rb buf k Hwf Hk Hbuf)
      as (rb' & Heq & Hwf' & Hh' & Ht' & Hav').
    exists rb', (Z.min k (RING_CAPACITY - ring_available rb)).
    split; [exact Heq|]. split; [exact Hwf'|].
    intros Hinv Hno. unfold ring_inv in *.
    destruct (ring_inv_wf rb) as (_ & E); try apply Hwf; [exact Hinv|].
    rewrite E in *.
    assert (Hw : 0 <= Z.min k (RING_CAPACITY - (head rb - tail rb))) by lia.
    destruct Hwf as (_ & Hh & Ht & _).
    rewrite Hh', Ht'. unfold u64_add, wrap64. rewrite Z.mod_small by lia. lia.
  - destruct (ring_read_spec rb buf k Hwf Hk) as (d & Heq & _).
    { unfold NUM_CHANNELS in *. lia. }
    destruct (ring_read_contents rb buf k _ _ _ Hwf Hk Hbuf Heq)
      as (Hwf' & _ & Hav' & _).
    eexists _, d, _. split; [exact Heq|]. split; [exact Hwf'|].
    intros Hinv. unfold ring_inv in *; simpl.
    destruct (ring_inv_wf rb) as (_ & E); try apply Hwf; [exact Hinv|].
    rewrite E in *.
    assert (Hg : 0 <= Z.min k (head rb - tail rb) <= head rb - tail rb) by lia.
    destruct Hwf as (_ & Hh & Ht & _). unfold u64_modulus in *.
    unfold u64_add, wrap64, u64_modulus. rewrite Z.mod_small by lia. lia.
Qed.

(** Running a history keeps the ring well formed, and what was accepted
    is what was delivered followed by what the ring still holds. *)
Lemma run_ops_fifo (ops : list (ring_op A)) : forall rb acc del,
  Forall op_ok ops -> ring_wf rb ->
  exists rb' acc' del',
    run_ops rb ops acc del = Some (rb', acc', del')
    /\ ring_wf rb'
    /\ (acc = del ++ contents rb -> acc' = del' ++ contents rb').
Proof.
  induction ops as [|op ops IH]; intros rb acc del Hok Hwf.
  - exists rb, acc, del. simpl. auto.
  - inversion Hok as [|? ? Hop Hops]; subst.
    destruct op as [src k|dst k]; destruct Hop as [Hk Hbuf]; simpl.
    + destruct (ring_write_spec rb src k Hwf Hk) as (s' & Heq & _).
      { pose proof (ring_available_range rb Hwf). unfold NUM_CHANNELS in *. lia. }
      destruct (ring_write_contents rb src k _ _ Hwf Hk Hbuf Heq)
        as (Hwf' & _ & _ & Hc).
      rewrite Heq; simpl.
      destruct (IH _ (acc ++ take (Z.to_nat
                   (Z.min k (RING_CAPACITY - ring_available rb) * NUM_CHANNELS)) src)
                  del Hops Hwf') as (rb' & acc' & del' & Hrun & Hwf'' & Hfifo).
      exists rb', acc', del'. split; [exact Hrun|]. split; [exact Hwf''|].
      intros E. apply Hfifo. rewrite Hc, E, app_assoc. reflexivity.
    + destruct (ring_read_spec rb dst k Hwf Hk) as (d' & Heq & _).
      { pose proof (ring_available_range rb Hwf). unfold NUM_CHANNELS in *. lia. }
      destruct (ring_read_contents rb dst k _ _ _ Hwf Hk Hbuf Heq)
        as (Hwf' & _ & _ & _ & _ & Hd & Hc).
      rewrite Heq; simpl.
      destruct (IH _ acc (del ++ take (Z.to_nat
                   (Z.min k (ring_available rb) * NUM_CHANNELS)) d')
                  Hops Hwf') as (rb' & acc' & del' & Hrun & Hwf'' & Hfifo).
      exists rb', acc', del'. split; [exact Hrun|]. split; [exact Hwf''|].
      intros E. apply Hfifo. rewrite Hc, E, <- app_assoc. f_equal.
      rewrite Hd.
      pose proof (contents_length rb Hwf) as Hcl.
      pose proof (ring_available_range rb Hwf) as Hav.
      rewrite take_app_le by (rewrite length_take; unfold NUM_CHANNELS in *; lia).
      rewrite take_take, Nat.min_id. symmetry. apply take_drop.
Qed.

Lemma contents_frames rb :
  ring_wf rb -> Z.of_nat (length (contents rb)) / NUM_CHANNELS = ring_available rb.
Proof.
  intros Hwf. rewrite (contents_length rb Hwf). apply Z.div_mul.
  unfold NUM_CHANNELS. lia.
Qed.

(** A history run on a ring does what the bounded queue does on the
    samples the ring holds. *)
Lemma run_ops_refines (ops : list (ring_op A)) : forall rb acc del,
  Forall op_ok ops -> ring_wf rb ->
  exists rb' acc' del',
    run_ops rb ops acc del = Some (rb', acc', del')
    /\ ring_wf rb'
    /\ fifo_spec (contents rb) ops acc del = (contents rb', acc', del').
Proof.
  induction ops as [|op ops IH]; intros rb acc del Hok Hwf.
  - exists rb, acc, del. simpl. auto.
  - inversion Hok as [|? ? Hop Hops]; subst.
    destruct op as [src k|dst k]; destruct Hop as [Hk Hbuf];
      cbn [run_ops fifo_spec]; rewrite (contents_frames rb Hwf).
    + destruct (ring_write_spec rb src k Hwf Hk) as (s' & Heq & _).
      { pose proof (ring_available_range rb Hwf). unfold NUM_CHANNELS in *. lia. }
      destruct (ring_write_contents rb src k _ _ Hwf Hk Hbuf Heq)
        as (Hwf' & _ & _ & Hc).
      rewrite Heq. cbn [mbind option_bind]. cbv zeta. rewrite <- Hc.
      apply IH; assumption.
    + destruct (ring_read_spec rb dst k Hwf Hk) as (d' & Heq & _).
      { pose proof (ring_available_range rb Hwf). unfold NUM_CHANNELS in *. lia. }
      destruct (ring_read_contents rb dst k _ _ _ Hwf Hk Hbuf Heq)
        as (Hwf' & _ & _ & _ & _ & Hd & Hc).
      rewrite Heq. cbn [mbind option_bind]. cbv zeta. rewrite <- Hc.
      assert (Ht : take (Z.to_nat (Z.min k (ring_available rb) * NUM_CHANNELS)) d'
                   = take (Z.to_nat (Z.min k (ring_available rb) * NUM_CHANNELS))
                          (contents rb)).
      { rewrite Hd.
        pose proof (contents_length rb Hwf) as Hcl.
        pose proof (ring_available_range rb Hwf) as Hav.
        rewrite take_app_le by (rewrite length_take; unfold NUM_CHANNELS in *; lia).
        rewrite take_take, Nat.min_id. reflexivity. }
      rewrite <- Ht. apply IH; assumption.
Qed.

(** The bounded queue accepts every frame it is offered as long as what
    it holds and what is still to be offered fit the capacity. *)
Lemma fifo_spec_takes_all (ops : list (ring_op A)) : forall q acc del,
  Forall op_ok ops ->
  Z.of_nat (length q) + Z.of_nat (length (offered ops)) <= RING_CAPACITY * NUM_CHANNELS ->
  (fifo_spec q ops acc del).1.2 = acc ++ offered ops.
Proof.
  induction ops as [|op ops IH]; intros q acc del Hok Hfit.
  - cbn [fifo_spec offered fst snd]. rewrite app_nil_r. reflexivity.
  - inversion Hok as [|? ? Hop Hops]; subst.
    destruct op as [src k|dst k]; destruct Hop as [Hk Hbuf]; cbn [fifo_spec offered] in *.
    + rewrite length_app, length_take in Hfit.
      assert (Hmin : Z.min k (RING_CAPACITY - Z.of_nat (length q) / NUM_CHANNELS) = k).
      { unfold RING_CAPACITY, NUM_CHANNELS in *.
        assert (Z.of_nat (length q) / 2 <= 8192 - k)
          by (apply Z.div_le_upper_bound; lia).
        lia. }
      cbv zeta. rewrite Hmin, IH; [rewrite <- app_assoc; reflexivity | exact Hops |].
      rewrite length_app, length_take. lia.
    + cbv zeta. apply IH; [exact Hops|]. rewrite length_drop. lia.
Qed.

(** C3. For every history of [ring_write] and [ring_read] calls on a
    ring that starts empty, the history runs to its end and does what
    the bounded queue of the specification does on the same history:
    each write accepts the first [min(count, free)] frames it is
    offered, each read delivers the oldest [min(count, held)] frames,
    and the ring ends holding what that queue holds. Hence the frames
    the reads delivered, concatenated in call order, are a prefix of the
    frames the writes accepted, concatenated in call order: what was
    accepted is exactly what was delivered followed by what the ring
    still holds, and nothing is duplicated, reordered or altered. The
    only frames offered that never come out are those a write found no
    room for: a history whose offered frames fit the capacity has every
    one of them accepted. *)
Theorem ring_fifo_order (zero : A) (ops : list (ring_op A)) :
  Forall op_ok ops ->
  exists rb' accepted delivered,
    run_ops (ring_init zero) ops [] [] = Some (rb', accepted, delivered)
    /\ accepted = delivered ++ contents rb'
    /\ delivered `prefix_of` accepted
    /\ fifo_spec [] ops [] [] = (contents rb', accepted, delivered)
    /\ (Z.of_nat (length (offered ops)) <= RING_CAPACITY * NUM_CHANNELS ->
        accepted = offered ops).
Proof.
  intros Hok.
  assert (He : contents (ring_init zero) = []).
  { apply contents_empty.
    unfold ring_available, ring_init, u64_sub, wrap64; simpl. reflexivity. }
  destruct (run_ops_fifo ops (ring_init zero) [] [] Hok (ring_wf_init zero))
    as (rb' & acc & del & Hrun & _ & Hfifo).
  destruct (run_ops_refines ops (ring_init zero) [] [] Hok (ring_wf_init zero))
    as (rb2 & acc2 & del2 & Hrun2 & _ & Hspec).
  rewrite Hrun in Hrun2. injection Hrun2 as <- <- <-. rewrite He in Hspec.
  exists rb', acc, del. split; [exact Hrun|].
  assert (E : acc = del ++ contents rb').
  { apply Hfifo. rewrite He. reflexivity. }
  split; [exact E|]. split; [exists (contents rb'); exact E|].
  split; [exact Hspec|].
  intros Hfit.
  pose proof (fifo_spec_takes_all ops [] [] [] Hok ltac:(simpl; lia)) as Hall.
  rewrite Hspec in Hall. exact Hall.
Qed.
End RingOperations.

Section RealtimeIO.
Implicit Types (drv : DriverState) (buf : list float32).

Lemma is_input_device_input : is_input_device kObjectID_InputDevice = true.
Proof. reflexivity. Qed.

(** C4. A read-input operation on the input device returns success for
    every [ioSize]; the main buffer then holds the [got] frames the
    ingress ring delivered, followed by [ioSize - got] frames of zeros.
    In particular, reading 512 frames from an empty ring gives 512
    frames of zeros. *)
Theorem do_io_read_pads_with_silence drv ioSize buf :
  ring_wf (inputRing drv) -> 0 <= ioSize < 2 ^ 32 ->
  ioSize * NUM_CHANNELS <= Z.of_nat (length buf) ->
  exists drv' buf',
    driver_DoIOOperation (Some drv) kObjectID_InputDevice
      kAudioServerPlugInIOOperationReadInput ioSize buf
    = Some (kAudioHardwareNoError, Some drv', buf')
    /\ buf' = take (Z.to_nat (Z.min ioSize (ring_available (inputRing drv))
                             * NUM_CHANNELS)) (contents (inputRing drv))
             ++ replicate (Z.to_nat ((ioSize - Z.min ioSize
                                        (ring_available (inputRing drv)))
                                     * NUM_CHANNELS)) f32_zero
             ++ drop (Z.to_nat (ioSize * NUM_CHANNELS)) buf
    /\ (ring_available (inputRing drv) = 0 -> ioSize = 512 ->
        take (Z.to_nat (512 * NUM_CHANNELS)) buf'
        = replicate (Z.to_nat (512 * NUM_CHANNELS)) f32_zero).
Proof.
  intros Hwf Hio Hbuf.
  pose proof (ring_available_range _ Hwf) as Hav.
  pose proof (contents_length _ Hwf) as Hcl.
  assert (Hk : 0 <= ioSize < u64_modulus) by (unfold u64_modulus; lia).
  destruct (ring_read_spec _ buf ioSize Hwf Hk) as (d & Heq & Hlen & _).
  { unfold NUM_CHANNELS in *. lia. }
  destruct (ring_read_contents _ buf ioSize _ _ _ Hwf Hk Hbuf Heq)
    as (_ & _ & _ & _ & _ & Hd & _).
  set (got := Z.min ioSize (ring_available (inputRing drv))) in *.
  assert (Hgot : 0 <= got <= ioSize) by (unfold got; lia).
  assert (Hgot' : got <= ring_available (inputRing drv)) by (unfold got; lia).
  unfold driver_DoIOOperation.
  change (is_output_device kObjectID_InputDevice) with false.
  rewrite is_input_device_input, Z.eqb_refl. cbn [andb].
  rewrite Heq. cbn [mbind option_bind].
  assert (Hbuf' : exists buf',
    (if got <? ioSize
     then memset0 f32_zero d (u64_mul got NUM_CHANNELS)
            (u64_mul (u64_sub ioSize got) BYTES_PER_FRAME)
     else Some d) = Some buf'
    /\ buf' = take (Z.to_nat (got * NUM_CHANNELS)) (contents (inputRing drv))
             ++ replicate (Z.to_nat ((ioSize - got) * NUM_CHANNELS)) f32_zero
             ++ drop (Z.to_nat (ioSize * NUM_CHANNELS)) buf).
  { clearbody got. unfold NUM_CHANNELS in *.
    assert (Htk : length (take (Z.to_nat (got * 2)) (contents (inputRing drv)))
                  = Z.to_nat (got * 2)) by (rewrite length_take; lia).
    destruct (Z.ltb_spec got ioSize) as [Hlt|Hge].
    - assert (Hm1 : u64_mul got 2 = got * 2).
      { unfold u64_mul, wrap64, u64_modulus. apply Z.mod_small. lia. }
      assert (Hm2 : u64_mul (u64_sub ioSize got) BYTES_PER_FRAME / sizeof_float
                    = (ioSize - got) * 2).
      { unfold u64_mul, u64_sub, wrap64, u64_modulus, BYTES_PER_FRAME, NUM_CHANNELS,
          BITS_PER_CHANNEL, sizeof_float. change (32 / 8) with 4.
        rewrite (Z.mod_small (ioSize - got)) by lia.
        rewrite Z.mod_small by lia. zmod. }
      unfold memset0. rewrite Hm1, Hm2.
      destruct (Z.leb_spec (got * 2 + (ioSize - got) * 2) (Z.of_nat (length d)));
        [|lia].
      eexists. split; [reflexivity|]. rewrite Hd.
      rewrite take_app_length' by (symmetry; exact Htk).
      f_equal. f_equal.
      rewrite drop_app_ge by lia. rewrite Htk, drop_drop. f_equal. lia.
    - assert (got = ioSize) by lia. subst got.
      eexists. split; [reflexivity|]. rewrite Hd.
      replace (Z.to_nat ((ioSize - ioSize) * 2)) with 0%nat by lia. reflexivity. }
  destruct Hbuf' as (buf' & Hset & Hbuf'). rewrite Hset. cbn [mbind option_bind].
  eexists _, buf'. split; [reflexivity|]. split; [exact Hbuf'|].
  intros Hempty ->. rewrite Hbuf'.
  assert (Hg0 : got = 0) by lia. rewrite Hg0. unfold NUM_CHANNELS.
  change (Z.to_nat (0 * 2)) with 0%nat. rewrite take_0. cbn [app].
  rewrite Z.sub_0_r. apply take_app_length'. rewrite length_replicate. reflexivity.
Qed.

(** C10. For every driver state and every pair of a device and an
    operation other than (output device, write-mix) and (input device,
    read-input), the IO operation returns success; the driver state,
    hence the head, tail and storage of both rings, and the main buffer
    are unchanged. *)
Theorem do_io_other_operations_do_nothing drv id opID ioSize buf :
  ~ (id = kObjectID_OutputDevice /\ opID = kAudioServerPlugInIOOperationWriteMix) ->
  ~ (id = kObjectID_InputDevice /\ opID = kAudioServerPlugInIOOperationReadInput) ->
  driver_DoIOOperation (Some drv) id opID ioSize buf
  = Some (kAudioHardwareNoError, Some drv, buf).
Proof.
  intros Hout Hin. unfold driver_DoIOOperation, is_output_device, is_input_device.
  destruct (Z.eqb_spec id kObjectID_OutputDevice) as [E1|N1];
    destruct (Z.eqb_spec opID kAudioServerPlugInIOOperationWriteMix) as [E2|N2];
    cbn [andb]; try tauto;
    destruct (Z.eqb_spec id kObjectID_InputDevice) as [E3|N3];
    destruct (Z.eqb_spec opID kAudioServerPlugInIOOperationReadInput) as [E4|N4];
    cbn [andb]; try tauto; reflexivity.
Qed.
End RealtimeIO.

Section Volume.
Variable log10f : float32 -> float32.
Variable powf : float32 -> float32 -> float32.

Lemma SFcompare_antisym (a b : spec_float) :
  SFcompare b a = option_map CompOpp (SFcompare a b).
Proof.
  destruct a as [sa|sa| |sa ma ea], b as [sb|sb| |sb mb eb]; simpl;
    try reflexivity; try (destruct sa; reflexivity); try (destruct sb; reflexivity);
    try (destruct sa, sb; reflexivity).
  assert (P : Pos.compare_cont Eq mb ma = CompOpp (Pos.compare_cont Eq ma mb))
    by (rewrite Pos.compare_cont_antisym; reflexivity).
  destruct sa, sb; try reflexivity; f_equal;
    rewrite (Z.compare_antisym ea eb), P;
    destruct (ea ?= eb); simpl; try reflexivity;
    destruct (Pos.compare_cont Eq ma mb); reflexivity.
Qed.

Lemma f32_le_not_lt (a b : float32) : f32_le a b = true -> f32_lt b a = false.
Proof.
  unfold f32_le, f32_lt, SFleb, SFltb. rewrite (SFcompare_antisym a b).
  destruct (SFcompare a b) as [[]|]; simpl; congruence.
Qed.

Lemma f32_lt_not_lt (a b : float32) : f32_lt a b = true -> f32_lt b a = false.
Proof.
  unfold f32_lt, SFltb. rewrite (SFcompare_antisym a b).
  destruct (SFcompare a b) as [[]|]; simpl; congruence.
Qed.

(** The value a scalar set request stores. *)
Lemma set_scalar_then_get (drv : DriverState) (id inSize : Z) (v io : float32) :
  is_volume id = true -> sizeof_Float32 <= inSize ->
  exists drv',
    driver_SetPropertyData powf (Some drv) id
      (LevelProperty kAudioLevelControlPropertyScalarValue) inSize v
    = Some (kAudioHardwareNoError, Some drv')
    /\ driver_GetPropertyData log10f powf (Some drv') id
         kAudioLevelControlPropertyScalarValue inSize io
       = Some (kAudioHardwareNoError,
               Some (let v := if f32_lt v f32_zero then f32_zero else v in
                     if f32_lt f32_one v then f32_one else v)).
Proof.
  intros Hid Hsz. unfold driver_SetPropertyData, driver_GetPropertyData.
  rewrite Hid. cbn [mbind option_bind].
  destruct (Z.ltb_spec inSize sizeof_Float32); [lia|].
  eexists. split; [reflexivity|]. cbn [mbind option_bind].
  destruct (id =? kObjectID_OutputVolume); reflexivity.
Qed.

(** The value a decibel set request stores. *)
Lemma set_db_then_get (drv : DriverState) (id inSize : Z) (db io : float32) :
  is_volume id = true -> sizeof_Float32 <= inSize ->
  exists drv',
    driver_SetPropertyData powf (Some drv) id
      (LevelProperty kAudioLevelControlPropertyDecibelValue) inSize db
    = Some (kAudioHardwareNoError, Some drv')
    /\ driver_GetPropertyData log10f powf (Some drv') id
         kAudioLevelControlPropertyScalarValue inSize io
       = Some (kAudioHardwareNoError,
               Some (db_to_scalar powf
                       (let db := if f32_lt db VOLUME_MIN_DB then VOLUME_MIN_DB else db in
                        if f32_lt VOLUME_MAX_DB db then VOLUME_MAX_DB else db))).
Proof.
  intros Hid Hsz. unfold driver_SetPropertyData, driver_GetPropertyData.
  rewrite Hid. cbn [mbind option_bind].
  destruct (Z.ltb_spec inSize sizeof_Float32); [lia|].
  eexists. split; [reflexivity|]. cbn [mbind option_bind].
  destruct (id =? kObjectID_OutputVolume); reflexivity.
Qed.

(** C7. Setting the volume scalar of a volume control to [v] and then
    getting the scalar returns exactly [v] when [0 <= v <= 1], 0.0 when
    [v < 0] and 1.0 when [v > 1]; so setting 1.5 gives back 1.0. Setting
    the decibel value to -200 and then getting the scalar returns 0.0. *)
Theorem volume_set_then_get (drv : DriverState) (id inSize : Z) (v io : float32) :
  is_volume id = true -> sizeof_Float32 <= inSize ->
  (exists drv' r,
      driver_SetPropertyData powf (Some drv) id
        (LevelProperty kAudioLevelControlPropertyScalarValue) inSize v
      = Some (kAudioHardwareNoError, Some drv')
      /\ driver_GetPropertyData log10f powf (Some drv') id
           kAudioLevelControlPropertyScalarValue inSize io
         = Some (kAudioHardwareNoError, Some r)
      /\ (f32_le f32_zero v = true -> f32_le v f32_one = true -> r = v)
      /\ (f32_lt v f32_zero = true -> r = f32_zero)
      /\ (f32_lt f32_one v = true -> r = f32_one))
  /\ (exists drv',
      driver_SetPropertyData powf (Some drv) id
        (LevelProperty kAudioLevelControlPropertyScalarValue) inSize
        f32_1_5
      = Some (kAudioHardwareNoError, Some drv')
      /\ driver_GetPropertyData log10f powf (Some drv') id
           kAudioLevelControlPropertyScalarValue inSize io
         = Some (kAudioHardwareNoError, Some f32_one))
  /\ (exists drv',
      driver_SetPropertyData powf (Some drv) id
        (LevelProperty kAudioLevelControlPropertyDecibelValue) inSize
        (f32_of_Z (-200))
      = Some (kAudioHardwareNoError, Some drv')
      /\ driver_GetPropertyData log10f powf (Some drv') id
           kAudioLevelControlPropertyScalarValue inSize io
         = Some (kAudioHardwareNoError, Some f32_zero)).
Proof.
  intros Hid Hsz. split; [|split].
  - destruct (set_scalar_then_get drv id inSize v io Hid Hsz) as (drv' & Hset & Hget).
    eexists drv', _. split; [exact Hset|]. split; [exact Hget|]. cbv zeta.
    split; [|split].
    + intros H0 H1. rewrite (f32_le_not_lt _ _ H0), (f32_le_not_lt _ _ H1). reflexivity.
    + intros H0. rewrite H0. reflexivity.
    + intros H1.
      destruct (f32_lt v f32_zero) eqn:H0.
      * exfalso. revert H0 H1. destruct v as [| | |s m e]; try discriminate.
        -- destruct s; discriminate.
        -- destruct s; [discriminate|].
           unfold f32_lt, SFltb, f32_zero. simpl. discriminate.
      * rewrite H1. reflexivity.
  - destruct (set_scalar_then_get drv id inSize f32_1_5 io Hid Hsz)
      as (drv' & Hset & Hget).
    exists drv'. split; [exact Hset|]. rewrite Hget. reflexivity.
  - destruct (set_db_then_get drv id inSize (f32_of_Z (-200)) io Hid Hsz)
      as (drv' & Hset & Hget).
    exists drv'. split; [exact Hset|]. rewrite Hget. reflexivity.
Qed.

(** At the lower end of the dB range the two conversions are exact
    inverses, by their guards: the C library is not consulted. *)
Lemma db_roundtrip_at_min :
  db_to_scalar powf VOLUME_MIN_DB = f32_zero
  /\ scalar_to_db log10f f32_zero = VOLUME_MIN_DB
  /\ scalar_to_db log10f (db_to_scalar powf VOLUME_MIN_DB) = VOLUME_MIN_DB.
Proof. repeat split; reflexivity. Qed.
End Volume.

Section CodecStep.

Lemma digits2_pos_bounds (m : positive) :
  2 ^ (Zpos (digits2_pos m) - 1) <= Zpos m < 2 ^ Zpos (digits2_pos m).
Proof.
  induction m as [m IH|m IH|]; cbn [digits2_pos].
  - rewrite Pos2Z.inj_succ. replace (Z.succ (Zpos (digits2_pos m)) - 1)
      with (Z.succ (Zpos (digits2_pos m) - 1)) by lia.
    rewrite !Z.pow_succ_r by lia. lia.
  - rewrite Pos2Z.inj_succ. replace (Z.succ (Zpos (digits2_pos m)) - 1)
      with (Z.succ (Zpos (digits2_pos m) - 1)) by lia.
    rewrite !Z.pow_succ_r by lia. lia.
  - simpl. lia.
Qed.

Lemma Zdigits2_bounds (m : Z) :
  0 < m -> 0 < Zdigits2 m /\ 2 ^ (Zdigits2 m - 1) <= m < 2 ^ Zdigits2 m.
Proof.
  destruct m as [|p|p]; try lia. intros _. cbn [Zdigits2].
  split; [lia | apply digits2_pos_bounds].
Qed.

Lemma Zdigits2_unique (m k : Z) :
  0 < m -> 2 ^ (k - 1) <= m < 2 ^ k -> Zdigits2 m = k.
Proof.
  intros Hm [Hlo Hhi]. destruct (Zdigits2_bounds m Hm) as (Hd & Hlo' & Hhi').
  assert (Hk : 0 < k).
  { destruct (Z_lt_le_dec 0 k); [assumption|]. exfalso.
    assert (2 ^ k <= 1).
    { destruct (Z.eq_dec k 0) as [->|]; [simpl; lia|].
      rewrite Z.pow_neg_r by lia. lia. }
    lia. }
  destruct (Z_lt_le_dec (Zdigits2 m) k) as [Hlt|Hge].
  - exfalso. assert (2 ^ Zdigits2 m <= 2 ^ (k - 1)) by (apply Z.pow_le_mono_r; lia). lia.
  - destruct (Z_lt_le_dec k (Zdigits2 m)) as [Hlt|Hle]; [|lia].
    exfalso. assert (2 ^ k <= 2 ^ (Zdigits2 m - 1)) by (apply Z.pow_le_mono_r; lia). lia.
Qed.

Lemma Zdigits2_shift (m n : Z) :
  0 < m -> 0 <= n < Zdigits2 m ->
  0 < m / 2 ^ n /\ Zdigits2 (m / 2 ^ n) = Zdigits2 m - n.
Proof.
  intros Hm Hn. destruct (Zdigits2_bounds m Hm) as (Hd & Hlo & Hhi).
  assert (Hp : 0 < 2 ^ n) by (apply Z.pow_pos_nonneg; lia).
  assert (Hlo' : 2 ^ (Zdigits2 m - n - 1) <= m / 2 ^ n).
  { apply Z.div_le_lower_bound; [lia|].
    rewrite <- Z.pow_add_r by lia.
    replace (n + (Zdigits2 m - n - 1)) with (Zdigits2 m - 1) by lia. exact Hlo. }
  assert (Hhi' : m / 2 ^ n < 2 ^ (Zdigits2 m - n)).
  { apply Z.div_lt_upper_bound; [lia|].
    rewrite <- Z.pow_add_r by lia.
    replace (n + (Zdigits2 m - n)) with (Zdigits2 m) by lia. exact Hhi. }
  assert (H0 : 0 < 2 ^ (Zdigits2 m - n - 1)) by (apply Z.pow_pos_nonneg; lia).
  split; [lia|]. apply Zdigits2_unique; [lia|].
  split; assumption.
Qed.

Lemma Zdigits2_mono (a b : Z) : 0 < a <= b -> Zdigits2 a <= Zdigits2 b.
Proof.
  intros [Ha Hab].
  destruct (Zdigits2_bounds a Ha) as (Hda & Hloa & Hhia).
  destruct (Zdigits2_bounds b ltac:(lia)) as (Hdb & Hlob & Hhib).
  destruct (Z_lt_le_dec (Zdigits2 b) (Zdigits2 a)) as [Hlt|]; [|lia].
  exfalso. assert (2 ^ Zdigits2 b <= 2 ^ (Zdigits2 a - 1)) by (apply Z.pow_le_mono_r; lia).
  lia.
Qed.

Lemma shr_1_m (mrs : shr_record) :
  0 <= shr_m mrs -> shr_m (shr_1 mrs) = shr_m mrs / 2.
Proof.
  destruct mrs as [m r s]. cbn [shr_m]. intros Hm.
  destruct m as [|[p|p|]|p]; cbn [shr_1 shr_m orb]; try lia; try reflexivity.
  - apply Z.div_unique with (r := 1); lia.
  - apply Z.div_unique with (r := 0); lia.
Qed.

Lemma shr_1_nonneg (mrs : shr_record) : 0 <= shr_m mrs -> 0 <= shr_m (shr_1 mrs).
Proof.
  intros H. rewrite shr_1_m by exact H. apply Z.div_pos; lia.
Qed.

Lemma iter_pos_shr_1_m (p : positive) : forall mrs,
  0 <= shr_m mrs ->
  0 <= shr_m (SpecFloat.iter_pos shr_1 p mrs)
  /\ shr_m (SpecFloat.iter_pos shr_1 p mrs) = shr_m mrs / 2 ^ Zpos p.
Proof.
  induction p as [p IH|p IH|]; intros mrs Hm; cbn [SpecFloat.iter_pos].
  - destruct (IH (shr_1 mrs) (shr_1_nonneg mrs Hm)) as (H1 & E1).
    destruct (IH _ H1) as (H2 & E2).
    split; [exact H2|]. rewrite E2, E1, shr_1_m by exact Hm.
    rewrite !Z.div_div by (try apply Z.pow_pos_nonneg; lia).
    f_equal. change 2 with (2 ^ 1) at 1. rewrite <- !Z.pow_add_r by lia.
    f_equal. lia.
  - destruct (IH mrs Hm) as (H1 & E1).
    destruct (IH _ H1) as (H2 & E2).
    split; [exact H2|]. rewrite E2, E1.
    rewrite !Z.div_div by (try apply Z.pow_pos_nonneg; lia).
    f_equal. rewrite <- Z.pow_add_r by lia. f_equal. lia.
  - split; [apply shr_1_nonneg; exact Hm|]. rewrite shr_1_m by exact Hm. reflexivity.
Qed.

Lemma shr_spec (mrs : shr_record) (e n : Z) :
  0 <= shr_m mrs -> 0 <= n ->
  shr_m (fst (shr mrs e n)) = shr_m mrs / 2 ^ n /\ snd (shr mrs e n) = e + n.
Proof.
  intros Hm Hn. destruct n as [|p|p]; try lia; cbn [shr fst snd].
  - rewrite Z.div_1_r. lia.
  - split; [apply iter_pos_shr_1_m; exact Hm | reflexivity].
Qed.

Lemma round_nearest_even_range (m : Z) (l : location) :
  m <= round_nearest_even m l <= m + 1.
Proof.
  unfold round_nearest_even. destruct l as [|[]]; try lia.
  destruct (Z.even m); lia.
Qed.

Lemma shr_m_zero (mrs : shr_record) (e n : Z) :
  shr_m mrs = 0 -> shr_m (fst (shr mrs e n)) = 0.
Proof.
  intros H0. destruct n as [|p|p]; cbn [shr fst]; try exact H0.
  destruct (iter_pos_shr_1_m p mrs ltac:(lia)) as (_ & ->). rewrite H0. reflexivity.
Qed.

Lemma fexp32_eq (z : Z) : fexp f32_prec f32_emax z = Z.max (z - 24) (-149).
Proof. reflexivity. Qed.

(** Rounding gives a well-formed float as soon as the exponent it starts
    from is not above the exponent of the result. *)
Lemma binary_round_aux_valid (sx : bool) (M E : Z) :
  0 < M -> E <= fexp f32_prec f32_emax (Zdigits2 M + E) ->
  f32_valid (binary_round_aux f32_prec f32_emax sx M E loc_Exact) = true.
Proof.
  intros HM Hpre. unfold binary_round_aux, shr_fexp.
  set (e1 := fexp f32_prec f32_emax (Zdigits2 M + E)) in *.
  cbn [shr_record_of_loc].
  destruct (shr_spec (Build_shr_record M false false) E (e1 - E)
              ltac:(cbn [shr_m]; lia) ltac:(lia)) as [Hm' He'].
  destruct (shr (Build_shr_record M false false) E (e1 - E)) as [mrs' e'].
  cbn [fst snd shr_m] in Hm', He'.
  assert (Ee' : e' = e1) by lia. clear He'. subst e'.
  pose proof (round_nearest_even_range (shr_m mrs') (loc_of_shr_record mrs')) as Hr.
  set (m1 := round_nearest_even (shr_m mrs') (loc_of_shr_record mrs')) in *.
  assert (Hm'0 : 0 <= shr_m mrs').
  { rewrite Hm'. apply Z.div_pos; [lia|]. apply Z.pow_pos_nonneg; lia. }
  set (e2 := fexp f32_prec f32_emax (Zdigits2 m1 + e1)).
  destruct (Z.eq_dec m1 0) as [E0|N0].
  { pose proof (shr_m_zero (Build_shr_record m1 false false) e1 (e2 - e1) E0) as Hz.
    destruct (shr (Build_shr_record m1 false false) e1 (e2 - e1)) as [mrs'' e''].
    cbn [fst] in Hz. rewrite Hz. reflexivity. }
  assert (Hm1 : 0 < m1) by lia.
  assert (Hshift : e1 <= e2).
  { unfold e2. rewrite fexp32_eq. unfold e1 in *. rewrite fexp32_eq in *.
    destruct (Z_lt_le_dec (Zdigits2 M + E - 24) (-149)) as [Hsub|Hnorm]; [lia|].
    assert (En : Z.max (Zdigits2 M + E - 24) (-149) - E = Zdigits2 M - 24) by lia.
    rewrite En in Hm'.
    destruct (Zdigits2_bounds M HM) as (Hd & _).
    destruct (Zdigits2_shift M (Zdigits2 M - 24) HM ltac:(lia)) as (Hq & Hdq).
    rewrite <- Hm' in Hq, Hdq.
    pose proof (Zdigits2_mono (shr_m mrs') m1 ltac:(lia)). lia. }
  destruct (shr_spec (Build_shr_record m1 false false) e1 (e2 - e1)
              ltac:(cbn [shr_m]; lia) ltac:(lia)) as [Hm2 He2].
  destruct (shr (Build_shr_record m1 false false) e1 (e2 - e1)) as [mrs'' e''].
  cbn [fst snd shr_m] in Hm2, He2.
  assert (Ee'' : e'' = e2) by lia. clear He2. subst e''.
  assert (Hm2pos : 0 <= shr_m mrs'').
  { rewrite Hm2. apply Z.div_pos; [lia|]. apply Z.pow_pos_nonneg; lia. }
  destruct (shr_m mrs'') as [|q|q] eqn:Eq; [reflexivity| |lia].
  destruct (Z.leb_spec e2 (f32_emax - f32_prec)) as [Hle|Hgt]; [|reflexivity].
  unfold f32_valid, valid_binary, bounded, canonical_mantissa.
  apply andb_true_iff. split; [|apply Z.leb_le; exact Hle].
  apply Z.eqb_eq.
  destruct (Zdigits2_bounds m1 Hm1) as (Hd1 & Hlo1 & Hhi1).
  assert (Hn2 : e2 - e1 < Zdigits2 m1).
  { destruct (Z_lt_le_dec (e2 - e1) (Zdigits2 m1)) as [|Hbig]; [assumption|].
    exfalso. assert (2 ^ Zdigits2 m1 <= 2 ^ (e2 - e1)) by (apply Z.pow_le_mono_r; lia).
    assert (m1 / 2 ^ (e2 - e1) = 0) by (apply Z.div_small; lia). lia. }
  destruct (Zdigits2_shift m1 (e2 - e1) Hm1 ltac:(lia)) as (_ & Hdq).
  rewrite <- Hm2 in Hdq. change (Z.pos (digits2_pos q)) with (Zdigits2 (Z.pos q)).
  rewrite Hdq. replace (Zdigits2 m1 - (e2 - e1) + e2) with (Zdigits2 m1 + e1) by lia.
  reflexivity.
Qed.

(** A valid single-precision float has a significand below [2^24], and
    at least [2^23] unless it is subnormal. *)
Lemma f32_valid_finite (sg : bool) (m : positive) (e : Z) :
  f32_valid (S754_finite sg m e) = true ->
  Zpos m < 2 ^ 24 /\ -149 <= e <= 104 /\ (-149 < e -> 2 ^ 23 <= Zpos m).
Proof.
  unfold f32_valid, valid_binary, bounded, canonical_mantissa, fexp, emin,
    f32_prec, f32_emax.
  intros H. apply andb_true_iff in H. destruct H as [Hc He].
  apply Z.eqb_eq in Hc. apply Z.leb_le in He.
  pose proof (digits2_pos_bounds m) as [Hlo Hhi].
  set (d := Zpos (digits2_pos m)) in *.
  assert (Hd : 0 < d) by (unfold d; lia). clearbody d.
  assert (Hd24 : d <= 24) by lia.
  split; [|split].
  - eapply Z.lt_le_trans; [exact Hhi|]. apply Z.pow_le_mono_r; lia.
  - lia.
  - intros Hn. assert (d = 24) by lia. subst d. exact Hlo.
Qed.

(** Single-precision multiplication of well-formed floats gives a
    well-formed float. *)
Lemma f32_mul_valid (x y : float32) :
  f32_valid x = true -> f32_valid y = true -> f32_valid (f32_mul x y) = true.
Proof.
  intros Hx Hy.
  destruct x as [sx|sx| |sx mx ex], y as [sy|sy| |sy my ey]; try reflexivity.
  unfold f32_mul, SFmul. apply binary_round_aux_valid; [lia|].
  destruct (f32_valid_finite sx mx ex Hx) as (Hmx & Hex & Hnx).
  destruct (f32_valid_finite sy my ey Hy) as (Hmy & Hey & Hny).
  rewrite fexp32_eq.
  destruct (Z_lt_le_dec (-149) (ex + ey)) as [Hbig|]; [|lia].
  assert (HM : 2 ^ 23 <= Z.pos (mx * my)).
  { rewrite Pos2Z.inj_mul. destruct (Z_lt_le_dec (-149) ex) as [H1|H1].
    - specialize (Hnx H1). nia.
    - specialize (Hny ltac:(lia)). nia. }
  pose proof (Zdigits2_mono (2 ^ 23) (Z.pos (mx * my)) ltac:(lia)) as Hd.
  change (Zdigits2 (2 ^ 23)) with 24 in Hd. lia.
Qed.

Lemma shiftl_neg_div (m : positive) (k : Z) :
  0 <= k -> Z.shiftl (Zpos m) (- k) = Zpos m / 2 ^ k.
Proof.
  intros Hk. rewrite <- Z.shiftr_opp_r, Z.opp_involutive.
  apply Z.shiftr_div_pow2. lia.
Qed.

(** Where the truncated magnitude of a valid float lies, by exponent. *)
Lemma magnitude_bounds (sg : bool) (m : positive) (e : Z) :
  f32_valid (S754_finite sg m e) = true ->
  0 <= Z.shiftl (Zpos m) e
  /\ (e < -9 -> Z.shiftl (Zpos m) e < 16384)
  /\ (e = -9 -> Z.shiftl (Zpos m) e = Zpos m / 512)
  /\ (e = -8 -> Z.shiftl (Zpos m) e = Zpos m / 256)
  /\ (-8 < e -> 65536 <= Z.shiftl (Zpos m) e).
Proof.
  intros Hv. destruct (f32_valid_finite sg m e Hv) as (Hm & He & Hn).
  split; [apply Z.shiftl_nonneg; lia|]. split; [|split; [|split]].
  - intros Hlt. replace e with (- (- e)) by lia. rewrite shiftl_neg_div by lia.
    assert (Hp : 2 ^ 10 <= 2 ^ (- e)) by (apply Z.pow_le_mono_r; lia).
    apply Z.div_lt_upper_bound; [lia|]. change (2 ^ 24) with 16777216 in Hm.
    change (2 ^ 10) with 1024 in Hp. nia.
  - intros ->. apply (shiftl_neg_div m 9). lia.
  - intros ->. apply (shiftl_neg_div m 8). lia.
  - intros Hgt. specialize (Hn ltac:(lia)). change (2 ^ 23) with 8388608 in Hn.
    destruct (Z_lt_le_dec e 0) as [Hneg|Hpos].
    + replace e with (- (- e)) by lia. rewrite shiftl_neg_div by lia.
      assert (Hp : 2 ^ (- e) <= 2 ^ 7) by (apply Z.pow_le_mono_r; lia).
      assert (Hp0 : 0 < 2 ^ (- e)) by (apply Z.pow_pos_nonneg; lia).
      change (2 ^ 7) with 128 in Hp.
      apply Z.div_le_lower_bound; [lia|]. nia.
    + rewrite Z.shiftl_mul_pow2 by lia.
      assert (Hp0 : 1 <= 2 ^ e) by (apply (Z.pow_le_mono_r 2 0 e); lia). nia.
Qed.

Lemma truncate_finite (sg : bool) (m : positive) (e : Z) :
  truncate (inject_Z (if sg then Zneg m else Zpos m) * pow2Q e)
  = if sg then - Z.shiftl (Zpos m) e else Z.shiftl (Zpos m) e.
Proof.
  unfold truncate. destruct e as [|p|p].
  - unfold pow2Q. rewrite Z.shiftl_0_r.
    destruct sg; cbn [Qmult Qnum Qden inject_Z]; rewrite Z.mul_1_r;
      change (Z.pos (1 * 1)) with 1; rewrite Z.quot_1_r; reflexivity.
  - unfold pow2Q. rewrite Z.shiftl_mul_pow2 by lia.
    destruct sg; cbn [Qmult Qnum Qden inject_Z];
      change (Z.pos (1 * 1)) with 1; rewrite Z.quot_1_r; lia.
  - unfold pow2Q.
    change (Z.neg p) with (- Z.pos p). rewrite shiftl_neg_div by lia.
    assert (Hpow : Z.pos (1 * 2 ^ p) = 2 ^ Z.pos p)
      by (rewrite Pos.mul_1_l; apply Pos2Z.inj_pow).
    assert (Hp0 : 0 < 2 ^ Z.pos p) by (apply Z.pow_pos_nonneg; lia).
    destruct sg; cbn [Qmult Qnum Qden inject_Z]; rewrite Hpow.
    + rewrite Z.mul_1_r. change (Z.neg m) with (- Z.pos m).
      rewrite Z.quot_opp_l by lia. rewrite Z.quot_div_nonneg by lia. reflexivity.
    + rewrite Z.mul_1_r. rewrite Z.quot_div_nonneg by lia. reflexivity.
Qed.

Lemma f32_lt_upper (sg : bool) (m : positive) (e : Z) :
  f32_lt f32_32767 (S754_finite sg m e)
  = if sg then false else
      match -9 ?= e with
      | Lt => true
      | Eq => match 16776704 ?= Z.pos m with Lt => true | _ => false end
      | Gt => false
      end.
Proof.
  destruct sg; [reflexivity|].
  unfold f32_lt, SFltb, f32_32767. cbn [SFcompare].
  destruct (-9 ?= e); reflexivity.
Qed.

Lemma f32_lt_lower (sg : bool) (m : positive) (e : Z) :
  f32_lt (S754_finite sg m e) f32_m32768
  = if sg then
      match e ?= -8 with
      | Gt => true
      | Eq => match Z.pos m ?= 8388608 with Gt => true | _ => false end
      | Lt => false
      end
    else false.
Proof.
  destruct sg; [|reflexivity].
  unfold f32_lt, SFltb, f32_m32768. cbn [SFcompare].
  destruct (e ?= -8); try reflexivity.
  cbn [Z.compare]. unfold Pos.compare.
  destruct (Pos.compare_cont Eq m 8388608); reflexivity.
Qed.

Lemma f32_to_int16_in_range (sg : bool) (m : positive) (e : Z) (v : Z) :
  v = (if sg then - Z.shiftl (Zpos m) e else Z.shiftl (Zpos m) e) ->
  -32768 <= v <= 32767 ->
  f32_to_int16 (S754_finite sg m e) = Some v.
Proof.
  intros -> Hr. unfold f32_to_int16.
  destruct (Z.leb_spec (-32768)
              (if sg then - Z.shiftl (Zpos m) e else Z.shiftl (Zpos m) e)); [|lia].
  destruct (Z.leb_spec (if sg then - Z.shiftl (Zpos m) e else Z.shiftl (Zpos m) e)
              32767); [|lia].
  reflexivity.
Qed.

(** Clamping the float and then converting it is truncating its value
    and then clamping the integer; the conversion is always defined,
    except for a NaN. *)
Lemma clamp_then_cast (s : float32) :
  f32_valid s = true ->
  f32_to_int16
    (let s := if f32_lt f32_32767 s then f32_32767 else s in
     if f32_lt s f32_m32768 then f32_m32768 else s)
  = truncated_sample s.
Proof.
  intros Hv. destruct s as [sg|sg| |sg m e].
  - destruct sg; reflexivity.
  - destruct sg; reflexivity.
  - reflexivity.
  - destruct (magnitude_bounds sg m e Hv) as (H0 & Hlow & H9 & H8 & Hhigh).
    destruct (f32_valid_finite sg m e Hv) as (Hm & He & Hn).
    change (2 ^ 24) with 16777216 in Hm. change (2 ^ 23) with 8388608 in Hn.
    clear Hv.
    unfold truncated_sample, f32_to_Q. cbn [mbind option_bind].
    rewrite truncate_finite. unfold clamp. cbv zeta.
    rewrite f32_lt_upper.
    destruct sg.
    + (* negative: only the lower bound can apply *)
      rewrite f32_lt_lower.
      destruct (Z.compare_spec e (-8)) as [E|E|E].
      * specialize (H8 E). specialize (Hn ltac:(lia)).
        destruct (Z.compare_spec (Z.pos m) 8388608) as [Em|Em|Em].
        -- apply f32_to_int16_in_range; [|lia].
           rewrite H8, Em. reflexivity.
        -- exfalso. lia.
        -- change (f32_to_int16 f32_m32768) with (Some (-32768)).
           f_equal. assert (32768 <= Z.pos m / 256) by zmod. lia.
      * assert (HV : Z.shiftl (Z.pos m) e <= 32768).
        { destruct (Z_lt_le_dec e (-9)); [specialize (Hlow ltac:(lia)); lia|].
          rewrite (H9 ltac:(lia)). zmod. }
        apply f32_to_int16_in_range; lia.
      * specialize (Hhigh ltac:(lia)).
        change (f32_to_int16 f32_m32768) with (Some (-32768)).
        f_equal. lia.
    + (* positive: only the upper bound can apply *)
      destruct (Z.compare_spec (-9) e) as [E|E|E].
      * specialize (H9 ltac:(lia)).
        destruct (Z.compare_spec 16776704 (Z.pos m)) as [Em|Em|Em].
        -- rewrite f32_lt_lower. apply f32_to_int16_in_range; [|lia].
           rewrite H9, <- Em. reflexivity.
        -- change (f32_lt f32_32767 f32_m32768) with false. cbv iota.
           change (f32_to_int16 f32_32767) with (Some 32767).
           f_equal. assert (32767 <= Z.pos m / 512) by zmod. lia.
        -- rewrite f32_lt_lower. assert (Z.pos m / 512 <= 32767) by zmod.
           apply f32_to_int16_in_range; lia.
      * assert (HV : 32768 <= Z.shiftl (Z.pos m) e).
        { destruct (Z.eq_dec e (-8)) as [E8|E8].
          - rewrite (H8 E8). specialize (Hn ltac:(lia)). zmod.
          - specialize (Hhigh ltac:(lia)). lia. }
        change (f32_lt f32_32767 f32_m32768) with false. cbv iota.
        change (f32_to_int16 f32_32767) with (Some 32767).
        f_equal. lia.
      * specialize (Hlow ltac:(lia)). rewrite f32_lt_lower.
        apply f32_to_int16_in_range; lia.
Qed.

(** C5, as amended. For every input sample [x] and every snapshot
    [(vol, mute)], with [g = 0] if [mute] is set and [g = vol] otherwise
    and [s] the single-precision product [(x * g) * 32767]: the emitted
    16-bit sample is the value of [s] truncated toward zero and clamped
    to [-32768 .. 32767] (an infinite [s] giving the bound of its sign);
    it is defined and in range whenever [s] is not a NaN. *)
Theorem codec_sample_truncated (x vol : float32) (mute : Z) :
  f32_valid x = true -> f32_valid vol = true ->
  output_gain vol mute = (if mute =? 0 then vol else f32_zero)
  /\ output_convert_sample x (output_gain vol mute)
     = truncated_sample (f32_mul (f32_mul x (output_gain vol mute)) f32_32767)
  /\ (f32_mul (f32_mul x (output_gain vol mute)) f32_32767 <> S754_nan ->
      exists n, output_convert_sample x (output_gain vol mute) = Some n
                /\ -32768 <= n <= 32767).
Proof.
  intros Hx Hvol.
  assert (Hg : f32_valid (output_gain vol mute) = true)
    by (unfold output_gain; destruct (mute =? 0); [exact Hvol | reflexivity]).
  assert (Hv : f32_valid (f32_mul (f32_mul x (output_gain vol mute)) f32_32767) = true)
    by (apply f32_mul_valid; [apply f32_mul_valid; assumption | reflexivity]).
  assert (Hc : output_convert_sample x (output_gain vol mute)
               = truncated_sample (f32_mul (f32_mul x (output_gain vol mute)) f32_32767))
    by (unfold output_convert_sample; apply clamp_then_cast; exact Hv).
  split; [unfold output_gain; destruct (mute =? 0); reflexivity|].
  split; [exact Hc|].
  intros Hnan. rewrite Hc.
  destruct (f32_mul (f32_mul x (output_gain vol mute)) f32_32767) as [sg|sg| |sg m e];
    [| |congruence|]; unfold truncated_sample, f32_to_Q; cbn [mbind option_bind];
    eexists; (split; [reflexivity|]); unfold clamp; try destruct sg; lia.
Qed.
End CodecStep.

Section SampleClock.

Lemma ns_per_period_value : ns_per_period = 10000000.
Proof. reflexivity. Qed.

(** C6, as amended. For every zero-timestamp query at host time [now],
    at or after the [ticks_at_zero] that [start_io] stored, for which
    the elapsed ticks times the timebase numerator stay below [2^64]
    (the product the code forms in 64-bit arithmetic): with [elapsed_ns]
    the elapsed ticks converted to nanoseconds, rounded down, the sample
    time is the Float64 of [floor(elapsed_ns / ns_per_period) * P], an
    integer below [2^53]; the host time is [ticks_at_zero] plus that
    many periods in host ticks, between [ticks_at_zero] and [now]; both
    name the same period boundary, the host time being the sample time
    converted at the fixed rate and rounded down to a tick. When 0, 15
    and 25 ms have elapsed the sample time is 0, 480 and 960. *)
Theorem zero_timestamp_coherent (drv : DriverState) (id now : Z) :
  0 < timebase_numer drv < 2 ^ 32 -> 0 < timebase_denom drv < 2 ^ 32 ->
  0 <= clock_anchor drv id <= now -> now < u64_modulus ->
  (now - clock_anchor drv id) * timebase_numer drv < u64_modulus ->
  exists elapsed_ns periods host_time,
    elapsed_ns
    = (now - clock_anchor drv id) * timebase_numer drv / timebase_denom drv
    /\ periods = elapsed_ns / ns_per_period
    /\ driver_GetZeroTimeStamp (Some drv) id now
       = Some (kAudioHardwareNoError,
               Some (f64_of_Z (periods * CLOCK_PERIOD_FRAMES), host_time, 1))
    /\ 0 <= periods * CLOCK_PERIOD_FRAMES < 2 ^ 53
    /\ host_time
       = clock_anchor drv id
         + periods * ns_per_period * timebase_denom drv / timebase_numer drv
    /\ clock_anchor drv id <= host_time <= now
    /\ host_time
       = clock_anchor drv id
         + (periods * CLOCK_PERIOD_FRAMES) * 1000000000 * timebase_denom drv
           / (SAMPLE_RATE * timebase_numer drv)
    /\ (elapsed_ns = 0 ->
        f64_of_Z (periods * CLOCK_PERIOD_FRAMES) = S754_zero false)
    /\ (elapsed_ns = 15000000 ->
        f64_of_Z (periods * CLOCK_PERIOD_FRAMES) = f64_of_Z 480)
    /\ (elapsed_ns = 25000000 ->
        f64_of_Z (periods * CLOCK_PERIOD_FRAMES) = f64_of_Z 960).
Proof.
  unfold clock_anchor. intros Hnum Hden Ht0 Hnow Hfit.
  set (t0 := if is_output_device id then outputHostTicksAtZero drv
             else inputHostTicksAtZero drv) in *.
  unfold driver_GetZeroTimeStamp. fold t0.
  destruct (Z.eqb_spec (timebase_denom drv) 0) as [|_]; [lia|].
  destruct (Z.eqb_spec (timebase_numer drv) 0) as [|_]; [lia|].
  cbn [orb]. unfold zero_timestamp_elapsed_ns. rewrite ns_per_period_value.
  set (numer := timebase_numer drv) in *. set (denom := timebase_denom drv) in *.
  clearbody numer denom t0.
  unfold u64_modulus in Hnow, Hfit.
  assert (Hel : u64_sub now t0 = now - t0).
  { unfold u64_sub, wrap64, u64_modulus. apply Z.mod_small. lia. }
  rewrite Hel.
  assert (HX : u64_mul (now - t0) numer = (now - t0) * numer).
  { unfold u64_mul, wrap64, u64_modulus. apply Z.mod_small.
    split; [apply Z.mul_nonneg_nonneg; lia | exact Hfit]. }
  rewrite HX.
  set (X := (now - t0) * numer) in *.
  assert (HX0 : 0 <= X) by (unfold X; apply Z.mul_nonneg_nonneg; lia).
  assert (HXeq : X = numer * (now - t0)) by (unfold X; ring).
  clearbody X.
  set (ens := X / denom).
  assert (Hens : 0 <= ens /\ ens * denom <= X).
  { unfold ens. split; [apply Z.div_pos; lia|].
    rewrite Z.mul_comm. apply Z.mul_div_le. lia. }
  destruct Hens as (Hens0 & Hens1).
  set (P := ens / 10000000).
  assert (HP : 0 <= P /\ P * 10000000 <= ens).
  { unfold P. split; [apply Z.div_pos; lia|].
    rewrite Z.mul_comm. apply Z.mul_div_le. lia. }
  destruct HP as (HP0 & HP1).
  assert (Hens2 : ens < 2 ^ 64).
  { assert (ens * 1 <= ens * denom) by (apply Z.mul_le_mono_nonneg_l; lia). lia. }
  change (2 ^ 64) with 18446744073709551616 in *.
  assert (HPD : P * 10000000 * denom <= X).
  { assert (P * 10000000 * denom <= ens * denom)
      by (apply Z.mul_le_mono_nonneg_r; lia). lia. }
  assert (HPD0 : 0 <= P * 10000000 * denom)
    by (apply Z.mul_nonneg_nonneg; lia).
  assert (Hm1 : u64_mul P CLOCK_PERIOD_FRAMES = P * CLOCK_PERIOD_FRAMES).
  { unfold u64_mul, wrap64, u64_modulus, CLOCK_PERIOD_FRAMES. apply Z.mod_small. lia. }
  assert (Hm2 : u64_mul P 10000000 = P * 10000000).
  { unfold u64_mul, wrap64, u64_modulus. apply Z.mod_small. lia. }
  assert (Hm3 : u64_mul (P * 10000000) denom = P * 10000000 * denom).
  { unfold u64_mul, wrap64, u64_modulus. apply Z.mod_small. lia. }
  set (Y := P * 10000000 * denom / numer).
  assert (HY : 0 <= Y <= now - t0).
  { unfold Y. split; [apply Z.div_pos; lia|].
    apply Z.div_le_upper_bound; [lia|]. lia. }
  assert (Hm4 : u64_add t0 Y = t0 + Y).
  { unfold u64_add, wrap64, u64_modulus. apply Z.mod_small. lia. }
  exists ens, P, (t0 + Y). split; [reflexivity|]. split; [reflexivity|].
  split; [rewrite Hm1, Hm2, Hm3; fold Y; rewrite Hm4; reflexivity|].
  split; [unfold CLOCK_PERIOD_FRAMES; lia|].
  split; [reflexivity|]. split; [lia|].
  split.
  { f_equal. unfold Y, CLOCK_PERIOD_FRAMES, SAMPLE_RATE.
    replace (P * 480 * 1000000000 * denom) with ((P * 10000000 * denom) * 48000) by ring.
    replace (48000 * numer) with (numer * 48000) by ring.
    rewrite Z.div_mul_cancel_r by lia. reflexivity. }
  unfold P. split; [|split]; intros ->; reflexivity.
Qed.
End SampleClock.

Section Framing.
Implicit Types (fd : fd_state) (buf bs : list byte).

Lemma deliverable_data bs fd :
  bs <> [] -> deliverable (Data bs :: fd) = bs ++ deliverable fd.
Proof. destruct bs; [congruence | reflexivity]. Qed.

(** The loop succeeds exactly when the descriptor delivers the bytes it
    still needs before failing, however they are split into chunks. *)
Lemma read_loop_spec (fuel : nat) : forall fd buf n total,
  total - n <= Z.of_nat fuel ->
  (total - n <= Z.of_nat (length (deliverable fd)) ->
   exists fd', read_loop fuel fd buf n total
               = Some (inr (buf ++ take (Z.to_nat (total - n)) (deliverable fd)), fd')
               /\ deliverable fd' = drop (Z.to_nat (total - n)) (deliverable fd))
  /\ (Z.of_nat (length (deliverable fd)) < total - n ->
      exists fd', read_loop fuel fd buf n total = Some (inl tt, fd')).
Proof.
  induction fuel as [|fuel IH]; intros fd buf n total Hfuel.
  - assert (Hn : total <= n) by lia. cbn [read_loop].
    destruct (Z.ltb_spec n total); [lia|]. split; [|lia].
    intros _. exists fd. replace (Z.to_nat (total - n)) with 0%nat by lia.
    rewrite take_0, drop_0, app_nil_r. auto.
  - cbn [read_loop]. destruct (Z.ltb_spec n total) as [Hlt|Hge].
    2:{ split; [|lia]. intros _. exists fd.
        replace (Z.to_nat (total - n)) with 0%nat by lia.
        rewrite take_0, drop_0, app_nil_r. auto. }
    destruct fd as [|[bs|] fd]; cbn [sys_read].
    + cbn [Z.leb Z.compare]. split; [simpl; lia|]. intros _. eauto.
    + destruct (Z.ltb_spec (total - n) (Z.of_nat (length bs))) as [Hpart|Hall].
      * (* the chunk holds more than the loop still needs *)
        assert (Hne : bs <> []) by (destruct bs; simpl in *; [lia|congruence]).
        destruct (Z.leb_spec (total - n) 0); [lia|].
        rewrite (deliverable_data bs fd Hne), length_app.
        split; [|lia]. intros _.
        destruct (IH (Data (drop (Z.to_nat (total - n)) bs) :: fd)
                    (buf ++ take (Z.to_nat (total - n)) bs) (n + (total - n)) total
                    ltac:(lia)) as (Hok & _).
        destruct Hok as (fd' & Hrun & Hdel); [lia|].
        exists fd'. rewrite Hrun.
        replace (Z.to_nat (total - (n + (total - n)))) with 0%nat in * by lia.
        rewrite take_0, drop_0, app_nil_r in *.
        rewrite take_app_le by lia. split; [reflexivity|].
        rewrite Hdel, deliverable_data.
        -- rewrite drop_app_le by lia. reflexivity.
        -- intros E. apply (f_equal length) in E. rewrite length_drop in E.
           simpl in E. lia.
      * destruct bs as [|b bs].
        -- cbn [length Z.of_nat Z.leb Z.compare]. split; [simpl; lia|].
           intros _. eauto.
        -- set (c := b :: bs) in *.
           assert (Hne : c <> []) by (unfold c; congruence).
           assert (Hlen : 0 < Z.of_nat (length c)) by (unfold c; simpl; lia).
           destruct (Z.leb_spec (Z.of_nat (length c)) 0); [lia|].
           rewrite (deliverable_data c fd Hne), length_app.
           destruct (IH fd (buf ++ c) (n + Z.of_nat (length c)) total ltac:(lia))
             as (Hok & Hfail).
           split.
           ++ intros Hdel. destruct Hok as (fd' & Hrun & Hdel'); [lia|].
              exists fd'. rewrite Hrun. split.
              ** f_equal. f_equal. rewrite <- app_assoc. f_equal.
                 rewrite take_app_ge by lia.
                 replace (Z.to_nat (total - n) - length c)%nat
                   with (Z.to_nat (total - (n + Z.of_nat (length c)))) by lia.
                 reflexivity.
              ** rewrite Hdel', drop_app_ge by lia.
                 replace (Z.to_nat (total - n) - length c)%nat
                   with (Z.to_nat (total - (n + Z.of_nat (length c)))) by lia.
                 reflexivity.
           ++ intros Hdel. destruct Hfail as (fd' & Hrun); [lia|]. eauto.
    + cbn [Z.leb Z.compare]. split; [simpl; lia|]. intros _. eauto.
Qed.

Lemma byte_val_range (b : byte) : 0 <= byte_val b < 256.
Proof.
  unfold byte_val. pose proof (Byte.to_N_bounded b) as H. lia.
Qed.

(** The header as the code assembles it is the big-endian number. *)
Lemma header_value (h0 h1 : byte) :
  Z.lor (Z.shiftl (byte_val h0) 8) (byte_val h1) mod 2 ^ 16
  = wire_length h0 h1
  /\ 0 <= wire_length h0 h1 < 2 ^ 16.
Proof.
  pose proof (byte_val_range h0) as H0. pose proof (byte_val_range h1) as H1.
  unfold wire_length.
  assert (Hd : Z.land (Z.shiftl (byte_val h0) 8) (byte_val h1) = 0).
  { apply Z.bits_inj'. intros n Hn. rewrite Z.land_spec, Z.bits_0.
    destruct (Z_lt_le_dec n 8).
    - rewrite Z.shiftl_spec_low by lia. reflexivity.
    - rewrite <- (Z.mod_small (byte_val h1) (2 ^ 8)) by (change (2 ^ 8) with 256; lia).
      rewrite Z.mod_pow2_bits_high by lia. apply andb_false_r. }
  rewrite <- Z.lxor_lor by exact Hd. rewrite <- Z.add_nocarry_lxor by exact Hd.
  rewrite Z.shiftl_mul_pow2 by lia. change (2 ^ 8) with 256.
  change (2 ^ 16) with 65536. rewrite Z.mod_small by lia. lia.
Qed.

Lemma framed_read_spec fd (bufsize : Z) :
  match deliverable fd with
  | h0 :: h1 :: rest =>
      if decide (1 <= wire_length h0 h1 <= bufsize
                 /\ wire_length h0 h1 <= Z.of_nat (length rest))
      then exists fd',
          framed_read fd bufsize
          = Some (inr (wire_length h0 h1,
                       take (Z.to_nat (wire_length h0 h1)) rest), fd')
          /\ deliverable fd' = drop (Z.to_nat (wire_length h0 h1)) rest
      else exists fd', framed_read fd bufsize = Some (inl tt, fd')
  | _ => exists fd', framed_read fd bufsize = Some (inl tt, fd')
  end.
Proof.
  unfold framed_read.
  destruct (read_loop_spec 2 fd [] 0 2 ltac:(lia)) as (Hok & Hfail).
  destruct (deliverable fd) as [|h0 [|h1 rest]] eqn:Hdel.
  - destruct Hfail as (fd1 & ->); [simpl; lia|]. cbn [mbind option_bind]. eauto.
  - destruct Hfail as (fd1 & ->); [simpl; lia|]. cbn [mbind option_bind]. eauto.
  - destruct Hok as (fd1 & -> & Hdel1); [simpl; lia|].
    cbn [mbind option_bind]. change (Z.to_nat (2 - 0)) with 2%nat in *.
    change (take 2 (h0 :: h1 :: rest)) with [h0; h1].
    change (drop 2 (h0 :: h1 :: rest)) with rest in Hdel1. cbn [app].
    destruct (header_value h0 h1) as (-> & Hrange).
    set (L := wire_length h0 h1) in *. clearbody L.
    destruct (read_loop_spec (Z.to_nat L) fd1 [] 0 L ltac:(lia)) as (Hok2 & Hfail2).
    rewrite Hdel1, Z.sub_0_r in *.
    destruct (Z.eqb_spec L 0) as [E0|N0]; cbn [orb].
    { case_decide; [lia|]. eauto. }
    destruct (Z.gtb_spec L bufsize) as [Hbig|Hfit].
    { case_decide; [lia|]. eauto. }
    case_decide as Hd.
    + destruct Hok2 as (fd2 & -> & Hdel2); [lia|].
      cbn [mbind option_bind app]. eauto.
    + destruct Hfail2 as (fd2 & ->); [lia|]. cbn [mbind option_bind]. eauto.
Qed.

(** C9. Reading a wire frame with room for [OPUS_MAX_PACKET] = 1500
    bytes always returns, and it fails exactly when the transport fails
    (the descriptor delivers fewer than two header bytes, or fewer than
    [L] payload bytes, before it fails) or the big-endian length [L] of
    the header is 0 or exceeds 1500. When [1 <= L <= 1500] and [L] bytes
    of payload arrive, in whatever chunks, it returns that [L] and those
    bytes and leaves the rest of the stream. On a failure the inner loop
    of the ingress worker breaks, to reconnect. *)
Theorem framed_read_fails_iff fd :
  exists r fd',
    framed_read fd OPUS_MAX_PACKET = Some (r, fd')
    /\ (r = inl tt <->
        (Z.of_nat (length (deliverable fd)) < 2
         \/ exists h0 h1 rest,
             deliverable fd = h0 :: h1 :: rest
             /\ (~ 1 <= wire_length h0 h1 <= 1500
                 \/ Z.of_nat (length rest) < wire_length h0 h1)))
    /\ (forall h0 h1 rest,
          deliverable fd = h0 :: h1 :: rest ->
          1 <= wire_length h0 h1 <= 1500 ->
          wire_length h0 h1 <= Z.of_nat (length rest) ->
          r = inr (wire_length h0 h1, take (Z.to_nat (wire_length h0 h1)) rest)
          /\ deliverable fd' = drop (Z.to_nat (wire_length h0 h1)) rest)
    /\ (forall (D : Type) (opus_decode : D -> list byte -> Z -> D * Z * list Z)
               (dec : D) (drv : DriverState),
          r = inl tt ->
          input_transport_step opus_decode dec fd drv
          = Some (LoopBreak, dec, fd', drv)).
Proof.
  pose proof (framed_read_spec fd OPUS_MAX_PACKET) as H.
  unfold OPUS_MAX_PACKET in H.
  assert (Hstep : forall r fd',
    framed_read fd OPUS_MAX_PACKET = Some (r, fd') ->
    forall (D : Type) (opus_decode : D -> list byte -> Z -> D * Z * list Z)
           (dec : D) (drv : DriverState),
      r = inl tt ->
      input_transport_step opus_decode dec fd drv = Some (LoopBreak, dec, fd', drv)).
  { intros r fd' Hr D dcd dec drv ->. unfold input_transport_step. rewrite Hr.
    reflexivity. }
  unfold OPUS_MAX_PACKET in *.
  destruct (deliverable fd) as [|h0 [|h1 rest]] eqn:Hdel.
  - destruct H as (fd' & Hr). exists (inl tt), fd'. split; [exact Hr|].
    split; [split; [intros _; left; simpl; lia | reflexivity]|].
    split; [intros ? ? ? [=]|]. apply Hstep. exact Hr.
  - destruct H as (fd' & Hr). exists (inl tt), fd'. split; [exact Hr|].
    split; [split; [intros _; left; simpl; lia | reflexivity]|].
    split; [intros ? ? ? [=]|]. apply Hstep. exact Hr.
  - case_decide as Hd.
    + destruct H as (fd' & Hr & Hdel'). eexists _, fd'. split; [exact Hr|].
      split; [split|split].
      * intros [=].
      * intros [Hshort|(a & b & c & [= <- <- <-] & Hbad)]; [simpl in Hshort; lia|].
        exfalso. lia.
      * intros a b c [= <- <- <-] _ _. auto.
      * apply Hstep. exact Hr.
    + destruct H as (fd' & Hr). exists (inl tt), fd'. split; [exact Hr|].
      split; [split|split].
      * intros _. right. exists h0, h1, rest. split; [reflexivity|]. lia.
      * reflexivity.
      * intros a b c [= <- <- <-] H1 H2. exfalso. lia.
      * apply Hstep. exact Hr.
Qed.
End Framing.

(** * Counterexamples to the claims as first stated *)

(** C2 as first stated fails where the head index wraps around: the ring
    [ring_at_wrap] satisfies [tail <= head <= tail + RING_CAPACITY], a write
    of one frame succeeds, and afterwards [head = 0 < tail]; the head index
    has decreased. *)
Lemma ring_inv_lost_when_head_wraps :
  ring_wf ring_at_wrap /\ ring_inv ring_at_wrap
  /\ exists rb',
      ring_write ring_at_wrap [true; true] 1 = Some (rb', 1)
      /\ ~ ring_inv rb'
      /\ head rb' < head ring_at_wrap.
Proof.
  split; [repeat split; vm_compute; first [reflexivity | discriminate]|].
  split; [split; vm_compute; discriminate|].
  eexists. split; [vm_compute; reflexivity|].
  cbn [head tail]. split.
  - unfold ring_inv. cbn [head tail]. unfold u64_modulus. lia.
  - unfold ring_at_wrap, u64_modulus. cbn [head]. lia.
Qed.

(** C5 as first stated fails for the sample 0.25 at full volume: the exact
    product is 8191.75, which rounds to 8192, and the code emits 8191. *)
Lemma codec_sample_not_rounded :
  output_convert_sample f32_quarter (output_gain f32_one 0) = Some 8191
  /\ (exists q, f32_to_Q f32_quarter = Some q /\ (q == 1 # 4)%Q)
  /\ (exists q, f32_to_Q f32_one = Some q /\ (q == 1)%Q)
  /\ codec_sample_spec (1 # 4) 1 false = 8192
  /\ output_convert_sample f32_quarter (output_gain f32_one 0)
     <> Some (codec_sample_spec (1 # 4) 1 false).
Proof.
  split; [vm_compute; reflexivity|].
  split; [eexists; split; [reflexivity | reflexivity]|].
  split; [eexists; split; [reflexivity | reflexivity]|].
  split; [vm_compute; reflexivity|].
  vm_compute. discriminate.
Qed.

(** C6 as first stated fails once the product of the elapsed ticks and
    the timebase numerator reaches [2^64]. The output device is started
    at tick 1000 on a machine whose timebase is 125/3. A query
    147573952589676412 ticks later returns the sample time
    295147905179040; a query one tick later, where the product wraps,
    returns the sample time 0 and the host time 1000, while
    [floor(elapsed_ns / ns_per_period) * P] is still 295147905179040. *)
Lemma zero_timestamp_lost_when_product_wraps :
  driver_StartIO (Some initialized_driver) kObjectID_OutputDevice 1000
  = (kAudioHardwareNoError, Some started_driver)
  /\ 0 <= clock_anchor started_driver kObjectID_OutputDevice <= 147573952589677412
  /\ 147573952589677413 < u64_modulus
  /\ driver_GetZeroTimeStamp (Some started_driver) kObjectID_OutputDevice
       147573952589677412
     = Some (kAudioHardwareNoError,
             Some (f64_of_Z 295147905179040, 147573952589521000, 1))
  /\ driver_GetZeroTimeStamp (Some started_driver) kObjectID_OutputDevice
       147573952589677413
     = Some (kAudioHardwareNoError, Some (f64_of_Z 0, 1000, 1))
  /\ (147573952589677413 - clock_anchor started_driver kObjectID_OutputDevice)
     * timebase_numer started_driver / timebase_denom started_driver
     / ns_per_period * CLOCK_PERIOD_FRAMES
     = 295147905179040
  /\ f64_of_Z 0 <> f64_of_Z 295147905179040.
Proof.
  split; [reflexivity|].
  split; [split; vm_compute; discriminate|].
  split; [vm_compute; reflexivity|].
  split; [vm_compute; reflexivity|].
  split; [vm_compute; reflexivity|].
  split; [vm_compute; reflexivity|].
  vm_compute. discriminate.
Qed.

(** * The theorems at concrete inputs *)

(** 8193 frames into a fresh ring. *)
Lemma ring_write_returns_min_witness :
  exists rb',
    ring_write (ring_init false) (replicate (Z.to_nat 16386) true) 8193
    = Some (rb', 8192)
    /\ u64_sub (head rb') (tail rb') = 8192.
Proof.
  destruct (ring_write_returns_min (ring_init false)
              (replicate (Z.to_nat 16386) true) 8193)
    as (rb' & Hw & _ & _ & _ & _ & _ & _ & _ & Hfull).
  - repeat split; vm_compute; first [reflexivity | discriminate].
  - split; vm_compute; first [reflexivity | discriminate].
  - vm_compute. discriminate.
  - destruct Hfull as (Hm & Hd & _); [reflexivity | reflexivity |].
    exists rb'. rewrite Hm in Hw. split; [exact Hw | exact Hd].
Defined.

(** Two frames into a fresh ring, and a read of two frames from it. *)
Lemma ring_invariant_preserved_witness :
  ring_inv (ring_init false)
  /\ (exists rb' w,
        ring_write (ring_init false) [true; true; true; true] 2 = Some (rb', w)
        /\ ring_wf rb')
  /\ (exists rb' d g,
        ring_read (ring_init false) [true; true; true; true] 2 = Some (rb', d, g)
        /\ ring_wf rb').
Proof.
  destruct (ring_invariant_preserved false (ring_init false) [true; true; true; true] 2)
    as ((_ & Hinit) & (rb1 & w & Hw & Hwf1 & _) & (rb2 & d & g & Hr & Hwf2 & _)).
  - repeat split; vm_compute; first [reflexivity | discriminate].
  - split; vm_compute; first [reflexivity | discriminate].
  - vm_compute. discriminate.
  - split; [exact Hinit|]. split; [exists rb1, w | exists rb2, d, g]; auto.
Defined.

(** Two writes and two reads, interleaved: all six samples are accepted
    and come out in the order they went in. *)
Lemma ring_fifo_order_witness :
  exists rb',
    run_ops (ring_init 0%nat)
      [OpWrite [1; 2; 3; 4]%nat 2; OpRead [0; 0]%nat 1;
       OpWrite [5; 6]%nat 1; OpRead [0; 0; 0; 0]%nat 2] [] []
    = Some (rb', [1; 2; 3; 4; 5; 6]%nat, [1; 2; 3; 4; 5; 6]%nat)
    /\ contents rb' = [].
Proof.
  destruct (ring_fifo_order 0%nat
              [OpWrite [1; 2; 3; 4]%nat 2; OpRead [0; 0]%nat 1;
               OpWrite [5; 6]%nat 1; OpRead [0; 0; 0; 0]%nat 2])
    as (rb' & acc & del & Hrun & _ & _ & Hspec & _).
  - repeat constructor; vm_compute; first [reflexivity | discriminate].
  - assert (Hs : fifo_spec []
                   [OpWrite [1; 2; 3; 4]%nat 2; OpRead [0; 0]%nat 1;
                    OpWrite [5; 6]%nat 1; OpRead [0; 0; 0; 0]%nat 2] [] []
                 = ([], [1; 2; 3; 4; 5; 6]%nat, [1; 2; 3; 4; 5; 6]%nat))
      by (vm_compute; reflexivity).
    rewrite Hs in Hspec. injection Hspec as Hc Ha Hd.
    rewrite <- Ha, <- Hd in Hrun.
    exists rb'. split; [exact Hrun | symmetry; exact Hc].
Defined.

(** 512 frames read from the empty ingress ring of a fresh driver. *)
Lemma do_io_read_pads_with_silence_witness :
  exists drv' buf',
    driver_DoIOOperation (Some initialized_driver) kObjectID_InputDevice
      kAudioServerPlugInIOOperationReadInput 512 (replicate (Z.to_nat 1024) f32_one)
    = Some (kAudioHardwareNoError, Some drv', buf')
    /\ take (Z.to_nat (512 * NUM_CHANNELS)) buf'
       = replicate (Z.to_nat (512 * NUM_CHANNELS)) f32_zero.
Proof.
  destruct (do_io_read_pads_with_silence initialized_driver 512
              (replicate (Z.to_nat 1024) f32_one))
    as (drv' & buf' & Hio & _ & Hzero).
  - repeat split; vm_compute; first [reflexivity | discriminate].
  - split; vm_compute; first [reflexivity | discriminate].
  - vm_compute. discriminate.
  - exists drv', buf'. split; [exact Hio|]. apply Hzero; reflexivity.
Defined.

(** The sample 0.25 at full volume, not muted. *)
Lemma codec_sample_truncated_witness :
  output_convert_sample f32_quarter (output_gain f32_one 0)
  = truncated_sample (f32_mul (f32_mul f32_quarter (output_gain f32_one 0)) f32_32767).
Proof.
  destruct (codec_sample_truncated f32_quarter f32_one 0) as (_ & H & _).
  - vm_compute. reflexivity.
  - vm_compute. reflexivity.
  - exact H.
Defined.

(** A query 360000 ticks (15 ms) after the output device started at tick
    1000. *)
Lemma zero_timestamp_coherent_witness :
  exists host_time,
    driver_GetZeroTimeStamp
      (snd (driver_StartIO (Some initialized_driver) kObjectID_OutputDevice 1000))
      kObjectID_OutputDevice 361000
    = Some (kAudioHardwareNoError, Some (f64_of_Z 480, host_time, 1))
    /\ host_time <= 361000.
Proof.
  destruct (zero_timestamp_coherent started_driver kObjectID_OutputDevice 361000)
    as (ens & P & ht & Hens & HP & Hget & _ & _ & Hle & _ & _ & H15 & _).
  - split; vm_compute; first [reflexivity | discriminate].
  - split; vm_compute; first [reflexivity | discriminate].
  - split; vm_compute; first [reflexivity | discriminate].
  - vm_compute. reflexivity.
  - vm_compute. reflexivity.
  - exists ht. split; [|apply Hle].
    rewrite (H15 ltac:(rewrite Hens; vm_compute; reflexivity)) in Hget. exact Hget.
Defined.

(** The output volume set to 0.5. *)
Lemma volume_set_then_get_witness :
  exists drv',
    driver_SetPropertyData (fun _ _ => f32_zero) (Some initialized_driver)
      kObjectID_OutputVolume (LevelProperty kAudioLevelControlPropertyScalarValue)
      4 f32_half
    = Some (kAudioHardwareNoError, Some drv')
    /\ driver_GetPropertyData (fun _ => f32_zero) (fun _ _ => f32_zero) (Some drv')
         kObjectID_OutputVolume kAudioLevelControlPropertyScalarValue 4 f32_zero
       = Some (kAudioHardwareNoError, Some f32_half).
Proof.
  destruct (volume_set_then_get (fun _ => f32_zero) (fun _ _ => f32_zero)
              initialized_driver kObjectID_OutputVolume 4 f32_half f32_zero)
    as ((drv' & r & Hset & Hget & Hin & _) & _).
  - reflexivity.
  - vm_compute. discriminate.
  - exists drv'. split; [exact Hset|].
    rewrite Hget, (Hin eq_refl eq_refl). reflexivity.
Defined.

(** A three-byte frame arriving in chunks of one, three and one bytes. *)
Lemma framed_read_fails_iff_witness :
  exists fd',
    framed_read [Data ["000"%byte]; Data ["003"%byte; "a"%byte; "b"%byte];
                 Data ["c"%byte]] OPUS_MAX_PACKET
    = Some (inr (3, ["a"%byte; "b"%byte; "c"%byte]), fd').
Proof.
  destruct (framed_read_fails_iff
              [Data ["000"%byte]; Data ["003"%byte; "a"%byte; "b"%byte];
               Data ["c"%byte]])
    as (r & fd' & Hr & _ & Hok & _).
  destruct (Hok "000"%byte "003"%byte ["a"%byte; "b"%byte; "c"%byte])
    as (-> & _).
  - reflexivity.
  - vm_compute. split; discriminate.
  - vm_compute. discriminate.
  - exists fd'. exact Hr.
Defined.

(** A read-input operation addressed to the output device. *)
Lemma do_io_other_operations_do_nothing_witness :
  driver_DoIOOperation (Some initialized_driver) kObjectID_OutputDevice
    kAudioServerPlugInIOOperationReadInput 512 (replicate (Z.to_nat 1024) f32_one)
  = Some (kAudioHardwareNoError, Some initialized_driver,
          replicate (Z.to_nat 1024) f32_one).
Proof.
  apply (do_io_other_operations_do_nothing initialized_driver kObjectID_OutputDevice
           kAudioServerPlugInIOOperationReadInput 512
           (replicate (Z.to_nat 1024) f32_one)).
  - intros [_ H]. discriminate H.
  - intros [H _]. discriminate H.
Defined.

(** * Further properties of the ring *)

Section RingRoundTrips.
Context {A : Type}.
Implicit Types (rb : RingBuffer A) (src dst : list A).

Lemma ring_write_nothing rb src k :
  ring_wf rb -> 0 <= k < u64_modulus ->
  Z.min k (RING_CAPACITY - ring_available rb) = 0 ->
  ring_write rb src k = Some (rb, 0).
Proof.
  intros Hwf Hk Hz. pose proof (ring_available_range rb Hwf) as Hav.
  unfold ring_write. fold (ring_available rb).
  assert (Hfree : u64_sub RING_CAPACITY (ring_available rb)
                  = RING_CAPACITY - ring_available rb).
  { unfold u64_sub, wrap64, u64_modulus, RING_CAPACITY in *. apply Z.mod_small. lia. }
  change (u64_sub (head rb) (tail rb)) with (ring_available rb).
  rewrite Hfree.
  destruct (Z.gtb_spec k (RING_CAPACITY - ring_available rb)) as [Hgt|Hle].
  - assert (E : RING_CAPACITY - ring_available rb = 0) by lia. rewrite E. reflexivity.
  - assert (E : k = 0) by lia. rewrite E. reflexivity.
Qed.

Lemma ring_read_nothing rb dst k :
  ring_wf rb -> 0 <= k < u64_modulus ->
  Z.min k (ring_available rb) = 0 ->
  ring_read rb dst k = Some (rb, dst, 0).
Proof.
  intros Hwf Hk Hz. pose proof (ring_available_range rb Hwf) as Hav.
  unfold ring_read. change (u64_sub (head rb) (tail rb)) with (ring_available rb).
  destruct (Z.gtb_spec k (ring_available rb)) as [Hgt|Hle].
  - assert (E : ring_available rb = 0) by lia. rewrite E. reflexivity.
  - assert (E : k = 0) by lia. rewrite E. reflexivity.
Qed.

(** What [ring_read] returns and leaves behind. *)
Theorem ring_read_returns_min rb dst k :
  ring_wf rb -> 0 <= k < u64_modulus ->
  k * NUM_CHANNELS <= Z.of_nat (length dst) ->
  exists rb' d',
    ring_read rb dst k = Some (rb', d', Z.min k (ring_available rb))
    /\ ring_wf rb'
    /\ samples rb' = samples rb
    /\ head rb' = head rb
    /\ tail rb' = u64_add (tail rb) (Z.min k (ring_available rb))
    /\ ring_available rb' = ring_available rb - Z.min k (ring_available rb)
    /\ d' = take (Z.to_nat (Z.min k (ring_available rb) * NUM_CHANNELS)) (contents rb)
            ++ drop (Z.to_nat (Z.min k (ring_available rb) * NUM_CHANNELS)) dst
    /\ contents rb'
       = drop (Z.to_nat (Z.min k (ring_available rb) * NUM_CHANNELS)) (contents rb)
    /\ (Z.min k (ring_available rb) = 0 -> rb' = rb /\ d' = dst).
Proof.
  intros Hwf Hk Hdst. pose proof (ring_available_range rb Hwf) as Hav.
  destruct (ring_read_spec rb dst k Hwf Hk) as (d & Heq & _).
  { unfold NUM_CHANNELS in *. lia. }
  destruct (ring_read_contents rb dst k _ _ _ Hwf Hk Hdst Heq)
    as (Hwf' & _ & Hav' & _ & _ & Hd & Hc).
  eexists _, d. split; [exact Heq|]. split; [exact Hwf'|].
  split; [reflexivity|]. split; [reflexivity|]. split; [reflexivity|].
  split; [exact Hav'|]. split; [exact Hd|]. split; [exact Hc|].
  intros Hz. rewrite (ring_read_nothing rb dst k Hwf Hk Hz) in Heq.
  rewrite Hz in Heq. injection Heq as E1 E2. split; congruence.
Qed.

(** A full ring takes nothing and an empty ring gives nothing, and
    neither call changes anything. *)
Lemma ring_full_and_empty rb buf k :
  ring_wf rb -> 0 <= k < u64_modulus ->
  (ring_available rb = RING_CAPACITY -> ring_write rb buf k = Some (rb, 0))
  /\ (ring_available rb = 0 -> ring_read rb buf k = Some (rb, buf, 0)).
Proof.
  intros Hwf Hk. split; intros E.
  - apply ring_write_nothing; [assumption..|]. lia.
  - apply ring_read_nothing; [assumption..|]. lia.
Qed.

(** Frames written into an empty ring come back from the next read,
    unchanged and in order, and the ring is empty again, wherever its
    indices stand. *)
Theorem ring_write_then_read rb src dst k :
  ring_wf rb -> ring_available rb = 0 ->
  0 <= k <= RING_CAPACITY ->
  k * NUM_CHANNELS <= Z.of_nat (length src) ->
  k * NUM_CHANNELS <= Z.of_nat (length dst) ->
  exists rb1 rb2 d',
    ring_write rb src k = Some (rb1, k)
    /\ ring_read rb1 dst k = Some (rb2, d', k)
    /\ take (Z.to_nat (k * NUM_CHANNELS)) d' = take (Z.to_nat (k * NUM_CHANNELS)) src
    /\ drop (Z.to_nat (k * NUM_CHANNELS)) d' = drop (Z.to_nat (k * NUM_CHANNELS)) dst
    /\ ring_available rb2 = 0
    /\ contents rb2 = [].
Proof.
  intros Hwf Hempty Hk Hsrc Hdst.
  assert (Hk64 : 0 <= k < u64_modulus) by (unfold u64_modulus, RING_CAPACITY in *; lia).
  destruct (ring_write_total rb src k Hwf Hk64 Hsrc) as (rb1 & Hw & Hwf1 & _ & _ & Hav1).
  destruct (ring_write_contents rb src k _ _ Hwf Hk64 Hsrc Hw) as (_ & _ & _ & Hc1).
  rewrite Hempty in *.
  replace (Z.min k (RING_CAPACITY - 0)) with k in * by lia.
  rewrite (contents_empty rb Hempty) in Hc1. cbn [app] in Hc1.
  destruct (ring_read_spec rb1 dst k Hwf1 Hk64) as (d' & Hr & _).
  { rewrite Hav1. unfold NUM_CHANNELS in *. lia. }
  destruct (ring_read_contents rb1 dst k _ _ _ Hwf1 Hk64 Hdst Hr)
    as (Hwf2 & _ & Hav2 & _ & _ & Hd & Hc2).
  rewrite Hav1 in *. replace (Z.min k (0 + k)) with k in * by lia.
  assert (Hlen : length (take (Z.to_nat (k * NUM_CHANNELS)) src)
                 = Z.to_nat (k * NUM_CHANNELS))
    by (rewrite length_take; unfold NUM_CHANNELS in *; lia).
  eexists rb1, _, d'. split; [exact Hw|]. split; [exact Hr|].
  rewrite Hc1 in Hd, Hc2. rewrite take_take, Nat.min_id in Hd.
  split; [|split; [|split]].
  - rewrite Hd. apply take_app_length'. symmetry. exact Hlen.
  - rewrite Hd. rewrite drop_app_length'; [reflexivity | symmetry; exact Hlen].
  - lia.
  - rewrite Hc2. apply drop_ge. lia.
Qed.

Lemma run_ops_accumulates (ops : list (ring_op A)) : forall rb acc del rb' acc' del',
  run_ops rb ops [] [] = Some (rb', acc', del') ->
  run_ops rb ops acc del = Some (rb', acc ++ acc', del ++ del').
Proof.
  assert (G : forall rb a0 d0 acc del rb' acc' del',
             run_ops rb ops a0 d0 = Some (rb', acc', del') ->
             run_ops rb ops (acc ++ a0) (del ++ d0) = Some (rb', acc ++ acc', del ++ del')).
  { induction ops as [|[src k|dst k] ops IH]; intros rb a0 d0 acc del rb' acc' del' H;
      cbn [run_ops] in *.
    - injection H as <- <- <-. reflexivity.
    - destruct (ring_write rb src k) as [[rb1 w]|]; [|discriminate].
      cbn [mbind option_bind] in *. rewrite <- app_assoc. apply IH. exact H.
    - destruct (ring_read rb dst k) as [[[rb1 d1] g]|]; [|discriminate].
      cbn [mbind option_bind] in *. rewrite <- app_assoc. apply IH. exact H. }
  intros rb acc del rb' acc' del' H.
  specialize (G rb [] [] acc del rb' acc' del' H). rewrite !app_nil_r in G. exact G.
Qed.

(** First in, first out from any state: for every well-formed ring, also
    one whose indices are about to wrap, and every history, what the ring
    held followed by what the writes accepted is what the reads delivered
    followed by what the ring holds at the end. *)
Theorem ring_fifo_from_any_state rb (ops : list (ring_op A)) :
  ring_wf rb -> Forall op_ok ops ->
  exists rb' accepted delivered,
    run_ops rb ops [] [] = Some (rb', accepted, delivered)
    /\ ring_wf rb'
    /\ contents rb ++ accepted = delivered ++ contents rb'
    /\ Z.of_nat (length accepted) - Z.of_nat (length delivered)
       = (ring_available rb' - ring_available rb) * NUM_CHANNELS.
Proof.
  intros Hwf Hok.
  destruct (run_ops_fifo ops rb (contents rb) [] Hok Hwf)
    as (rb' & acc & del & Hrun & Hwf' & Hfifo).
  destruct (run_ops_fifo ops rb [] [] Hok Hwf) as (rb0 & acc0 & del0 & Hrun0 & _ & _).
  pose proof (run_ops_accumulates ops rb (contents rb) [] _ _ _ Hrun0) as Hrun1.
  rewrite Hrun in Hrun1. injection Hrun1 as -> -> ->.
  exists rb0, acc0, del0. split; [exact Hrun0|]. split; [exact Hwf'|].
  specialize (Hfifo eq_refl). cbn [app] in Hfifo.
  split; [exact Hfifo|].
  apply (f_equal length) in Hfifo. rewrite !length_app in Hfifo.
  pose proof (contents_length rb Hwf). pose proof (contents_length rb0 Hwf'). lia.
Qed.
End RingRoundTrips.

(** * Further properties of the realtime IO operations *)

Section RealtimeIOMore.
Implicit Types (drv : DriverState) (buf : list float32).

(** A write-mix operation on the output device returns success, appends
    the first [min ioSize free] frames of the main buffer to the egress
    ring, drops the rest, and changes neither the main buffer nor
    anything else in the driver state. *)
Theorem do_io_write_mix_appends drv ioSize buf :
  ring_wf (outputRing drv) -> 0 <= ioSize < 2 ^ 32 ->
  ioSize * NUM_CHANNELS <= Z.of_nat (length buf) ->
  exists rb',
    driver_DoIOOperation (Some drv) kObjectID_OutputDevice
      kAudioServerPlugInIOOperationWriteMix ioSize buf
    = Some (kAudioHardwareNoError, Some (set_outputRing drv rb'), buf)
    /\ ring_wf rb'
    /\ contents rb'
       = contents (outputRing drv)
         ++ take (Z.to_nat (Z.min ioSize (RING_CAPACITY - ring_available (outputRing drv))
                            * NUM_CHANNELS)) buf
    /\ tail rb' = tail (outputRing drv)
    /\ inputRing (set_outputRing drv rb') = inputRing drv.
Proof.
  intros Hwf Hio Hbuf.
  assert (Hk : 0 <= ioSize < u64_modulus) by (unfold u64_modulus; lia).
  destruct (ring_write_total _ buf ioSize Hwf Hk Hbuf) as (rb' & Hw & Hwf' & _ & Ht & _).
  destruct (ring_write_contents _ buf ioSize _ _ Hwf Hk Hbuf Hw) as (_ & _ & _ & Hc).
  exists rb'. unfold driver_DoIOOperation.
  change (is_output_device kObjectID_OutputDevice) with true.
  rewrite Z.eqb_refl. cbn [andb]. rewrite Hw. cbn [mbind option_bind].
  split; [reflexivity|]. split; [exact Hwf'|]. split; [exact Hc|].
  split; [exact Ht | reflexivity].
Qed.

(** The IO handler acts exactly on the operations it advertises: when
    [driver_WillDoIOOperation] declines a pair of device and operation,
    [driver_DoIOOperation] on that pair returns success and changes
    nothing; it accepts two pairs only, and reports the input direction
    for read-input only. *)
Theorem will_do_io_agrees_with_do_io drv id opID ioSize buf :
  exists will isInput,
    driver_WillDoIOOperation id opID = (kAudioHardwareNoError, will, isInput)
    /\ (will = true <->
        (id = kObjectID_OutputDevice /\ opID = kAudioServerPlugInIOOperationWriteMix)
        \/ (id = kObjectID_InputDevice /\ opID = kAudioServerPlugInIOOperationReadInput))
    /\ (isInput = true <->
        id = kObjectID_InputDevice /\ opID = kAudioServerPlugInIOOperationReadInput)
    /\ (will = false ->
        driver_DoIOOperation (Some drv) id opID ioSize buf
        = Some (kAudioHardwareNoError, Some drv, buf)).
Proof.
  unfold driver_WillDoIOOperation, driver_DoIOOperation, is_output_device,
    is_input_device.
  destruct (Z.eqb_spec id kObjectID_OutputDevice) as [E1|N1].
  - subst id. change (kObjectID_OutputDevice =? kObjectID_InputDevice) with false.
    destruct (Z.eqb_spec opID kAudioServerPlugInIOOperationWriteMix) as [E2|N2];
      cbn [andb]; eexists _, _; (split; [reflexivity|]).
    + split; [split; [intros _; left; auto | reflexivity]|].
      split; [split; [discriminate | intros [H _]; discriminate H]|discriminate].
    + split; [split; [discriminate | intros [[_ H]|[H _]]; [tauto | discriminate H]]|].
      split; [split; [discriminate | intros [H _]; discriminate H]|reflexivity].
  - destruct (Z.eqb_spec id kObjectID_InputDevice) as [E3|N3].
    + subst id.
      destruct (Z.eqb_spec opID kAudioServerPlugInIOOperationReadInput) as [E4|N4];
        cbn [andb]; eexists _, _; (split; [reflexivity|]).
      * split; [split; [intros _; right; auto | reflexivity]|].
        split; [split; [auto | reflexivity]|discriminate].
      * split; [split; [discriminate | intros [[H _]|[_ H]]; [discriminate H | tauto]]|].
        split; [split; [discriminate | tauto]|reflexivity].
    + cbn [andb]. eexists _, _. split; [reflexivity|].
      split; [split; [discriminate | tauto]|].
      split; [split; [discriminate | tauto]|reflexivity].
Qed.
End RealtimeIOMore.

(** * Properties of the framed write *)

Section FramingWrite.
Implicit Types (fd : wfd_state) (data : list byte).

Lemma byte_of_Z_val (z : Z) : byte_val (byte_of_Z z) = z mod 256.
Proof.
  unfold byte_of_Z, byte_val.
  assert (Hr : 0 <= z mod 256 < 256) by (apply Z.mod_pos_bound; lia).
  destruct (Byte.of_N (Z.to_N (z mod 256))) as [b|] eqn:E.
  - apply Byte.to_of_N in E. rewrite E. lia.
  - apply Byte.of_N_None_iff in E. lia.
Qed.

(** The header [framed_write] builds announces [len]. *)
Lemma header_of_length (len : Z) :
  0 <= len < 2 ^ 16 ->
  wire_length (byte_of_Z (Z.shiftr len 8)) (byte_of_Z (Z.land len 255)) = len.
Proof.
  intros Hlen. unfold wire_length. rewrite !byte_of_Z_val.
  rewrite Z.shiftr_div_pow2 by lia.
  change 255 with (Z.ones 8). rewrite Z.land_ones by lia.
  change (2 ^ 8) with 256. change (2 ^ 16) with 65536 in Hlen.
  rewrite Z.mod_mod by lia.
  rewrite (Z.mod_small (len / 256)) by (split; [apply Z.div_pos; lia |
    apply Z.div_lt_upper_bound; lia]).
  pose proof (Z.div_mod len 256 ltac:(lia)). lia.
Qed.

(** The write loop puts on the wire the bytes from [n] up to some [k],
    and ends normally exactly when [k] reached [total]. *)
Lemma write_loop_spec (fuel : nat) : forall fd data n total,
  0 <= n <= total -> total <= Z.of_nat (length data) ->
  total - n <= Z.of_nat fuel ->
  exists r fd' k,
    write_loop fuel fd data n total = Some (r, fd')
    /\ n <= k <= total
    /\ wire fd' = wire fd ++ take (Z.to_nat (k - n)) (drop (Z.to_nat n) data)
    /\ (r = inr tt <-> k = total).
Proof.
  induction fuel as [|fuel IH]; intros fd data n total Hn Htot Hfuel.
  - assert (n = total) by lia. subst n. cbn [write_loop]. rewrite Z.ltb_irrefl.
    exists (inr tt), fd, total. split; [reflexivity|]. split; [lia|].
    rewrite Z.sub_diag. change (Z.to_nat 0) with 0%nat. rewrite take_0, app_nil_r.
    split; [reflexivity | tauto].
  - cbn [write_loop]. destruct (Z.ltb_spec n total) as [Hlt|Hge].
    2:{ assert (n = total) by lia. subst n.
        exists (inr tt), fd, total. split; [reflexivity|]. split; [lia|].
        rewrite Z.sub_diag. change (Z.to_nat 0) with 0%nat. rewrite take_0, app_nil_r.
        split; [reflexivity | tauto]. }
    set (bs := take (Z.to_nat (total - n)) (drop (Z.to_nat n) data)).
    assert (Hbs : Z.of_nat (length bs) = total - n).
    { unfold bs. rewrite length_take, length_drop. lia. }
    unfold sys_write. destruct fd as [[|[m|] p] w0]; cbn [pending wire].
    + (* no event left: the write is taken whole *)
      destruct (Z.leb_spec (Z.of_nat (length bs)) 0); [lia|].
      destruct (IH (mkWfd [] (w0 ++ bs)) data (n + Z.of_nat (length bs)) total
                  ltac:(lia) Htot ltac:(lia)) as (r & fd' & k & Hrun & Hk & Hw & Hr).
      exists r, fd', k. split; [exact Hrun|]. split; [lia|]. split; [|exact Hr].
      rewrite Hw. cbn [wire]. assert (k = total) by lia. subst k.
      replace (Z.to_nat (total - (n + Z.of_nat (length bs)))) with 0%nat by lia.
      rewrite take_0, app_nil_r. reflexivity.
    + set (w := Z.max 0 (Z.min m (Z.of_nat (length bs)))).
      destruct (Z.leb_spec w 0) as [Hw0|Hwpos].
      * exists (inl tt), (mkWfd p (w0 ++ take (Z.to_nat w) bs)), n.
        split; [reflexivity|]. split; [lia|]. cbn [wire].
        replace (Z.to_nat w) with 0%nat by lia.
        rewrite Z.sub_diag. change (Z.to_nat 0) with 0%nat. rewrite !take_0.
        split; [reflexivity|]. split; [discriminate | lia].
      * assert (Hwle : w <= total - n) by (unfold w; lia).
        destruct (IH (mkWfd p (w0 ++ take (Z.to_nat w) bs)) data (n + w) total
                    ltac:(lia) Htot ltac:(lia)) as (r & fd' & k & Hrun & Hk & Hw & Hr).
        exists r, fd', k. split; [exact Hrun|]. split; [lia|]. split; [|exact Hr].
        rewrite Hw. cbn [wire]. rewrite <- app_assoc. f_equal.
        unfold bs. rewrite take_take.
        replace (Z.to_nat w `min` Z.to_nat (total - n))%nat with (Z.to_nat w) by lia.
        replace (Z.to_nat (n + w)) with (Z.to_nat n + Z.to_nat w)%nat by lia.
        rewrite <- drop_drop, take_take_drop. f_equal. lia.
    + exists (inl tt), (mkWfd p w0), n. split; [reflexivity|]. split; [lia|].
      cbn [wire]. rewrite Z.sub_diag. change (Z.to_nat 0) with 0%nat.
      rewrite take_0, app_nil_r. split; [reflexivity|]. split; [discriminate | lia].
Qed.

(** Whatever the socket does, [framed_write] returns, the bytes it puts
    on the wire are a prefix of the frame (header, then payload), and it
    returns 0 exactly when it wrote the whole frame. *)
Theorem framed_write_sends_prefix fd data (len : Z) :
  0 <= len < 2 ^ 16 -> len <= Z.of_nat (length data) ->
  exists r fd' sent,
    framed_write fd data len = Some (r, fd')
    /\ wire fd' = wire fd ++ sent
    /\ sent `prefix_of` frame_bytes data len
    /\ (r = inr tt <-> sent = frame_bytes data len).
Proof.
  intros Hlen Hdata. unfold framed_write, frame_bytes.
  set (hdr := [byte_of_Z (Z.shiftr len 8); byte_of_Z (Z.land len 255)]).
  destruct (write_loop_spec 2 fd hdr 0 2 ltac:(lia) ltac:(simpl; lia) ltac:(lia))
    as (r1 & fd1 & k1 & Hrun1 & Hk1 & Hw1 & Hr1).
  rewrite Hrun1. cbn [mbind option_bind].
  rewrite Z.sub_0_r in Hw1. change (drop (Z.to_nat 0) hdr) with hdr in Hw1.
  destruct r1 as [[]|[]].
  - assert (Hk : k1 < 2).
    { destruct (Z.eq_dec k1 2) as [E|]; [|lia]. apply Hr1 in E. discriminate E. }
    exists (inl tt), fd1, (take (Z.to_nat k1) hdr).
    split; [reflexivity|]. split; [exact Hw1|]. split.
    + apply prefix_app_r. apply prefix_take.
    + split; [discriminate|]. intros E. apply (f_equal length) in E.
      rewrite length_take, length_app in E. simpl in E. lia.
  - assert (Hk : k1 = 2) by (apply Hr1; reflexivity). subst k1.
    change (take (Z.to_nat 2) hdr) with hdr in Hw1.
    destruct (Z.ltb_spec (Z.of_nat (length data)) len); [lia|].
    destruct (write_loop_spec (Z.to_nat len) fd1 data 0 len ltac:(lia) Hdata ltac:(lia))
      as (r2 & fd2 & k2 & Hrun2 & Hk2 & Hw2 & Hr2).
    rewrite Z.sub_0_r in Hw2. change (drop (Z.to_nat 0) data) with data in Hw2.
    exists r2, fd2, (hdr ++ take (Z.to_nat k2) data).
    split; [exact Hrun2|]. split; [rewrite Hw2, Hw1, <- app_assoc; reflexivity|].
    split.
    + apply prefix_app. exists (take (Z.to_nat (len - k2)) (drop (Z.to_nat k2) data)).
      rewrite take_take_drop. f_equal. lia.
    + rewrite Hr2. split.
      * intros ->. reflexivity.
      * intros E. apply app_inv_head in E. apply (f_equal length) in E.
        rewrite !length_take in E. lia.
Qed.

Lemma framed_write_success fd data (len : Z) fd' :
  0 <= len < 2 ^ 16 ->
  framed_write fd data len = Some (inr tt, fd') ->
  len <= Z.of_nat (length data)
  /\ wire fd' = wire fd ++ frame_bytes data len.
Proof.
  intros Hlen Hw. unfold framed_write, frame_bytes in *.
  set (hdr := [byte_of_Z (Z.shiftr len 8); byte_of_Z (Z.land len 255)]) in *.
  destruct (write_loop_spec 2 fd hdr 0 2 ltac:(lia) ltac:(simpl; lia) ltac:(lia))
    as (r1 & fd1 & k1 & Hrun1 & Hk1 & Hw1 & Hr1).
  rewrite Hrun1 in Hw. cbn [mbind option_bind] in Hw.
  destruct r1 as [[]|[]]; [discriminate|].
  assert (Hk : k1 = 2) by (apply Hr1; reflexivity). subst k1.
  rewrite Z.sub_0_r in Hw1. change (drop (Z.to_nat 0) hdr) with hdr in Hw1.
  change (take (Z.to_nat 2) hdr) with hdr in Hw1.
  destruct (Z.ltb_spec (Z.of_nat (length data)) len) as [|Hdata]; [discriminate|].
  split; [exact Hdata|].
  destruct (write_loop_spec (Z.to_nat len) fd1 data 0 len ltac:(lia) Hdata ltac:(lia))
    as (r2 & fd2 & k2 & Hrun2 & Hk2 & Hw2 & Hr2).
  rewrite Hw in Hrun2. injection Hrun2 as <- <-.
  assert (Hk : k2 = len) by (apply Hr2; reflexivity). subst k2.
  rewrite Z.sub_0_r in Hw2. change (drop (Z.to_nat 0) data) with data in Hw2.
  rewrite Hw2, Hw1, <- app_assoc. reflexivity.
Qed.

(** Round trip: the bytes of a successful [framed_write] of a length
    from 1 to [OPUS_MAX_PACKET], read back by [framed_read] in whatever
    chunks they arrive, give the same length and payload and leave what
    follows on the stream. A frame of length 0, which [framed_write]
    sends as readily, or of a length above [OPUS_MAX_PACKET], is
    rejected by [framed_read]. *)
Theorem framed_write_read_round_trip fd data (len : Z) fd' :
  0 <= len < 2 ^ 16 ->
  framed_write fd data len = Some (inr tt, fd') ->
  wire fd' = wire fd ++ frame_bytes data len
  /\ forall (fdr : fd_state) (rest : list byte),
      deliverable fdr = frame_bytes data len ++ rest ->
      (1 <= len <= OPUS_MAX_PACKET ->
       exists fdr',
         framed_read fdr OPUS_MAX_PACKET
         = Some (inr (len, take (Z.to_nat len) data), fdr')
         /\ deliverable fdr' = rest)
      /\ (len = 0 \/ OPUS_MAX_PACKET < len ->
          exists fdr', framed_read fdr OPUS_MAX_PACKET = Some (inl tt, fdr')).
Proof.
  intros Hlen Hw.
  destruct (framed_write_success fd data len fd' Hlen Hw) as (Hdata & Hwire).
  split; [exact Hwire|].
  intros fdr rest Hdel.
  pose proof (framed_read_spec fdr OPUS_MAX_PACKET) as Hrd.
  rewrite Hdel in Hrd. unfold frame_bytes in Hrd. cbn [app] in Hrd.
  rewrite (header_of_length len Hlen) in Hrd.
  assert (Hpl : Z.of_nat (length (take (Z.to_nat len) data)) = len)
    by (rewrite length_take; lia).
  split.
  - intros Hrange. case_decide as Hd.
    + destruct Hrd as (fdr' & Hr' & Hdel'). exists fdr'.
      rewrite take_app_length' in Hr' by lia.
      rewrite drop_app_length' in Hdel' by lia. auto.
    + exfalso. apply Hd. split; [exact Hrange|]. rewrite length_app. lia.
  - intros Hbad. case_decide as Hd; [|exact Hrd].
    exfalso. unfold OPUS_MAX_PACKET in *. lia.
Qed.
End FramingWrite.

(** * Further properties of the sample clock *)

Section SampleClockMore.
Implicit Types (drv : DriverState).

Lemma zero_timestamp_eval drv (id now : Z) :
  0 < timebase_numer drv < 2 ^ 32 -> 0 < timebase_denom drv < 2 ^ 32 ->
  0 <= clock_anchor drv id <= now -> now < u64_modulus ->
  driver_GetZeroTimeStamp (Some drv) id now
  = Some (kAudioHardwareNoError,
          Some (f64_of_Z (zero_timestamp_elapsed_ns drv (clock_anchor drv id) now
                          / ns_per_period * CLOCK_PERIOD_FRAMES),
                clock_anchor drv id
                + zero_timestamp_elapsed_ns drv (clock_anchor drv id) now / ns_per_period
                  * ns_per_period * timebase_denom drv / timebase_numer drv,
                1))
  /\ 0 <= zero_timestamp_elapsed_ns drv (clock_anchor drv id) now < u64_modulus
  /\ zero_timestamp_elapsed_ns drv (clock_anchor drv id) now * timebase_denom drv
     <= (now - clock_anchor drv id) * timebase_numer drv
  /\ ((now - clock_anchor drv id) * timebase_numer drv < u64_modulus ->
      zero_timestamp_elapsed_ns drv (clock_anchor drv id) now
      = (now - clock_anchor drv id) * timebase_numer drv / timebase_denom drv).
Proof.
  unfold clock_anchor. intros Hnum Hden Ht0 Hnow.
  set (t0 := if is_output_device id then outputHostTicksAtZero drv
             else inputHostTicksAtZero drv) in *.
  unfold driver_GetZeroTimeStamp. fold t0.
  destruct (Z.eqb_spec (timebase_denom drv) 0) as [|_]; [lia|].
  destruct (Z.eqb_spec (timebase_numer drv) 0) as [|_]; [lia|].
  cbn [orb]. unfold zero_timestamp_elapsed_ns. rewrite ns_per_period_value.
  set (numer := timebase_numer drv) in *. set (denom := timebase_denom drv) in *.
  clearbody numer denom t0. unfold u64_modulus in *.
  assert (Hel : u64_sub now t0 = now - t0).
  { unfold u64_sub, wrap64, u64_modulus. apply Z.mod_small. lia. }
  rewrite Hel.
  set (X := u64_mul (now - t0) numer).
  assert (HX : 0 <= X < 2 ^ 64 /\ X <= (now - t0) * numer
               /\ ((now - t0) * numer < 2 ^ 64 -> X = (now - t0) * numer)).
  { unfold X, u64_mul, wrap64, u64_modulus. split; [|split].
    - apply Z.mod_pos_bound. lia.
    - apply Z.mod_le; [|lia]. apply Z.mul_nonneg_nonneg; lia.
    - intros Hsmall. apply Z.mod_small. split; [|exact Hsmall].
      apply Z.mul_nonneg_nonneg; lia. }
  destruct HX as (HX1 & HX2 & HX3). clearbody X.
  set (ens := X / denom).
  assert (Hens : 0 <= ens /\ ens * denom <= X).
  { unfold ens. split; [apply Z.div_pos; lia|].
    rewrite Z.mul_comm. apply Z.mul_div_le. lia. }
  destruct Hens as (Hens0 & Hens1).
  set (P := ens / 10000000).
  assert (HP : 0 <= P /\ P * 10000000 <= ens).
  { unfold P. split; [apply Z.div_pos; lia|].
    rewrite Z.mul_comm. apply Z.mul_div_le. lia. }
  destruct HP as (HP0 & HP1).
  assert (Hens2 : ens < 2 ^ 64).
  { assert (ens * 1 <= ens * denom) by (apply Z.mul_le_mono_nonneg_l; lia). lia. }
  change (2 ^ 64) with 18446744073709551616 in *.
  assert (HPD : P * 10000000 * denom <= X).
  { assert (P * 10000000 * denom <= ens * denom)
      by (apply Z.mul_le_mono_nonneg_r; lia). lia. }
  assert (HPD0 : 0 <= P * 10000000 * denom)
    by (apply Z.mul_nonneg_nonneg; lia).
  assert (Hm1 : u64_mul P CLOCK_PERIOD_FRAMES = P * CLOCK_PERIOD_FRAMES).
  { unfold u64_mul, wrap64, u64_modulus, CLOCK_PERIOD_FRAMES. apply Z.mod_small. lia. }
  assert (Hm2 : u64_mul P 10000000 = P * 10000000).
  { unfold u64_mul, wrap64, u64_modulus. apply Z.mod_small. lia. }
  assert (Hm3 : u64_mul (P * 10000000) denom = P * 10000000 * denom).
  { unfold u64_mul, wrap64, u64_modulus. apply Z.mod_small. lia. }
  set (Y := P * 10000000 * denom / numer).
  assert (HY : 0 <= Y <= now - t0).
  { unfold Y. split; [apply Z.div_pos; lia|].
    apply Z.div_le_upper_bound; [lia|]. rewrite Z.mul_comm. lia. }
  assert (Hm4 : u64_add t0 Y = t0 + Y).
  { unfold u64_add, wrap64, u64_modulus. apply Z.mod_small. lia. }
  split; [rewrite Hm1, Hm2, Hm3; fold Y; rewrite Hm4; reflexivity|].
  split; [lia|]. split; [lia|].
  intros Hsmall. unfold ens. rewrite (HX3 Hsmall). reflexivity.
Qed.

(** The zero timestamp does not go backwards: of two queries on a
    device, the later one reports a period count and a host time that
    are not smaller, as long as the elapsed ticks times the timebase
    numerator fit 64 bits; and each names the most recent period
    boundary, less than one period of nanoseconds behind the query. *)
Theorem zero_timestamp_monotone drv (id now1 now2 : Z) :
  0 < timebase_numer drv < 2 ^ 32 -> 0 < timebase_denom drv < 2 ^ 32 ->
  0 <= clock_anchor drv id <= now1 -> now1 <= now2 -> now2 < u64_modulus ->
  (now2 - clock_anchor drv id) * timebase_numer drv < u64_modulus ->
  exists p1 h1 p2 h2,
    driver_GetZeroTimeStamp (Some drv) id now1
    = Some (kAudioHardwareNoError, Some (f64_of_Z (p1 * CLOCK_PERIOD_FRAMES), h1, 1))
    /\ driver_GetZeroTimeStamp (Some drv) id now2
       = Some (kAudioHardwareNoError, Some (f64_of_Z (p2 * CLOCK_PERIOD_FRAMES), h2, 1))
    /\ 0 <= p1 <= p2
    /\ clock_anchor drv id <= h1 <= h2
    /\ h2 <= now2
    /\ p2 * ns_per_period
       <= (now2 - clock_anchor drv id) * timebase_numer drv / timebase_denom drv
       < (p2 + 1) * ns_per_period.
Proof.
  intros Hnum Hden Ht0 H12 Hnow2 Hfit.
  assert (Hfit1 : (now1 - clock_anchor drv id) * timebase_numer drv < u64_modulus).
  { eapply Z.le_lt_trans; [|exact Hfit]. apply Z.mul_le_mono_nonneg_r; lia. }
  destruct (zero_timestamp_eval drv id now1 Hnum Hden Ht0 ltac:(lia))
    as (Hg1 & Hr1 & _ & He1).
  destruct (zero_timestamp_eval drv id now2 Hnum Hden ltac:(lia) Hnow2)
    as (Hg2 & Hr2 & Hd2 & He2).
  specialize (He1 Hfit1). specialize (He2 Hfit).
  set (t0 := clock_anchor drv id) in *.
  set (e1 := zero_timestamp_elapsed_ns drv t0 now1) in *.
  set (e2 := zero_timestamp_elapsed_ns drv t0 now2) in *.
  rewrite ns_per_period_value in *.
  assert (He12 : e1 <= e2).
  { rewrite He1, He2. apply Z.div_le_mono; [lia|].
    apply Z.mul_le_mono_nonneg_r; lia. }
  assert (Hp12 : e1 / 10000000 <= e2 / 10000000) by (apply Z.div_le_mono; lia).
  assert (Hp1 : 0 <= e1 / 10000000) by (apply Z.div_pos; lia).
  eexists _, _, _, _. split; [exact Hg1|]. split; [exact Hg2|].
  split; [lia|].
  set (numer := timebase_numer drv) in *. set (denom := timebase_denom drv) in *.
  assert (Hy1 : 0 <= e1 / 10000000 * 10000000 * denom / numer).
  { apply Z.div_pos; [|lia]. apply Z.mul_nonneg_nonneg; lia. }
  assert (Hy12 : e1 / 10000000 * 10000000 * denom / numer
                 <= e2 / 10000000 * 10000000 * denom / numer).
  { apply Z.div_le_mono; [lia|]. apply Z.mul_le_mono_nonneg_r; lia. }
  assert (Hy2 : e2 / 10000000 * 10000000 * denom / numer <= now2 - t0).
  { apply Z.div_le_upper_bound; [lia|].
    assert (e2 / 10000000 * 10000000 <= e2)
      by (rewrite Z.mul_comm; apply Z.mul_div_le; lia).
    assert (e2 / 10000000 * 10000000 * denom <= e2 * denom)
      by (apply Z.mul_le_mono_nonneg_r; lia).
    rewrite Z.mul_comm. lia. }
  split; [lia|]. split; [lia|].
  rewrite <- He2.
  pose proof (Z.div_mod e2 10000000 ltac:(lia)).
  pose proof (Z.mod_pos_bound e2 10000000 ltac:(lia)). lia.
Qed.

(** Starting IO on a device anchors its clock: a query at the same tick
    reports sample time 0 and that tick as host time. The clock of the
    other device, the rings and the volumes are untouched, and stopping
    IO on any device afterwards does not move the clock. *)
Theorem start_io_anchors_clock drv (id now : Z) :
  id = kObjectID_OutputDevice \/ id = kObjectID_InputDevice ->
  timebase_numer drv <> 0 -> timebase_denom drv <> 0 ->
  0 <= now < u64_modulus ->
  exists drv',
    driver_StartIO (Some drv) id now = (kAudioHardwareNoError, Some drv')
    /\ driver_GetZeroTimeStamp (Some drv') id now
       = Some (kAudioHardwareNoError, Some (S754_zero false, now, 1))
    /\ (forall other t,
          (other = kObjectID_OutputDevice \/ other = kObjectID_InputDevice) ->
          other <> id ->
          driver_GetZeroTimeStamp (Some drv') other t
          = driver_GetZeroTimeStamp (Some drv) other t)
    /\ outputRing drv' = outputRing drv /\ inputRing drv' = inputRing drv
    /\ outputVolume drv' = outputVolume drv /\ inputVolume drv' = inputVolume drv
    /\ (forall id2 t,
          driver_GetZeroTimeStamp (snd (driver_StopIO (Some drv') id2)) id t
          = driver_GetZeroTimeStamp (Some drv') id t).
Proof.
  intros Hid Hnum Hden Hnow.
  assert (Hz : forall t0, 0 <= t0 < u64_modulus ->
            u64_add t0 (u64_mul (u64_mul (u64_mul (u64_sub t0 t0) (timebase_numer drv)
                                          / timebase_denom drv / ns_per_period)
                                   ns_per_period) (timebase_denom drv)
                        / timebase_numer drv) = t0
            /\ f64_of_Z (u64_mul (u64_mul (u64_sub t0 t0) (timebase_numer drv)
                                  / timebase_denom drv / ns_per_period)
                           CLOCK_PERIOD_FRAMES) = S754_zero false).
  { intros t0 Ht0. unfold u64_sub, u64_mul, u64_add, wrap64. rewrite Z.sub_diag.
    repeat first
      [ rewrite Z.mul_0_l
      | rewrite (Z.mod_0_l u64_modulus) by (unfold u64_modulus; lia)
      | rewrite Z.div_0_l
          by solve [exact Hden | exact Hnum | rewrite ns_per_period_value; lia] ].
    rewrite Z.add_0_r, Z.mod_small by lia.
    split; reflexivity. }
  destruct (Hz now Hnow) as (Hh & Hs).
  apply Z.eqb_neq in Hnum. apply Z.eqb_neq in Hden.
  assert (Hstop : forall d id2 t,
            driver_GetZeroTimeStamp (snd (driver_StopIO (Some d) id2)) id t
            = driver_GetZeroTimeStamp (Some d) id t).
  { intros d id2 t. unfold driver_StopIO.
    destruct (is_output_device id2); [reflexivity|].
    destruct (is_input_device id2); reflexivity. }
  destruct Hid as [-> | ->].
  - unfold driver_StartIO.
    change (is_output_device kObjectID_OutputDevice) with true. cbv iota.
    eexists. split; [reflexivity|].
    split.
    { unfold driver_GetZeroTimeStamp, zero_timestamp_elapsed_ns.
      change (is_output_device kObjectID_OutputDevice) with true.
      cbn [timebase_numer timebase_denom outputHostTicksAtZero].
      rewrite Hnum, Hden. cbn [orb]. rewrite Hh, Hs. reflexivity. }
    split; [intros other t [-> | ->] Hne; [congruence | reflexivity]|].
    repeat (split; [reflexivity|]). apply Hstop.
  - unfold driver_StartIO.
    change (is_output_device kObjectID_InputDevice) with false.
    change (is_input_device kObjectID_InputDevice) with true. cbv iota.
    eexists. split; [reflexivity|].
    split.
    { unfold driver_GetZeroTimeStamp, zero_timestamp_elapsed_ns.
      change (is_output_device kObjectID_InputDevice) with false.
      cbn [timebase_numer timebase_denom inputHostTicksAtZero].
      rewrite Hnum, Hden. cbn [orb]. rewrite Hh, Hs. reflexivity. }
    split; [intros other t [-> | ->] Hne; [reflexivity | congruence]|].
    repeat (split; [reflexivity|]). apply Hstop.
Qed.
End SampleClockMore.

(** * Further properties of the volume controls *)

Section VolumeMore.
Variable log10f : float32 -> float32.
Variable powf : float32 -> float32 -> float32.
Implicit Types (drv : DriverState).

(** [driver_SetPropertyData] answers as [driver_IsPropertySettable]
    announces: it succeeds exactly for a property reported settable and a
    value of at least the size of a [Float32], reports a bad size for a
    settable property and a smaller value, and declines every property
    not reported settable. *)
Theorem set_property_data_agrees_with_settable drv id sel inSize v :
  exists st g',
    driver_SetPropertyData powf (Some drv) id sel inSize v = Some (st, g')
    /\ fst (driver_IsPropertySettable id sel) = kAudioHardwareNoError
    /\ (st = kAudioHardwareNoError <->
        snd (driver_IsPropertySettable id sel) = true /\ sizeof_Float32 <= inSize)
    /\ (st = kAudioHardwareBadPropertySizeError <->
        snd (driver_IsPropertySettable id sel) = true /\ inSize < sizeof_Float32)
    /\ (st = kAudioHardwareUnsupportedOperationError <->
        snd (driver_IsPropertySettable id sel) = false).
Proof.
  unfold driver_SetPropertyData, driver_IsPropertySettable. cbn [fst snd].
  destruct (is_volume id); cbn [mbind option_bind].
  - destruct sel as [[| | |]|code];
      try (eexists _, _; split; [reflexivity|]; split; [reflexivity|];
           repeat split; intros; try discriminate; try tauto;
           match goal with H : _ /\ _ |- _ => destruct H; discriminate end).
    + destruct (Z.ltb_spec inSize sizeof_Float32);
        eexists _, _; (split; [reflexivity|]); (split; [reflexivity|]);
        repeat split; intros; try discriminate; try tauto; try lia;
        match goal with H : _ /\ _ |- _ => destruct H; lia end.
    + destruct (Z.ltb_spec inSize sizeof_Float32);
        eexists _, _; (split; [reflexivity|]); (split; [reflexivity|]);
        repeat split; intros; try discriminate; try tauto; try lia;
        match goal with H : _ /\ _ |- _ => destruct H; lia end.
  - eexists _, _. split; [reflexivity|]. split; [reflexivity|].
    repeat split; intros; try discriminate; try tauto;
      match goal with H : _ /\ _ |- _ => destruct H; discriminate end.
Qed.

(** [driver_SetPropertyData] writes at most the volume it is addressed
    to: the rings, the mute flags, the IO state, the clocks, the timebase
    and the volume of the other control are as before, and a call that
    does not succeed changes nothing at all. *)
Theorem set_property_data_touches_one_volume drv id sel inSize v :
  exists st drv',
    driver_SetPropertyData powf (Some drv) id sel inSize v = Some (st, Some drv')
    /\ outputRing drv' = outputRing drv /\ inputRing drv' = inputRing drv
    /\ outputMute drv' = outputMute drv /\ inputMute drv' = inputMute drv
    /\ outputIORunning drv' = outputIORunning drv
    /\ inputIORunning drv' = inputIORunning drv
    /\ outputHostTicksAtZero drv' = outputHostTicksAtZero drv
    /\ inputHostTicksAtZero drv' = inputHostTicksAtZero drv
    /\ running drv' = running drv
    /\ timebase_numer drv' = timebase_numer drv
    /\ timebase_denom drv' = timebase_denom drv
    /\ (id <> kObjectID_OutputVolume -> outputVolume drv' = outputVolume drv)
    /\ (id <> kObjectID_InputVolume -> inputVolume drv' = inputVolume drv)
    /\ (st <> kAudioHardwareNoError -> drv' = drv).
Proof.
  unfold driver_SetPropertyData.
  destruct (is_volume id) eqn:Hv; cbn [mbind option_bind].
  2:{ eexists _, _. split; [reflexivity|]. repeat split; reflexivity. }
  assert (Hframe : forall x,
    let d := if id =? kObjectID_OutputVolume then set_outputVolume drv x
             else set_inputVolume drv x in
    outputRing d = outputRing drv /\ inputRing d = inputRing drv
    /\ outputMute d = outputMute drv /\ inputMute d = inputMute drv
    /\ outputIORunning d = outputIORunning drv
    /\ inputIORunning d = inputIORunning drv
    /\ outputHostTicksAtZero d = outputHostTicksAtZero drv
    /\ inputHostTicksAtZero d = inputHostTicksAtZero drv
    /\ running d = running drv
    /\ timebase_numer d = timebase_numer drv
    /\ timebase_denom d = timebase_denom drv
    /\ (id <> kObjectID_OutputVolume -> outputVolume d = outputVolume drv)
    /\ (id <> kObjectID_InputVolume -> inputVolume d = inputVolume drv)).
  { intros x. cbv zeta.
    unfold is_volume in Hv.
    destruct (Z.eqb_spec id kObjectID_OutputVolume) as [E|N].
    - repeat split; try reflexivity; try congruence.
    - destruct (Z.eqb_spec id kObjectID_InputVolume) as [E'|N']; [|discriminate].
      repeat split; try reflexivity; try congruence. }
  destruct sel as [[| | |]|code];
    try (eexists _, _; split; [reflexivity|]; repeat split; reflexivity).
  - destruct (Z.ltb_spec inSize sizeof_Float32).
    + eexists _, _. split; [reflexivity|]. repeat split; reflexivity.
    + eexists _, _. split; [reflexivity|].
      cbv zeta.
      match goal with |- outputRing (if _ then set_outputVolume _ ?v else _) = _ /\ _ =>
        pose proof (Hframe v) as HF end.
      cbv zeta in HF. intuition congruence.
  - destruct (Z.ltb_spec inSize sizeof_Float32).
    + eexists _, _. split; [reflexivity|]. repeat split; reflexivity.
    + eexists _, _. split; [reflexivity|].
      cbv zeta.
      match goal with |- outputRing (if _ then set_outputVolume _ ?v else _) = _ /\ _ =>
        pose proof (Hframe v) as HF end.
      cbv zeta in HF. intuition congruence.
Qed.

Lemma below_min_db_not_positive (db : float32) :
  f32_le db VOLUME_MIN_DB = true -> f32_lt VOLUME_MAX_DB db = false.
Proof.
  destruct db as [s|s| |s m e]; try discriminate.
  - destruct s; [reflexivity | discriminate].
  - destruct s; [reflexivity | discriminate].
Qed.

(** The ends of the decibel range. A decibel request at or below -96 dB,
    minus infinity included, stores the scalar 0.0. The decibel value a
    volume control reports is never below -96 dB, whatever is stored and
    whatever the logarithm of the C library returns, and it is exactly
    -96 dB when the stored scalar is zero or negative. *)
Theorem decibel_range_ends drv id inSize db io :
  is_volume id = true -> sizeof_Float32 <= inSize ->
  (f32_le db VOLUME_MIN_DB = true ->
   exists drv',
     driver_SetPropertyData powf (Some drv) id
       (LevelProperty kAudioLevelControlPropertyDecibelValue) inSize db
     = Some (kAudioHardwareNoError, Some drv')
     /\ driver_GetPropertyData log10f powf (Some drv') id
          kAudioLevelControlPropertyScalarValue inSize io
        = Some (kAudioHardwareNoError, Some f32_zero))
  /\ (exists r,
        driver_GetPropertyData log10f powf (Some drv) id
          kAudioLevelControlPropertyDecibelValue inSize io
        = Some (kAudioHardwareNoError, Some r)
        /\ f32_lt r VOLUME_MIN_DB = false
        /\ (f32_le (if id =? kObjectID_OutputVolume then outputVolume drv
                    else inputVolume drv) f32_zero = true ->
            r = VOLUME_MIN_DB)).
Proof.
  intros Hid Hsz. split.
  - intros Hle.
    destruct (set_db_then_get log10f powf drv id inSize db io Hid Hsz)
      as (drv' & Hset & Hget).
    exists drv'. split; [exact Hset|]. rewrite Hget. do 2 f_equal. cbv zeta.
    destruct (f32_lt db VOLUME_MIN_DB) eqn:Hlt; [reflexivity|].
    rewrite (below_min_db_not_positive db Hle).
    unfold db_to_scalar. rewrite Hle. reflexivity.
  - unfold driver_GetPropertyData. rewrite Hid. cbn [mbind option_bind].
    destruct (Z.ltb_spec inSize sizeof_Float32); [lia|].
    eexists. split; [reflexivity|].
    unfold scalar_to_db.
    destruct (f32_le (if id =? kObjectID_OutputVolume then outputVolume drv
                      else inputVolume drv) f32_zero) eqn:Hz.
    + split; [reflexivity | reflexivity].
    + split; [|discriminate]. cbv zeta.
      destruct (f32_lt (f32_mul f32_20 (log10f _)) VOLUME_MIN_DB) eqn:Hlt;
        [reflexivity | exact Hlt].
Qed.
End VolumeMore.

(** * Further properties of the sample conversions *)

Section CodecMore.

Lemma shr_nonneg (mrs : shr_record) (e n : Z) :
  0 <= shr_m mrs -> 0 <= shr_m (fst (shr mrs e n)).
Proof.
  intros Hm. destruct n as [|p|p]; cbn [shr fst]; try exact Hm.
  apply iter_pos_shr_1_m. exact Hm.
Qed.

(** Rounding a positive significand gives a zero, a finite float or an
    infinity, never a NaN. *)
Lemma binary_round_aux_not_nan (sx : bool) (M E : Z) :
  0 < M -> binary_round_aux f32_prec f32_emax sx M E loc_Exact <> S754_nan.
Proof.
  intros HM. unfold binary_round_aux, shr_fexp. cbn [shr_record_of_loc].
  pose proof (shr_nonneg (Build_shr_record M false false) E
                (fexp f32_prec f32_emax (Zdigits2 M + E) - E)
                ltac:(cbn [shr_m]; lia)) as H1.
  destruct (shr (Build_shr_record M false false) E _) as [mrs' e'].
  cbn [fst] in H1.
  pose proof (round_nearest_even_range (shr_m mrs') (loc_of_shr_record mrs')) as Hr.
  set (m1 := round_nearest_even (shr_m mrs') (loc_of_shr_record mrs')) in *.
  pose proof (shr_nonneg (Build_shr_record m1 false false) e'
                (fexp f32_prec f32_emax (Zdigits2 m1 + e') - e')
                ltac:(cbn [shr_m]; lia)) as H2.
  destruct (shr (Build_shr_record m1 false false) e' _) as [mrs'' e''].
  cbn [fst] in H2.
  destruct (shr_m mrs'') as [|q|q]; [discriminate| |lia].
  destruct (e'' <=? f32_emax - f32_prec); discriminate.
Qed.

Lemma f32_mul_finite_not_nan (x y : float32) :
  f32_is_finite x = true -> f32_is_finite y = true -> f32_mul x y <> S754_nan.
Proof.
  destruct x as [sx|sx| |sx mx ex], y as [sy|sy| |sy my ey];
    try discriminate; intros _ _.
  unfold f32_mul, SFmul. apply binary_round_aux_not_nan. lia.
Qed.

Lemma f32_mul_32767_not_nan (x : float32) :
  x <> S754_nan -> f32_mul x f32_32767 <> S754_nan.
Proof.
  destruct x as [sx|sx| |sx mx ex]; try discriminate; [congruence|].
  intros _. unfold f32_mul, f32_32767, SFmul. apply binary_round_aux_not_nan. lia.
Qed.

Lemma truncated_sample_range (s : float32) :
  s <> S754_nan ->
  exists n, truncated_sample s = Some n /\ -32768 <= n <= 32767.
Proof.
  intros Hnan. destruct s as [sg|sg| |sg m e]; [| |congruence|];
    unfold truncated_sample, f32_to_Q; cbn [mbind option_bind];
    eexists; (split; [reflexivity|]); unfold clamp; try destruct sg; lia.
Qed.

Lemma output_convert_sample_finite (x gain : float32) :
  f32_valid x = true -> f32_valid gain = true ->
  f32_is_finite x = true -> f32_is_finite gain = true ->
  exists n, output_convert_sample x gain = Some n
            /\ truncated_sample (f32_mul (f32_mul x gain) f32_32767) = Some n
            /\ -32768 <= n <= 32767.
Proof.
  intros Hx Hg Fx Fg.
  assert (Hv : f32_valid (f32_mul (f32_mul x gain) f32_32767) = true)
    by (apply f32_mul_valid; [apply f32_mul_valid; assumption | reflexivity]).
  destruct (truncated_sample_range (f32_mul (f32_mul x gain) f32_32767))
    as (n & Hn & Hr).
  { apply f32_mul_32767_not_nan, f32_mul_finite_not_nan; assumption. }
  exists n. split; [|split; assumption].
  unfold output_convert_sample. rewrite <- Hn. apply clamp_then_cast. exact Hv.
Qed.

(** On finite audio the conversion loop of the output thread has no
    undefined cast: for a finite volume and a frame of finite samples it
    produces one 16-bit sample for each of the first
    [OPUS_FRAME_SIZE * NUM_CHANNELS] floats, each within
    [-32768 .. 32767] and equal to the truncated, clamped value of the
    single-precision product [(x * gain) * 32767]. *)
Theorem output_convert_defined_on_finite_audio (drv : DriverState) (pcm : list float32) :
  f32_valid (outputVolume drv) = true -> f32_is_finite (outputVolume drv) = true ->
  Forall (fun x => f32_valid x = true /\ f32_is_finite x = true) pcm ->
  exists pcm16,
    output_convert drv pcm = Some pcm16
    /\ Z.of_nat (length pcm16)
       = Z.min (Z.of_nat (length pcm)) (OPUS_FRAME_SIZE * NUM_CHANNELS)
    /\ Forall (fun n => -32768 <= n <= 32767) pcm16
    /\ forall (i : nat) x, Z.of_nat i < OPUS_FRAME_SIZE * NUM_CHANNELS ->
         pcm !! i = Some x ->
         pcm16 !! i
         = truncated_sample
             (f32_mul (f32_mul x (output_gain (outputVolume drv) (outputMute drv)))
                      f32_32767).
Proof.
  intros Hvol Fvol Hpcm. unfold output_convert.
  set (gain := output_gain (outputVolume drv) (outputMute drv)).
  assert (Hg : f32_valid gain = true /\ f32_is_finite gain = true).
  { unfold gain, output_gain. destruct (negb (outputMute drv =? 0)); auto. }
  destruct Hg as [Hg Fg].
  set (n := Z.to_nat (OPUS_FRAME_SIZE * NUM_CHANNELS)).
  assert (Hsome : is_Some (mapM (fun x => output_convert_sample x gain) (take n pcm))).
  { apply mapM_is_Some. apply Forall_take. eapply Forall_impl; [exact Hpcm|].
    intros x [Hx Fx]. cbn.
    destruct (output_convert_sample_finite x gain Hx Hg Fx Fg) as (k & -> & _).
    eexists; reflexivity. }
  destruct Hsome as [pcm16 Heq]. exists pcm16. split; [exact Heq|].
  apply mapM_Some in Heq.
  pose proof (Forall2_length _ _ _ Heq) as Hlen. rewrite length_take in Hlen.
  split; [unfold n in Hlen; unfold OPUS_FRAME_SIZE, NUM_CHANNELS in *; lia|].
  split.
  - apply Forall_lookup. intros i k Hk.
    destruct (Forall2_lookup_r _ _ _ _ _ Heq Hk) as (x & Hx & Hc).
    apply lookup_take_Some in Hx. destruct Hx as [Hx _].
    rewrite Forall_lookup in Hpcm. destruct (Hpcm i x Hx) as [Vx Fx].
    destruct (output_convert_sample_finite x gain Vx Hg Fx Fg) as (k' & Hk' & _ & Hr).
    congruence.
  - intros i x Hi Hx.
    assert (Hx' : take n pcm !! i = Some x).
    { apply lookup_take_Some. split; [exact Hx|].
      unfold n, OPUS_FRAME_SIZE, NUM_CHANNELS in *. lia. }
    destruct (Forall2_lookup_l _ _ _ _ _ Heq Hx') as (k & Hk & Hc).
    rewrite Forall_lookup in Hpcm. destruct (Hpcm i x Hx) as [Vx Fx].
    destruct (output_convert_sample_finite x gain Vx Hg Fx Fg) as (k' & Hk' & Ht & _).
    rewrite Hk, Ht. congruence.
Qed.

(** Mute on the output side. With the mute flag set, every finite sample
    is sent as 0, whatever the volume, and a whole frame of finite
    samples as zeros; a sample that is an infinity or a NaN has no
    defined conversion even then, its product with the zero gain being a
    NaN. *)
Theorem output_mute_silences (drv : DriverState) (pcm : list float32) (x : float32) :
  outputMute drv <> 0 ->
  (f32_is_finite x = true ->
   output_convert_sample x (output_gain (outputVolume drv) (outputMute drv)) = Some 0)
  /\ (f32_is_finite x = false ->
      output_convert_sample x (output_gain (outputVolume drv) (outputMute drv)) = None)
  /\ (Forall (fun x => f32_is_finite x = true) pcm ->
      output_convert drv pcm
      = Some (replicate (Z.to_nat (Z.min (Z.of_nat (length pcm))
                                         (OPUS_FRAME_SIZE * NUM_CHANNELS))) 0)).
Proof.
  intros Hm.
  assert (Hg : output_gain (outputVolume drv) (outputMute drv) = f32_zero).
  { unfold output_gain. destruct (Z.eqb_spec (outputMute drv) 0); [contradiction|].
    reflexivity. }
  assert (Hfin : forall y, f32_is_finite y = true ->
                   output_convert_sample y f32_zero = Some 0).
  { intros [s|s| |s m e]; try discriminate; intros _; destruct s; reflexivity. }
  split; [rewrite Hg; apply Hfin|]. split.
  - rewrite Hg. destruct x as [s|s| |s m e]; try discriminate; intros _;
      try destruct s; reflexivity.
  - intros Hpcm. unfold output_convert. rewrite Hg.
    apply mapM_Some. apply Forall2_same_length_lookup. split.
    + rewrite length_take, length_replicate.
      unfold OPUS_FRAME_SIZE, NUM_CHANNELS. lia.
    + intros i y k Hy Hk. apply lookup_take_Some in Hy. destruct Hy as [Hy _].
      apply lookup_replicate in Hk. destruct Hk as [-> _].
      rewrite Forall_lookup in Hpcm. apply Hfin. exact (Hpcm i y Hy).
Qed.
End CodecMore.

(** * The transport threads: one pass of each inner loop *)

Section TransportSteps.

Lemma u64_small (z : Z) : 0 <= z < u64_modulus -> wrap64 z = z.
Proof. intros H. unfold wrap64. apply Z.mod_small. exact H. Qed.

Lemma set_inputRing_same (drv : DriverState) : set_inputRing drv (inputRing drv) = drv.
Proof. destruct drv; reflexivity. Qed.

(** A complete frame on the wire, decoded: the pass of the input thread
    goes on to the next packet, consuming exactly the frame. If the
    decoder reports an error the driver state is as before; otherwise
    the input ring receives, at its end, the first
    [min(nsamples, free)] decoded frames, each sample converted with the
    gain of this pass (zero when muted), and the frames that do not fit
    are dropped. Nothing but the input ring changes. *)
Theorem input_step_queues_decoded_audio {D : Type}
    (opus_decode : D -> list byte -> Z -> D * Z * list Z)
    (dec : D) (fd : fd_state) (drv : DriverState)
    (h0 h1 : byte) (rest : list byte) (dec' : D) (nsamples : Z) (pcm16 : list Z) :
  ring_wf (inputRing drv) ->
  deliverable fd = h0 :: h1 :: rest ->
  1 <= wire_length h0 h1 <= OPUS_MAX_PACKET ->
  wire_length h0 h1 <= Z.of_nat (length rest) ->
  opus_decode dec (take (Z.to_nat (wire_length h0 h1)) rest) (wire_length h0 h1)
  = (dec', nsamples, pcm16) ->
  nsamples <= OPUS_FRAME_SIZE ->
  (0 <= nsamples -> nsamples * NUM_CHANNELS <= Z.of_nat (length pcm16)) ->
  exists fd' rb',
    input_transport_step opus_decode dec fd drv
    = Some (LoopNext, dec', fd', set_inputRing drv rb')
    /\ deliverable fd' = drop (Z.to_nat (wire_length h0 h1)) rest
    /\ ring_wf rb'
    /\ (nsamples < 0 -> rb' = inputRing drv)
    /\ (0 <= nsamples ->
        contents rb'
        = contents (inputRing drv)
          ++ map (fun s => input_convert_sample s
                             (if inputMute drv =? 0 then inputVolume drv else f32_zero))
                 (take (Z.to_nat (Z.min nsamples
                                    (RING_CAPACITY - ring_available (inputRing drv))
                                  * NUM_CHANNELS)) pcm16)).
Proof.
  intros Hwf Hdel HL Hrest Hdec Hmax Hlen.
  pose proof (framed_read_spec fd OPUS_MAX_PACKET) as Hrd. rewrite Hdel in Hrd.
  case_decide as Hd; [|exfalso; apply Hd; split; assumption].
  destruct Hrd as (fd' & Hrd & Hdel').
  unfold input_transport_step. rewrite Hrd. cbn [mbind option_bind].
  rewrite Hdec.
  destruct (Z.ltb_spec nsamples 0) as [Hneg|Hpos].
  - exists fd', (inputRing drv). rewrite set_inputRing_same.
    split; [reflexivity|]. split; [exact Hdel'|]. split; [exact Hwf|].
    split; [reflexivity | lia].
  - specialize (Hlen Hpos).
    destruct (Z.ltb_spec OPUS_FRAME_SIZE nsamples) as [|_]; [lia|].
    set (gain := if negb (inputMute drv =? 0) then f32_zero else inputVolume drv).
    assert (Hgain : gain = if inputMute drv =? 0 then inputVolume drv else f32_zero)
      by (unfold gain; destruct (inputMute drv =? 0); reflexivity).
    set (pcm := map (fun s => input_convert_sample s gain)
                    (take (Z.to_nat (nsamples * NUM_CHANNELS)) pcm16)).
    assert (Hpcm : Z.of_nat (length pcm) = nsamples * NUM_CHANNELS).
    { unfold pcm. rewrite length_map, length_take. unfold NUM_CHANNELS in *. lia. }
    assert (Hk : 0 <= nsamples < u64_modulus)
      by (unfold OPUS_FRAME_SIZE, u64_modulus in *; lia).
    rewrite (u64_small nsamples Hk).
    destruct (ring_write_total (inputRing drv) pcm nsamples Hwf Hk ltac:(lia))
      as (rb' & Hrw & _).
    destruct (ring_write_contents (inputRing drv) pcm nsamples rb' _ Hwf Hk
                ltac:(lia) Hrw) as (Hwf' & _ & _ & Hc).
    rewrite Hrw. cbn [mbind option_bind].
    exists fd', rb'. split; [reflexivity|]. split; [exact Hdel'|].
    split; [exact Hwf'|]. split; [lia|]. intros _.
    rewrite Hc. f_equal. unfold pcm. rewrite <- Hgain.
    rewrite firstn_map. f_equal. rewrite take_take. f_equal.
    unfold NUM_CHANNELS. lia.
Qed.

Lemma framed_write_returns fd data (len : Z) :
  0 <= len < 2 ^ 16 -> len <= Z.of_nat (length data) ->
  exists r fd', framed_write fd data len = Some (r, fd')
                /\ wire fd `prefix_of` wire fd'.
Proof.
  intros Hlen Hdata. unfold framed_write.
  set (hdr := [byte_of_Z (Z.shiftr len 8); byte_of_Z (Z.land len 255)]).
  destruct (write_loop_spec 2 fd hdr 0 2 ltac:(lia) ltac:(simpl; lia) ltac:(lia))
    as (r1 & fd1 & k1 & Hrun1 & _ & Hw1 & _).
  rewrite Hrun1. cbn [mbind option_bind].
  destruct r1 as [[]|[]].
  - eexists _, _. split; [reflexivity|]. rewrite Hw1. apply prefix_app_r. reflexivity.
  - destruct (Z.ltb_spec (Z.of_nat (length data)) len); [lia|].
    destruct (write_loop_spec (Z.to_nat len) fd1 data 0 len ltac:(lia) Hdata ltac:(lia))
      as (r2 & fd2 & k2 & Hrun2 & _ & Hw2 & _).
    exists r2, fd2. split; [exact Hrun2|]. rewrite Hw2, Hw1, <- app_assoc.
    apply prefix_app_r. reflexivity.
Qed.

Lemma output_convert_is_Some (drv : DriverState) (pcm : list float32) :
  f32_valid (outputVolume drv) = true -> f32_is_finite (outputVolume drv) = true ->
  Forall (fun x => f32_valid x = true /\ f32_is_finite x = true) pcm ->
  is_Some (output_convert drv pcm).
Proof.
  intros Hvol Fvol Hpcm. unfold output_convert.
  set (gain := output_gain (outputVolume drv) (outputMute drv)).
  assert (Hg : f32_valid gain = true /\ f32_is_finite gain = true).
  { unfold gain, output_gain. destruct (negb (outputMute drv =? 0)); auto. }
  destruct Hg as [Hg Fg].
  apply mapM_is_Some. apply Forall_take. eapply Forall_impl; [exact Hpcm|].
  intros x [Hx Fx]. cbn.
  destruct (output_convert_sample_finite x gain Hx Hg Fx Fg) as (k & -> & _).
  eexists; reflexivity.
Qed.


Lemma contents_Forall {A : Type} (P : A -> Prop) (rb : RingBuffer A) :
  Forall P (samples rb) -> Forall P (contents rb).
Proof.
  intros H. unfold contents. apply Forall_take. apply Forall_app.
  split; [apply Forall_drop | apply Forall_take]; exact H.
Qed.

(** The first half of a pass: the ring is drained into the accumulation
    buffer behind the frames already there. *)
Lemma output_step_drained {E : Type}
    (opus_encode : E -> list Z -> E * Z * list byte)
    (enc : E) (fd : wfd_state) (loc : output_locals) (drv : DriverState) :
  output_pass_ready loc drv ->
  let got := Z.min (OPUS_FRAME_SIZE - out_acc loc) (ring_available (outputRing drv)) in
  exists rb',
    ring_wf rb' /\ samples rb' = samples (outputRing drv)
    /\ ring_available rb' = ring_available (outputRing drv) - got
    /\ contents rb'
       = drop (Z.to_nat (got * NUM_CHANNELS)) (contents (outputRing drv))
    /\ (got = 0 -> rb' = outputRing drv /\ drained_pcm loc drv = out_pcm loc)
    /\ output_pass_ready (mkOut (drained_pcm loc drv) (out_acc loc + got))
                         (set_outputRing drv rb')
    /\ output_transport_step opus_encode enc fd loc drv
       = (if out_acc loc + got <? OPUS_FRAME_SIZE then
            Some (OutSleep, enc, fd, mkOut (drained_pcm loc drv) (out_acc loc + got),
                  set_outputRing drv rb')
          else
            pcm16 ← output_convert (set_outputRing drv rb') (drained_pcm loc drv);
            let '(enc, nbytes, opus_buf) := opus_encode enc pcm16 in
            if nbytes <? 0 then
              Some (OutEncodeError, enc, fd, mkOut (drained_pcm loc drv) 0,
                    set_outputRing drv rb')
            else
              '(r, fd) ← framed_write fd opus_buf (nbytes mod 2 ^ 16);
              match r with
              | inl _ => Some (OutBreak, enc, fd,
                               mkOut (drained_pcm loc drv) (out_acc loc + got),
                               set_outputRing drv rb')
              | inr _ => Some (OutSent, enc, fd, mkOut (drained_pcm loc drv) 0,
                               set_outputRing drv rb')
              end).
Proof.
  intros (Hwf & Hlen & Hacc & Hvol & Fvol & Hpcm & Hring) got.
  pose proof (ring_available_range _ Hwf) as Hav.
  destruct loc as [pcm acc]. cbn [out_pcm out_acc] in *.
  unfold output_transport_step. cbn [out_pcm out_acc].
  assert (Hneed : u64_sub OPUS_FRAME_SIZE acc = OPUS_FRAME_SIZE - acc).
  { unfold u64_sub. apply u64_small. unfold OPUS_FRAME_SIZE, u64_modulus in *. lia. }
  assert (Hoff : u64_mul acc NUM_CHANNELS = acc * NUM_CHANNELS).
  { unfold u64_mul. apply u64_small.
    unfold OPUS_FRAME_SIZE, NUM_CHANNELS, u64_modulus in *. lia. }
  rewrite Hneed, Hoff.
  destruct (Z.ltb_spec (Z.of_nat (length pcm)) (acc * NUM_CHANNELS)) as [Hbad|_].
  { unfold OPUS_FRAME_SIZE, NUM_CHANNELS in *. lia. }
  assert (Hk : 0 <= OPUS_FRAME_SIZE - acc < u64_modulus)
    by (unfold OPUS_FRAME_SIZE, u64_modulus in *; lia).
  assert (Hdst : (OPUS_FRAME_SIZE - acc) * NUM_CHANNELS
                 <= Z.of_nat (length (drop (Z.to_nat (acc * NUM_CHANNELS)) pcm))).
  { rewrite length_drop. unfold OPUS_FRAME_SIZE, NUM_CHANNELS in *. lia. }
  destruct (ring_read_spec (outputRing drv) (drop (Z.to_nat (acc * NUM_CHANNELS)) pcm)
              (OPUS_FRAME_SIZE - acc) Hwf Hk) as (d' & Hrr & _).
  { fold got. unfold NUM_CHANNELS in *. lia. }
  destruct (ring_read_contents _ _ _ _ _ _ Hwf Hk Hdst Hrr)
    as (Hwf' & _ & Hav' & Hs' & _ & Hd' & Hc').
  fold got in Hrr, Hav', Hd', Hc'.
  set (rb' := mkRing (samples (outputRing drv)) (head (outputRing drv))
                     (u64_add (tail (outputRing drv)) got)) in *.
  assert (Hgot : 0 <= got <= OPUS_FRAME_SIZE - acc) by (unfold got; lia).
  assert (Hu : u64_add acc got = acc + got).
  { unfold u64_add. apply u64_small. unfold OPUS_FRAME_SIZE, u64_modulus in *. lia. }
  assert (Hpcm' : take (Z.to_nat (acc * NUM_CHANNELS)) pcm ++ d'
                  = drained_pcm (mkOut pcm acc) drv).
  { unfold drained_pcm. cbn [out_pcm out_acc]. fold got. rewrite Hd'.
    do 2 f_equal. rewrite drop_drop. f_equal.
    unfold NUM_CHANNELS in *. lia. }
  exists rb'. split; [exact Hwf'|]. split; [exact Hs'|]. split; [exact Hav'|].
  split; [exact Hc'|]. split; [|split].
  - intros H0.
    pose proof (ring_read_nothing (outputRing drv)
                  (drop (Z.to_nat (acc * NUM_CHANNELS)) pcm) (OPUS_FRAME_SIZE - acc)
                  Hwf Hk H0) as Hn.
    rewrite Hrr in Hn. fold got in Hn. injection Hn as Hrb Hdd _.
    split; [exact Hrb|]. rewrite <- Hpcm', Hdd. apply take_drop.
  - unfold output_pass_ready. cbn [out_pcm out_acc].
    assert (Hcl : Z.of_nat (length (contents (outputRing drv)))
                  = ring_available (outputRing drv) * NUM_CHANNELS)
      by (apply contents_length; exact Hwf).
    split; [exact Hwf'|]. split.
    { unfold drained_pcm. cbn [out_pcm out_acc]. fold got.
      rewrite !length_app, !length_take, length_drop.
      unfold got in *. unfold OPUS_FRAME_SIZE, NUM_CHANNELS in *. lia. }
    split; [lia|]. split; [exact Hvol|]. split; [exact Fvol|]. split.
    { unfold drained_pcm. cbn [out_pcm out_acc]. fold got.
      apply Forall_app. split; [apply Forall_take; exact Hpcm|].
      apply Forall_app. split; [|apply Forall_drop; exact Hpcm].
      apply Forall_take. apply contents_Forall. exact Hring. }
    { exact Hring. }
  - rewrite Hrr. cbn [mbind option_bind]. rewrite Hu, Hpcm'. reflexivity.
Qed.

Lemma set_outputRing_same (drv : DriverState) : set_outputRing drv (outputRing drv) = drv.
Proof. destruct drv; reflexivity. Qed.

(** A pass of the output thread from a ready state, with an encoder that
    keeps to its buffer, has no undefined step and ends in a ready
    state. It moves [got = min(OPUS_FRAME_SIZE - acc, available)] frames
    from the front of the ring to the accumulation buffer, behind the
    [acc] frames already there, and changes nothing else in the driver;
    it sleeps exactly when the buffer is still short of a frame; the
    count of accumulated frames afterwards is [acc + got] after a sleep,
    a whole frame after a failed write, and zero after a packet was sent
    or the encoder failed. Bytes are only ever added to the wire. *)
Theorem output_step_keeps_ready {E : Type}
    (opus_encode : E -> list Z -> E * Z * list byte)
    (enc : E) (fd : wfd_state) (loc : output_locals) (drv : DriverState) :
  output_pass_ready loc drv ->
  (forall e p e' nb buf, opus_encode e p = (e', nb, buf) ->
     nb <= OPUS_MAX_PACKET /\ (0 <= nb -> nb <= Z.of_nat (length buf))) ->
  exists ex enc' fd' loc' rb',
    output_transport_step opus_encode enc fd loc drv
    = Some (ex, enc', fd', loc', set_outputRing drv rb')
    /\ output_pass_ready loc' (set_outputRing drv rb')
    /\ wire fd `prefix_of` wire fd'
    /\ contents rb'
       = drop (Z.to_nat (Z.min (OPUS_FRAME_SIZE - out_acc loc)
                               (ring_available (outputRing drv)) * NUM_CHANNELS))
              (contents (outputRing drv))
    /\ out_pcm loc' = drained_pcm loc drv
    /\ (ex = OutSleep <->
        out_acc loc + Z.min (OPUS_FRAME_SIZE - out_acc loc)
                            (ring_available (outputRing drv)) < OPUS_FRAME_SIZE)
    /\ out_acc loc'
       = match ex with
         | OutSleep => out_acc loc + Z.min (OPUS_FRAME_SIZE - out_acc loc)
                                           (ring_available (outputRing drv))
         | OutBreak => OPUS_FRAME_SIZE
         | OutEncodeError | OutSent => 0
         end.
Proof.
  intros Hready Henc.
  destruct (output_step_drained opus_encode enc fd loc drv Hready)
    as (rb' & Hwf' & Hs' & Hav' & Hc' & _ & Hready' & Hstep).
  pose proof Hready as (Hwf & _ & Hacc & _).
  pose proof (ring_available_range _ Hwf) as Hav.
  set (got := Z.min (OPUS_FRAME_SIZE - out_acc loc)
                    (ring_available (outputRing drv))) in *.
  rewrite Hstep. clear Hstep.
  assert (Hzero : output_pass_ready (mkOut (drained_pcm loc drv) 0)
                                    (set_outputRing drv rb')).
  { destruct Hready' as (H1 & H2 & H3 & H4). split; [exact H1|]. split; [exact H2|].
    split; [cbn [out_acc]; unfold OPUS_FRAME_SIZE; lia | exact H4]. }
  destruct (Z.ltb_spec (out_acc loc + got) OPUS_FRAME_SIZE) as [Hlt|Hge].
  - exists OutSleep, enc, fd, (mkOut (drained_pcm loc drv) (out_acc loc + got)), rb'.
    split; [reflexivity|]. split; [exact Hready'|]. split; [reflexivity|].
    split; [exact Hc'|]. split; [reflexivity|]. split; [tauto | reflexivity].
  - assert (Hfull : out_acc loc + got = OPUS_FRAME_SIZE) by (unfold got in *; lia).
    pose proof Hready' as (_ & _ & _ & Hvol & Fvol & Hpcm & _).
    cbn [out_pcm] in Hpcm.
    destruct (output_convert_is_Some (set_outputRing drv rb') (drained_pcm loc drv)
                Hvol Fvol Hpcm) as (pcm16 & Hconv).
    rewrite Hconv. cbn [mbind option_bind].
    destruct (opus_encode enc pcm16) as [[enc' nb] buf] eqn:Hrun.
    destruct (Henc _ _ _ _ _ Hrun) as (Hnb & Hbuf).
    destruct (Z.ltb_spec nb 0) as [Hneg|Hpos].
    + exists OutEncodeError, enc', fd, (mkOut (drained_pcm loc drv) 0), rb'.
      split; [reflexivity|]. split; [exact Hzero|]. split; [reflexivity|].
      split; [exact Hc'|]. split; [reflexivity|].
      split; [split; [discriminate | lia] | reflexivity].
    + assert (Hmod : nb mod 2 ^ 16 = nb)
        by (apply Z.mod_small; unfold OPUS_MAX_PACKET in *; lia).
      rewrite Hmod.
      destruct (framed_write_returns fd buf nb
                  ltac:(unfold OPUS_MAX_PACKET in *; lia) (Hbuf Hpos))
        as (r & fd' & Hw & Hpre).
      rewrite Hw. cbn [mbind option_bind]. destruct r as [[]|[]].
      * exists OutBreak, enc', fd', (mkOut (drained_pcm loc drv) (out_acc loc + got)), rb'.
        split; [reflexivity|]. split; [exact Hready'|]. split; [exact Hpre|].
        split; [exact Hc'|]. split; [reflexivity|].
        split; [split; [discriminate | lia] | exact Hfull].
      * exists OutSent, enc', fd', (mkOut (drained_pcm loc drv) 0), rb'.
        split; [reflexivity|]. split; [exact Hzero|]. split; [exact Hpre|].
        split; [exact Hc'|]. split; [reflexivity|].
        split; [split; [discriminate | lia] | reflexivity].
Qed.

(** A pass that completes a frame. When the accumulated frames and the
    ring together hold a whole frame, the pass converts the
    [OPUS_FRAME_SIZE * NUM_CHANNELS] samples of the completed buffer and
    hands them to the encoder; an encoder error drops the frame without
    touching the socket; otherwise the packet goes out as one frame of
    the wire format, or the write fails and the loop breaks. A pass
    entered with a full buffer, as after a failed write, takes nothing
    from the ring and encodes the very samples it held. *)
Theorem output_step_encodes_full_frame {E : Type}
    (opus_encode : E -> list Z -> E * Z * list byte)
    (enc : E) (fd : wfd_state) (loc : output_locals) (drv : DriverState) :
  output_pass_ready loc drv ->
  (forall e p e' nb buf, opus_encode e p = (e', nb, buf) ->
     nb <= OPUS_MAX_PACKET /\ (0 <= nb -> nb <= Z.of_nat (length buf))) ->
  OPUS_FRAME_SIZE <= out_acc loc + ring_available (outputRing drv) ->
  exists pcm16 enc' nb buf ex fd' loc' drv',
    output_convert drv (drained_pcm loc drv) = Some pcm16
    /\ Z.of_nat (length pcm16) = OPUS_FRAME_SIZE * NUM_CHANNELS
    /\ opus_encode enc pcm16 = (enc', nb, buf)
    /\ output_transport_step opus_encode enc fd loc drv
       = Some (ex, enc', fd', loc', drv')
    /\ (nb < 0 -> ex = OutEncodeError /\ fd' = fd)
    /\ (0 <= nb ->
        (ex = OutSent /\ wire fd' = wire fd ++ frame_bytes buf nb) \/ ex = OutBreak)
    /\ (out_acc loc = OPUS_FRAME_SIZE -> drv' = drv /\ out_pcm loc' = out_pcm loc).
Proof.
  intros Hready Henc Hfull.
  destruct (output_step_drained opus_encode enc fd loc drv Hready)
    as (rb' & Hwf' & Hs' & Hav' & Hc' & Hnone & Hready' & Hstep).
  pose proof Hready as (Hwf & _ & Hacc & _).
  pose proof (ring_available_range _ Hwf) as Hav.
  set (got := Z.min (OPUS_FRAME_SIZE - out_acc loc)
                    (ring_available (outputRing drv))) in *.
  rewrite Hstep. clear Hstep.
  destruct (Z.ltb_spec (out_acc loc + got) OPUS_FRAME_SIZE) as [Hlt|_];
    [unfold got in *; lia|].
  pose proof Hready' as (_ & Hlen & _ & Hvol & Fvol & Hpcm & _).
  cbn [out_pcm] in Hpcm, Hlen.
  destruct (output_convert_is_Some (set_outputRing drv rb') (drained_pcm loc drv)
              Hvol Fvol Hpcm) as (pcm16 & Hconv).
  rewrite Hconv. cbn [mbind option_bind].
  assert (Hl16 : Z.of_nat (length pcm16) = OPUS_FRAME_SIZE * NUM_CHANNELS).
  { unfold output_convert in Hconv. apply mapM_Some in Hconv.
    apply Forall2_length in Hconv. rewrite length_take in Hconv.
    unfold OPUS_FRAME_SIZE, NUM_CHANNELS in *. lia. }
  assert (Hsame : out_acc loc = OPUS_FRAME_SIZE ->
                  set_outputRing drv rb' = drv /\ drained_pcm loc drv = out_pcm loc).
  { intros Hacc'. destruct Hnone as [-> ->]; [unfold got; lia|].
    split; [apply set_outputRing_same | reflexivity]. }
  destruct (opus_encode enc pcm16) as [[enc' nb] buf] eqn:Hrun.
  destruct (Henc _ _ _ _ _ Hrun) as (Hnb & Hbuf).
  destruct (Z.ltb_spec nb 0) as [Hneg|Hpos].
  - exists pcm16, enc', nb, buf, OutEncodeError, fd,
      (mkOut (drained_pcm loc drv) 0), (set_outputRing drv rb').
    split; [exact Hconv|]. split; [exact Hl16|]. split; [exact Hrun|].
    split; [reflexivity|]. split; [auto|]. split; [lia|exact Hsame].
  - assert (Hrange : 0 <= nb < 2 ^ 16) by (unfold OPUS_MAX_PACKET in *; lia).
    rewrite (Z.mod_small nb (2 ^ 16) Hrange).
    destruct (framed_write_returns fd buf nb Hrange (Hbuf Hpos))
      as (r & fd' & Hw & Hpre).
    rewrite Hw. cbn [mbind option_bind]. destruct r as [[]|[]].
    + exists pcm16, enc', nb, buf, OutBreak, fd',
        (mkOut (drained_pcm loc drv) (out_acc loc + got)), (set_outputRing drv rb').
      split; [exact Hconv|]. split; [exact Hl16|]. split; [exact Hrun|].
      split; [reflexivity|]. split; [lia|]. split; [auto | exact Hsame].
    + destruct (framed_write_success fd buf nb fd' Hrange Hw) as (_ & Hwire).
      exists pcm16, enc', nb, buf, OutSent, fd',
        (mkOut (drained_pcm loc drv) 0), (set_outputRing drv rb').
      split; [exact Hconv|]. split; [exact Hl16|]. split; [exact Hrun|].
      split; [reflexivity|]. split; [lia|]. split; [auto | exact Hsame].
Qed.

End TransportSteps.

(** * Conversions checked on every 16-bit sample, and reference counts *)

Section SampleRange.

Lemma all_from_spec (P : Z -> bool) (n : nat) : forall lo z,
  all_from n lo P = true -> lo <= z < lo + Z.of_nat n -> P z = true.
Proof.
  induction n as [|n IH]; intros lo z Hall Hz; [lia|].
  cbn [all_from] in Hall. apply andb_true_iff in Hall. destruct Hall as [H0 Hrest].
  destruct (Z.eq_dec z lo) as [->|Hne]; [exact H0|].
  apply (IH (lo + 1)); [exact Hrest | lia].
Qed.

(** The check holds of each of the 65536 samples, by evaluation. *)
Lemma int16_conversions_checked (s : Z) :
  -32768 <= s <= 32767 -> int16_conversions_check s = true.
Proof.
  intros Hs.
  assert (Hall : all_from (Z.to_nat 65536) (-32768) int16_conversions_check = true)
    by (vm_compute; reflexivity).
  apply (all_from_spec _ _ _ s Hall). lia.
Qed.

(** The conversion of the input thread is exact: at unity gain every
    16-bit sample [s] becomes the float whose value is [s / 32768], a
    well-formed number; with the gain at zero, as when muted, it becomes
    a zero. *)
Theorem input_conversion_exact (s : Z) :
  -32768 <= s <= 32767 ->
  f32_valid (input_convert_sample s f32_one) = true
  /\ (exists q, f32_to_Q (input_convert_sample s f32_one) = Some q
                /\ (q == s # 32768)%Q)
  /\ f32_to_Q (input_convert_sample s f32_zero) = Some 0%Q.
Proof.
  intros Hs. pose proof (int16_conversions_checked s Hs) as H.
  unfold int16_conversions_check in H. cbv zeta in H.
  apply andb_true_iff in H. destruct H as [H _].
  apply andb_true_iff in H. destruct H as [H Hz].
  apply andb_true_iff in H. destruct H as [Hv Hq].
  split; [exact Hv|]. split.
  - destruct (f32_to_Q (input_convert_sample s f32_one)) as [q|]; [|discriminate Hq].
    exists q. split; [reflexivity|]. exact (Qeq_bool_eq _ _ Hq).
  - destruct (input_convert_sample s f32_zero); try discriminate Hz. reflexivity.
Qed.

(** Audio that comes in through the input thread and goes out through
    the output thread, both at unity gain, does not come back as it was:
    every 16-bit sample other than 0 loses one unit of magnitude, the
    input side dividing by 32768 and the output side multiplying by
    32767 and truncating. *)
Theorem loopback_loses_one_unit (s : Z) :
  -32768 <= s <= 32767 ->
  output_convert_sample (input_convert_sample s f32_one) f32_one
  = Some (s - Z.sgn s).
Proof.
  intros Hs. pose proof (int16_conversions_checked s Hs) as H.
  unfold int16_conversions_check in H. cbv zeta in H.
  apply andb_true_iff in H. destruct H as [_ H].
  destruct (output_convert_sample (input_convert_sample s f32_one) f32_one) as [r|];
    [|discriminate H].
  apply Z.eqb_eq in H. rewrite H. reflexivity.
Qed.
End SampleRange.

Section ReferenceCount.

(** Reference counts. From a count [rc], [n] calls of [driver_AddRef]
    that stay below [2^32] give [rc + n], and [m] calls of
    [driver_Release] after them give [rc + n - m], or 0 once there were
    more releases than references: the count never wraps below zero, and
    as many releases as references restore it. *)
Theorem refcount_balanced (rc : Z) (n m : nat) :
  0 <= rc -> rc + Z.of_nat n < 2 ^ 32 ->
  Nat.iter n (fun r => snd (driver_AddRef r)) (Some rc) = Some (rc + Z.of_nat n)
  /\ Nat.iter m (fun r => snd (driver_Release r)) (Some (rc + Z.of_nat n))
     = Some (Z.max 0 (rc + Z.of_nat n - Z.of_nat m))
  /\ Nat.iter n (fun r => snd (driver_Release r))
       (Nat.iter n (fun r => snd (driver_AddRef r)) (Some rc)) = Some rc.
Proof.
  intros Hrc Hn. change (2 ^ 32) with 4294967296 in *.
  assert (Hadd : forall k : nat, rc + Z.of_nat k < 4294967296 ->
            Nat.iter k (fun r => snd (driver_AddRef r)) (Some rc)
            = Some (rc + Z.of_nat k)).
  { induction k as [|k IH]; intros Hk.
    - unfold Nat.iter, nat_rect. f_equal. lia.
    - rewrite Nat.iter_succ, IH by lia. unfold driver_AddRef. cbn [snd].
      change (2 ^ 32) with 4294967296. f_equal.
      rewrite Z.mod_small by lia. lia. }
  assert (Hrel : forall (k : nat) c, 0 <= c < 4294967296 ->
            Nat.iter k (fun r => snd (driver_Release r)) (Some c)
            = Some (Z.max 0 (c - Z.of_nat k))).
  { induction k as [|k IH]; intros c Hc.
    - unfold Nat.iter, nat_rect. f_equal. lia.
    - rewrite Nat.iter_succ, IH by exact Hc. unfold driver_Release.
      change (2 ^ 32) with 4294967296.
      destruct (Z.gtb_spec (Z.max 0 (c - Z.of_nat k)) 0) as [Hpos|Hz]; cbn [snd].
      + f_equal. rewrite Z.mod_small by lia. lia.
      + f_equal. lia. }
  split; [apply Hadd; exact Hn|]. split; [apply Hrel; lia|].
  rewrite Hadd by exact Hn. rewrite Hrel by lia. f_equal. lia.
Qed.
End ReferenceCount.

(** * The further properties at concrete inputs *)

(** One frame read from a ring that holds two. *)
Lemma ring_read_returns_min_witness :
  exists rb' d',
    ring_read (mkRing (replicate (Z.to_nat 16384) false) 3 1) [true; true] 1
    = Some (rb', d', 1)
    /\ d' = [false; false].
Proof.
  destruct (ring_read_returns_min (mkRing (replicate (Z.to_nat 16384) false) 3 1)
              [true; true] 1)
    as (rb' & d' & Hr & _ & _ & _ & _ & _ & Hd & _).
  - repeat split; vm_compute; first [reflexivity | discriminate].
  - split; vm_compute; first [reflexivity | discriminate].
  - vm_compute. discriminate.
  - exists rb', d'. split; [exact Hr|]. rewrite Hd. vm_compute. reflexivity.
Defined.

(** Two frames written to a fresh ring and read back. *)
Lemma ring_write_then_read_witness :
  exists rb1 rb2 d',
    ring_write (ring_init false) [true; false; false; true] 2 = Some (rb1, 2)
    /\ ring_read rb1 [false; false; false; false; false] 2 = Some (rb2, d', 2)
    /\ take 4 d' = [true; false; false; true].
Proof.
  destruct (ring_write_then_read (ring_init false) [true; false; false; true]
              [false; false; false; false; false] 2)
    as (rb1 & rb2 & d' & Hw & Hr & Ht & _).
  - repeat split; vm_compute; first [reflexivity | discriminate].
  - vm_compute. reflexivity.
  - split; vm_compute; discriminate.
  - vm_compute. discriminate.
  - vm_compute. discriminate.
  - exists rb1, rb2, d'. split; [exact Hw|]. split; [exact Hr | exact Ht].
Defined.

(** A write and a read on a ring that already holds one frame. *)
Lemma ring_fifo_from_any_state_witness :
  exists rb' accepted delivered,
    run_ops (mkRing (replicate (Z.to_nat 16384) 7%nat) 1 0)
      [OpWrite [1; 2]%nat 1; OpRead [0; 0; 0; 0]%nat 2] [] []
    = Some (rb', accepted, delivered)
    /\ ring_wf rb'.
Proof.
  destruct (ring_fifo_from_any_state (mkRing (replicate (Z.to_nat 16384) 7%nat) 1 0)
              [OpWrite [1; 2]%nat 1; OpRead [0; 0; 0; 0]%nat 2])
    as (rb' & acc & del & Hrun & Hwf & _).
  - repeat split; vm_compute; first [reflexivity | discriminate].
  - repeat constructor; vm_compute; first [reflexivity | discriminate].
  - exists rb', acc, del. split; [exact Hrun | exact Hwf].
Defined.

(** One frame mixed into the output ring of a fresh driver. *)
Lemma do_io_write_mix_appends_witness :
  exists rb',
    driver_DoIOOperation (Some initialized_driver) kObjectID_OutputDevice
      kAudioServerPlugInIOOperationWriteMix 1 [f32_half; f32_quarter]
    = Some (kAudioHardwareNoError, Some (set_outputRing initialized_driver rb'),
            [f32_half; f32_quarter])
    /\ contents rb' = [f32_half; f32_quarter].
Proof.
  destruct (do_io_write_mix_appends initialized_driver 1 [f32_half; f32_quarter])
    as (rb' & Hio & _ & Hc & _).
  - repeat split; vm_compute; first [reflexivity | discriminate].
  - split; vm_compute; first [reflexivity | discriminate].
  - vm_compute. discriminate.
  - exists rb'. split; [exact Hio|]. rewrite Hc. vm_compute. reflexivity.
Defined.

(** A three-byte payload written to a socket that takes one byte, then
    fails. *)
Lemma framed_write_sends_prefix_witness :
  exists r fd' sent,
    framed_write (mkWfd [Accept 1; WFailure] []) ["a"%byte; "b"%byte; "c"%byte] 3
    = Some (r, fd')
    /\ wire fd' = sent
    /\ sent `prefix_of` ["000"%byte; "003"%byte; "a"%byte; "b"%byte; "c"%byte].
Proof.
  destruct (framed_write_sends_prefix (mkWfd [Accept 1; WFailure] [])
              ["a"%byte; "b"%byte; "c"%byte] 3)
    as (r & fd' & sent & Hw & Hwire & Hpre & _).
  - split; vm_compute; first [reflexivity | discriminate].
  - vm_compute. discriminate.
  - exists r, fd', sent. split; [exact Hw|]. split; [exact Hwire | exact Hpre].
Defined.

(** A three-byte payload written whole and read back in two chunks. *)
Lemma framed_write_read_round_trip_witness :
  exists fdr',
    framed_read [Data ["000"%byte; "003"%byte; "a"%byte]; Data ["b"%byte; "c"%byte]]
      OPUS_MAX_PACKET
    = Some (inr (3, ["a"%byte; "b"%byte; "c"%byte]), fdr').
Proof.
  destruct (framed_write_read_round_trip (mkWfd [] [])
              ["a"%byte; "b"%byte; "c"%byte] 3
              (mkWfd [] ["000"%byte; "003"%byte; "a"%byte; "b"%byte; "c"%byte]))
    as (_ & Hrd).
  - split; vm_compute; first [reflexivity | discriminate].
  - vm_compute. reflexivity.
  - destruct (Hrd [Data ["000"%byte; "003"%byte; "a"%byte]; Data ["b"%byte; "c"%byte]]
                [] eq_refl) as (Hok & _).
    destruct Hok as (fdr' & Hr & _).
    + split; vm_compute; discriminate.
    + exists fdr'. exact Hr.
Defined.

(** Two queries, 15 ms and 25 ms after the anchor at tick 1000. *)
Lemma zero_timestamp_monotone_witness :
  exists p1 h1 p2 h2,
    driver_GetZeroTimeStamp
      (Some (mkDriver (ring_init f32_zero) (ring_init f32_zero) f32_one 0 f32_one 0
               1 0 1000 0 0 0 1 125 3))
      kObjectID_OutputDevice 361000
    = Some (kAudioHardwareNoError, Some (f64_of_Z (p1 * CLOCK_PERIOD_FRAMES), h1, 1))
    /\ driver_GetZeroTimeStamp
         (Some (mkDriver (ring_init f32_zero) (ring_init f32_zero) f32_one 0 f32_one 0
                  1 0 1000 0 0 0 1 125 3))
         kObjectID_OutputDevice 601000
       = Some (kAudioHardwareNoError, Some (f64_of_Z (p2 * CLOCK_PERIOD_FRAMES), h2, 1))
    /\ p1 <= p2 /\ h1 <= h2.
Proof.
  destruct (zero_timestamp_monotone
              (mkDriver (ring_init f32_zero) (ring_init f32_zero) f32_one 0 f32_one 0
                 1 0 1000 0 0 0 1 125 3)
              kObjectID_OutputDevice 361000 601000)
    as (p1 & h1 & p2 & h2 & H1 & H2 & Hp & Hh & _).
  - split; vm_compute; first [reflexivity | discriminate].
  - split; vm_compute; first [reflexivity | discriminate].
  - split; vm_compute; first [reflexivity | discriminate].
  - vm_compute. discriminate.
  - vm_compute. reflexivity.
  - vm_compute. reflexivity.
  - exists p1, h1, p2, h2. split; [exact H1|]. split; [exact H2|].
    split; [apply Hp | apply Hh].
Defined.

(** The output device of a fresh driver started at tick 1000. *)
Lemma start_io_anchors_clock_witness :
  exists drv',
    driver_StartIO (Some initialized_driver) kObjectID_OutputDevice 1000
    = (kAudioHardwareNoError, Some drv')
    /\ driver_GetZeroTimeStamp (Some drv') kObjectID_OutputDevice 1000
       = Some (kAudioHardwareNoError, Some (S754_zero false, 1000, 1)).
Proof.
  destruct (start_io_anchors_clock initialized_driver kObjectID_OutputDevice 1000)
    as (drv' & Hs & Hz & _).
  - left. reflexivity.
  - vm_compute. discriminate.
  - vm_compute. discriminate.
  - split; vm_compute; first [reflexivity | discriminate].
  - exists drv'. split; [exact Hs | exact Hz].
Defined.

(** A request of -120 dB on the output volume. *)
Lemma decibel_range_ends_witness :
  exists drv',
    driver_SetPropertyData (fun _ _ => f32_one) (Some initialized_driver)
      kObjectID_OutputVolume (LevelProperty kAudioLevelControlPropertyDecibelValue)
      4 (f32_of_Z (-120))
    = Some (kAudioHardwareNoError, Some drv')
    /\ driver_GetPropertyData (fun _ => f32_zero) (fun _ _ => f32_one) (Some drv')
         kObjectID_OutputVolume kAudioLevelControlPropertyScalarValue 4 f32_zero
       = Some (kAudioHardwareNoError, Some f32_zero).
Proof.
  destruct (decibel_range_ends (fun _ => f32_zero) (fun _ _ => f32_one)
              initialized_driver kObjectID_OutputVolume 4 (f32_of_Z (-120)) f32_zero)
    as (Hlow & _).
  - reflexivity.
  - vm_compute. discriminate.
  - apply Hlow. vm_compute. reflexivity.
Defined.

(** A frame of two samples, 0.25 and 0.5, at full volume. *)
Lemma output_convert_defined_on_finite_audio_witness :
  exists pcm16,
    output_convert initialized_driver [f32_quarter; f32_half] = Some pcm16
    /\ Forall (fun n => -32768 <= n <= 32767) pcm16.
Proof.
  destruct (output_convert_defined_on_finite_audio initialized_driver
              [f32_quarter; f32_half])
    as (pcm16 & Hc & _ & Hr & _).
  - vm_compute. reflexivity.
  - vm_compute. reflexivity.
  - repeat constructor; vm_compute; reflexivity.
  - exists pcm16. split; [exact Hc | exact Hr].
Defined.

(** The sample 0.5 with the output muted. *)
Lemma output_mute_silences_witness :
  output_convert_sample f32_half (output_gain f32_one 1) = Some 0.
Proof.
  destruct (output_mute_silences
              (mkDriver (ring_init f32_zero) (ring_init f32_zero) f32_one 1 f32_one 0
                 0 0 0 0 0 0 1 125 3)
              [f32_half] f32_half)
    as (Hfin & _).
  - vm_compute. discriminate.
  - apply Hfin. reflexivity.
Defined.

(** A two-byte packet that decodes to one frame, [16384, -16384]. *)
Lemma input_step_queues_decoded_audio_witness :
  exists fd' rb',
    input_transport_step (fun (d : unit) _ _ => (d, 1, [16384; -16384])) tt
      [Data ["000"%byte; "002"%byte; "a"%byte; "b"%byte]] initialized_driver
    = Some (LoopNext, tt, fd', set_inputRing initialized_driver rb')
    /\ contents rb'
       = [input_convert_sample 16384 f32_one; input_convert_sample (-16384) f32_one].
Proof.
  destruct (input_step_queues_decoded_audio
              (fun (d : unit) _ _ => (d, 1, [16384; -16384])) tt
              [Data ["000"%byte; "002"%byte; "a"%byte; "b"%byte]] initialized_driver
              "000"%byte "002"%byte ["a"%byte; "b"%byte] tt 1 [16384; -16384])
    as (fd' & rb' & Hstep & _ & _ & _ & Hc).
  - repeat split; vm_compute; first [reflexivity | discriminate].
  - reflexivity.
  - split; vm_compute; discriminate.
  - vm_compute. discriminate.
  - reflexivity.
  - vm_compute. discriminate.
  - intros _. vm_compute. discriminate.
  - exists fd', rb'. split; [exact Hstep|]. rewrite Hc by (vm_compute; discriminate).
    vm_compute. reflexivity.
Defined.

Lemma output_pass_ready_examples :
  output_pass_ready empty_accumulator initialized_driver
  /\ output_pass_ready empty_accumulator driver_with_audio.
Proof.
  split.
  - split; [repeat split; vm_compute; first [reflexivity | discriminate]|].
    split; [vm_compute; reflexivity|].
    split; [split; vm_compute; discriminate|].
    split; [reflexivity|]. split; [reflexivity|].
    split; apply Forall_replicate; split; reflexivity.
  - split; [repeat split; vm_compute; first [reflexivity | discriminate]|].
    split; [vm_compute; reflexivity|].
    split; [split; vm_compute; discriminate|].
    split; [reflexivity|]. split; [reflexivity|].
    split; apply Forall_replicate; split; reflexivity.
Qed.

(** The first pass of the output thread on a fresh driver: nothing to
    drain, so it sleeps. *)
Lemma output_step_keeps_ready_witness :
  exists enc' fd' loc' rb',
    output_transport_step (fun (e : unit) _ => (e, 3, ["a"%byte; "b"%byte; "c"%byte]))
      tt (mkWfd [] []) empty_accumulator initialized_driver
    = Some (OutSleep, enc', fd', loc', set_outputRing initialized_driver rb')
    /\ out_acc loc' = 0.
Proof.
  destruct (output_step_keeps_ready
              (fun (e : unit) _ => (e, 3, ["a"%byte; "b"%byte; "c"%byte]))
              tt (mkWfd [] []) empty_accumulator initialized_driver)
    as (ex & enc' & fd' & loc' & rb' & Hstep & _ & _ & _ & _ & Hsleep & Hacc).
  - exact (proj1 output_pass_ready_examples).
  - intros e p e' nb buf H. injection H as _ <- <-. split; [|intros _];
      vm_compute; discriminate.
  - assert (E : ex = OutSleep) by (apply Hsleep; vm_compute; reflexivity).
    subst ex. exists enc', fd', loc', rb'. split; [exact Hstep | exact Hacc].
Defined.

(** A pass of the output thread with 960 frames in the ring: a packet is
    encoded from 1920 samples. *)
Lemma output_step_encodes_full_frame_witness :
  exists pcm16 ex enc' fd' loc' drv',
    output_convert driver_with_audio (drained_pcm empty_accumulator driver_with_audio)
    = Some pcm16
    /\ Z.of_nat (length pcm16) = 1920
    /\ output_transport_step
         (fun (e : unit) _ => (e, 3, ["a"%byte; "b"%byte; "c"%byte]))
         tt (mkWfd [] []) empty_accumulator driver_with_audio
       = Some (ex, enc', fd', loc', drv')
    /\ ((ex = OutSent
         /\ wire fd' = ["000"%byte; "003"%byte; "a"%byte; "b"%byte; "c"%byte])
        \/ ex = OutBreak).
Proof.
  destruct (output_step_encodes_full_frame
              (fun (e : unit) _ => (e, 3, ["a"%byte; "b"%byte; "c"%byte]))
              tt (mkWfd [] []) empty_accumulator driver_with_audio)
    as (pcm16 & enc' & nb & buf & ex & fd' & loc' & drv' & Hc & Hl & He & Hstep
        & _ & Hsent & _).
  - exact (proj2 output_pass_ready_examples).
  - intros e p e' nb buf H. injection H as _ <- <-. split; [|intros _];
      vm_compute; discriminate.
  - vm_compute. discriminate.
  - injection He as _ <- <-.
    exists pcm16, ex, enc', fd', loc', drv'. split; [exact Hc|]. split; [exact Hl|].
    split; [exact Hstep|]. apply Hsent. vm_compute. discriminate.
Defined.

(** The sample 16384 at unity gain is 0.5. *)
Lemma input_conversion_exact_witness :
  exists q, f32_to_Q (input_convert_sample 16384 f32_one) = Some q
            /\ (q == 16384 # 32768)%Q.
Proof.
  destruct (input_conversion_exact 16384) as (_ & Hq & _).
  - split; vm_compute; discriminate.
  - exact Hq.
Defined.

(** The loudest negative sample through both conversions. *)
Lemma loopback_loses_one_unit_witness :
  output_convert_sample (input_convert_sample (-32768) f32_one) f32_one
  = Some (-32767).
Proof.
  apply (loopback_loses_one_unit (-32768)). split; vm_compute; discriminate.
Defined.

(** Three references taken and released, starting from one. *)
Lemma refcount_balanced_witness :
  Nat.iter 3 (fun r => snd (driver_Release r))
    (Nat.iter 3 (fun r => snd (driver_AddRef r)) (Some 1)) = Some 1.
Proof.
  destruct (refcount_balanced 1 3 0) as (_ & _ & H).
  - vm_compute. discriminate.
  - vm_compute. reflexivity.
  - exact H.
Defined.
